(** * ncmdump tagger: a shallow embedding of [tagger.go]

    The file [tagger.go] writes title, album, artist, comment and cover
    metadata into MP3 files (through [github.com/bogem/id3v2]) and into
    FLAC files (through [github.com/go-flac/go-flac], [flacvorbis] and
    [flacpicture]).  The two [Tagger] implementations are embedded as
    state-passing functions over records that mirror the Go structs.

    The library functions they call are embedded from the libraries' own
    Go sources, each in a module named after its package: the frame store
    of an ID3v2 tag ([tag.go], [sequence.go] and the [UniqueIdentifier]
    methods of the releases 1.x, which are the ones behind the import
    path [github.com/bogem/id3v2]), the Vorbis comment list and the
    picture block with their byte layouts, the block layout of a FLAC
    file.  What stays outside is taken as an argument: the image decoder
    behind [flacpicture.NewFromImageData], the comparison [flacvorbis.Get]
    applies to field names (exact in the first releases,
    [strings.EqualFold] later) and the Unicode branch of
    [strings.ToLower].

    File operations run in a [World]: the files, a schedule that says
    which of the coming library calls on files fail, and the log of the
    calls made.  A file is held as the frames or the blocks its codec
    reads from it; the bytes of an ID3v2 frame are not followed, and
    neither is what the text encoders make of a text. *)

From Stdlib Require Import ZArith NArith Lia List Bool.
From Stdlib.Strings Require Import Ascii String Byte.
From stdpp Require Import base option list gmap strings fin_maps.

Import ListNotations.
Open Scope string_scope.
Open Scope list_scope.

(** ** Go values shared by all packages *)

(** A Go [[]byte]. *)
Abbreviation bytes := (list Byte.byte).

(** [[]byte(s)] and [string(b)]: Go strings are byte sequences. *)
Definition bytes_of_string (s : string) : bytes := list_byte_of_string s.
Definition string_of_bytes (b : bytes) : string := string_of_list_byte b.

(** Values of Go's [error] interface that occur in the program.  [nil] is
    [None].  The last constructor is no Go value: [runtime_panic] stands
    where a library call does not return at all but panics, at the one
    place of the program where that is decided by the content of a file
    ([flac.ParseFile] on a file with less than two bytes of audio). *)
Inductive error_value : Type :=
| errors_New (msg : string)          (* errors.New(msg) *)
| ErrorMalformedComment              (* flacvorbis *)
| ErrorInvalidFieldName              (* flacvorbis *)
| ErrorNotVorbisComment              (* flacvorbis *)
| ErrorUnexpEof                      (* flacvorbis *)
| ErrorNoSyncCode                    (* flac *)
| io_ErrUnexpectedEOF                (* io.ErrUnexpectedEOF *)
| ErrUnsupportedVersion              (* id3v2 *)
| io_EOF                             (* io.EOF *)
| image_ErrFormat                    (* image: unknown format *)
| os_ErrNotExist (path : string)     (* open path: no such file *)
| codec_error (path : string)        (* the file is not what the codec reads *)
| sys_error (code : nat)             (* any other failure of a system call *)
| runtime_panic (msg : string).      (* no error value: the call panicked *)

Abbreviation error := (option error_value).
Abbreviation nil_error := (@None error_value).

#[global] Instance error_value_eq_dec : EqDecision error_value.
Proof. solve_decision. Defined.

(** A Go call either returns or panics. *)
Inductive outcome (A : Type) : Type :=
| Ret (a : A)
| Panic (msg : string).
Arguments Ret {A} a.
Arguments Panic {A} msg.

Definition obind {A B} (x : outcome A) (k : A -> outcome B) : outcome B :=
  match x with
  | Ret a => k a
  | Panic msg => Panic msg
  end.

Notation "x <- c ;;; k" := (obind c (fun x => k))
  (at level 200, c at level 100, k at level 200, right associativity).

(** ** Package [id3v2] (github.com/bogem/id3v2) *)

Module id3v2.

(** [Encoding] values; [EncodingUnset] is the zero [Encoding{}]. *)
Inductive Encoding : Type :=
| EncodingUnset | EncodingISO | EncodingUTF16 | EncodingUTF16BE | EncodingUTF8.

(** Picture types are bytes; [PTFrontCover] is 3. *)
Definition PTFrontCover : N := 3.

Record TextFrame : Type := mkTextFrame {
  tf_Encoding : Encoding;
  tf_Text : string
}.

Record PictureFrame : Type := mkPictureFrame {
  pf_Encoding : Encoding;
  MimeType : string;
  PictureType : N;
  pf_Description : string;
  Picture : bytes
}.

Record CommentFrame : Type := mkCommentFrame {
  cf_Encoding : Encoding;
  Language : string;
  cf_Description : string;
  cf_Text : string
}.

(** Dynamic values of the [Framer] interface.  [OtherFrame] stands for the
    remaining frame kinds of the library (unknown, lyrics, user-defined
    text, ...), each with the identifier its own [UniqueIdentifier]
    reports. *)
Inductive Framer : Type :=
| FText (f : TextFrame)
| FPicture (f : PictureFrame)
| FComment (f : CommentFrame)
| OtherFrame (uid : string) (body : bytes).

(** [Framer.UniqueIdentifier] (text_frame.go, picture_frame.go,
    comment_frame.go): every text frame reports "ID", a picture its
    description (the picture type is no part of it), a comment its
    language followed by its description. *)
Definition UniqueIdentifier (f : Framer) : string :=
  match f with
  | FText _ => "ID"
  | FPicture pf => pf_Description pf
  | FComment cf => Language cf ++ cf_Description cf
  | OtherFrame uid _ => uid
  end.

(** sequence.go: a sequence holds the frames of an ID that may occur more
    than once; a frame replaces the one with the same identifier. *)
Fixpoint indexOfFrame (f : Framer) (fs : list Framer) : option nat :=
  match fs with
  | [] => None
  | ff :: rest =>
      if String.eqb (UniqueIdentifier f) (UniqueIdentifier ff) then Some 0%nat
      else option_map S (indexOfFrame f rest)
  end.

Definition sequence_AddFrame (f : Framer) (fs : list Framer) : list Framer :=
  match indexOfFrame f fs with
  | None => fs ++ [f]
  | Some i => <[i := f]> fs
  end.

(** tag.go [mustFrameBeInSequence].  The first [case] of the Go switch has
    an empty body, and Go cases do not fall through: those IDs reach the
    final [return true]. *)
Definition mustFrameBeInSequence (id : string) : bool :=
  if negb (String.eqb id "TXXX") && String.prefix "T" id then false
  else if existsb (String.eqb id)
            ["MCDI"; "ETCO"; "SYTC"; "RVRB"; "MLLT"; "PCNT"; "RBUF"; "POSS";
             "OWNE"; "SEEK"; "ASPI"] then true
  else if existsb (String.eqb id) ["IPLS"; "RVAD"] then false
  else true.

(** The part of a [Tag] the tagger reaches: single frames by ID, sequences
    by ID, the default text encoding and the name of the file behind
    [tag.reader]. *)
Record Tag : Type := mkTag {
  frames : gmap string Framer;
  sequences : gmap string (list Framer);
  defaultEncoding : Encoding;
  version : N;
  reader : string
}.

Definition set_frames (fs : gmap string Framer) (tag : Tag) : Tag :=
  mkTag fs (sequences tag) (defaultEncoding tag) (version tag) (reader tag).
Definition set_sequences (ss : gmap string (list Framer)) (tag : Tag) : Tag :=
  mkTag (frames tag) ss (defaultEncoding tag) (version tag) (reader tag).

(** [Tag.init]: no frames yet; the default encoding follows the version. *)
Definition init (name : string) (version : N) : Tag :=
  mkTag ∅ ∅ (if (version =? 4)%N then EncodingUTF8 else EncodingISO)
    version name.

(** common_ids.go: the descriptions the tagger and the library's own
    accessors pass to [CommonID]; the v2.3 and v2.4 tables agree on them.
    An unknown description is returned as it is. *)
Definition CommonIDs : list (string * string) :=
  [ ("Attached picture", "APIC");
    ("Comments", "COMM");
    ("Album/Movie/Show title", "TALB");
    ("Lead artist/Lead performer/Soloist/Performing group", "TPE1");
    ("Title/Songname/Content description", "TIT2");
    ("Artist", "TPE1");
    ("Title", "TIT2") ].

Fixpoint assoc (k : string) (l : list (string * string)) : option string :=
  match l with
  | [] => None
  | (k', v) :: rest => if String.eqb k k' then Some v else assoc k rest
  end.

Definition CommonID (description : string) : string :=
  match assoc description CommonIDs with
  | Some id => id
  | None => description
  end.

(** [Tag.AddFrame] (a [Framer] built by the tagger is never nil). *)
Definition AddFrame (id : string) (f : Framer) (tag : Tag) : Tag :=
  if String.eqb id "" then tag
  else if mustFrameBeInSequence id then
    let s := default [] (sequences tag !! id) in
    set_sequences (<[id := sequence_AddFrame f s]> (sequences tag)) tag
  else set_frames (<[id := f]> (frames tag)) tag.

Definition AddAttachedPicture (pf : PictureFrame) (tag : Tag) : Tag :=
  AddFrame (CommonID "Attached picture") (FPicture pf) tag.

Definition AddCommentFrame (cf : CommentFrame) (tag : Tag) : Tag :=
  AddFrame (CommonID "Comments") (FComment cf) tag.

Definition AddTextFrame (id : string) (enc : Encoding) (text : string)
    (tag : Tag) : Tag :=
  AddFrame id (FText (mkTextFrame enc text)) tag.

(** [Tag.GetFrames]: [nil] and the empty slice are both []. *)
Definition GetFrames (id : string) (tag : Tag) : list Framer :=
  match frames tag !! id with
  | Some f => [f]
  | None => default [] (sequences tag !! id)
  end.

Definition GetLastFrame (id : string) (tag : Tag) : option Framer :=
  match frames tag !! id with
  | Some f => Some f
  | None => last (GetFrames id tag)
  end.

(** [Tag.GetTextFrame]: the type assertion [f.(TextFrame)] panics on a
    frame of another kind. *)
Definition GetTextFrame (id : string) (tag : Tag) : outcome TextFrame :=
  match GetLastFrame id tag with
  | None => Ret (mkTextFrame EncodingUnset "")
  | Some (FText tf) => Ret tf
  | Some _ => Panic "interface conversion: id3v2.Framer is not id3v2.TextFrame"
  end.

Definition Title (tag : Tag) : outcome string :=
  tf <- GetTextFrame (CommonID "Title/Songname/Content description") tag ;;;
  Ret (tf_Text tf).

Definition Album (tag : Tag) : outcome string :=
  tf <- GetTextFrame (CommonID "Album/Movie/Show title") tag ;;;
  Ret (tf_Text tf).

Definition SetTitle (title : string) (tag : Tag) : Tag :=
  AddTextFrame (CommonID "Title/Songname/Content description")
    (defaultEncoding tag) title tag.

Definition SetAlbum (album : string) (tag : Tag) : Tag :=
  AddTextFrame (CommonID "Album/Movie/Show title") (defaultEncoding tag)
    album tag.

Definition SetArtist (artist : string) (tag : Tag) : Tag :=
  AddTextFrame (CommonID "Lead artist/Lead performer/Soloist/Performing group")
    (defaultEncoding tag) artist tag.

End id3v2.

(** ** [Mp3Tagger] *)

Record Mp3Tagger : Type := mkMp3Tagger { tag : id3v2.Tag }.

(** The setters of [*Mp3Tagger] (tagger.go, lines 45 to 106).  Each ends
    in [return nil]; [SetTitle] and [SetAlbum] go through
    [Tag.GetTextFrame] and so may panic before they get there. *)
Module Mp3.

Definition SetCover (buf : bytes) (mime : string) (m : Mp3Tagger)
    : outcome (Mp3Tagger * error) :=
  let m := mkMp3Tagger (id3v2.AddAttachedPicture
             (id3v2.mkPictureFrame id3v2.EncodingISO mime id3v2.PTFrontCover
                "Front cover" buf) (tag m)) in
  Ret (m, nil_error).

Definition SetCoverUrl (coverUrl : string) (m : Mp3Tagger)
    : outcome (Mp3Tagger * error) :=
  let m := mkMp3Tagger (id3v2.AddAttachedPicture
             (id3v2.mkPictureFrame id3v2.EncodingISO "-->" id3v2.PTFrontCover
                "Front cover" (bytes_of_string coverUrl)) (tag m)) in
  Ret (m, nil_error).

Definition SetTitle (title : string) (m : Mp3Tagger)
    : outcome (Mp3Tagger * error) :=
  name <- id3v2.Title (tag m) ;;;
  let m := if String.eqb name "" then mkMp3Tagger (id3v2.SetTitle title (tag m))
           else m in
  Ret (m, nil_error).

Definition SetAlbum (album : string) (m : Mp3Tagger)
    : outcome (Mp3Tagger * error) :=
  name <- id3v2.Album (tag m) ;;;
  let m := if String.eqb name "" then mkMp3Tagger (id3v2.SetAlbum album (tag m))
           else m in
  Ret (m, nil_error).

(** [for _, artist := range artists { m.tag.SetArtist(artist) }] *)
Definition SetArtist (artists : list string) (m : Mp3Tagger)
    : outcome (Mp3Tagger * error) :=
  let frames := id3v2.GetFrames (id3v2.CommonID "Artist") (tag m) in
  let m := if Nat.eqb (length frames) 0
           then mkMp3Tagger
                  (fold_left (fun t artist => id3v2.SetArtist artist t)
                     artists (tag m))
           else m in
  Ret (m, nil_error).

Definition SetComment (comment : string) (m : Mp3Tagger)
    : outcome (Mp3Tagger * error) :=
  let frames := id3v2.GetFrames (id3v2.CommonID "Comments") (tag m) in
  let m := if Nat.eqb (length frames) 0
           then mkMp3Tagger (id3v2.AddCommentFrame
                  (id3v2.mkCommentFrame id3v2.EncodingISO "XXX" "" comment)
                  (tag m))
           else m in
  Ret (m, nil_error).

End Mp3.

(** ** Fixed-width integers on the wire *)

Definition uint32 (n : N) : N := (n mod 2 ^ 32)%N.

Definition byte_of_N (n : N) : Byte.byte :=
  match Byte.of_N (n mod 256)%N with
  | Some b => b
  | None => Byte.x00
  end.

(** [binary.BigEndian.PutUint32] *)
Definition encodeUint32 (n : N) : bytes :=
  let n := uint32 n in
  [byte_of_N (n / 2 ^ 24); byte_of_N (n / 2 ^ 16); byte_of_N (n / 2 ^ 8);
   byte_of_N n].

(** [binary.LittleEndian.PutUint32] *)
Definition encodeUint32L (n : N) : bytes :=
  let n := uint32 n in
  [byte_of_N n; byte_of_N (n / 2 ^ 8); byte_of_N (n / 2 ^ 16);
   byte_of_N (n / 2 ^ 24)].

(** [len(s)] of a Go string, and of a byte slice. *)
Definition len (s : string) : N := N.of_nat (String.length s).
Definition blen (b : bytes) : N := N.of_nat (List.length b).

(** ** Package [flac] (github.com/go-flac/go-flac) *)

Module flac.

(** [BlockType] is an [int]; the named constants of the package. *)
Definition BlockType : Type := Z.
Definition StreamInfo : BlockType := 0%Z.
Definition Padding : BlockType := 1%Z.
Definition Application : BlockType := 2%Z.
Definition SeekTable : BlockType := 3%Z.
Definition VorbisComment : BlockType := 4%Z.
Definition CueSheet : BlockType := 5%Z.
Definition Picture : BlockType := 6%Z.

Record MetaDataBlock : Type := mkMetaDataBlock {
  Type_ : BlockType;
  Data : bytes
}.

(** [File]: the metadata block chain and the audio frames. *)
Record File : Type := mkFile {
  Meta : list MetaDataBlock;
  Frames : bytes
}.

(** [byte(n)] for an [int] [n]. *)
Definition byte_of_Z (n : Z) : Byte.byte := byte_of_N (Z.to_N (n mod 256)).

(** [MetaDataBlock.Marshal(isfinal)]: one byte for the type, with its high
    bit set on the last block of the chain; the length of the data in
    three bytes, the low three of its 32-bit big-endian form; the data. *)
Definition MetaDataBlock_Marshal (isfinal : bool) (c : MetaDataBlock) : bytes :=
  byte_of_Z (if isfinal then Type_ c + 128 else Type_ c)
  :: skipn 1 (encodeUint32 (blen (Data c))) ++ Data c.

Fixpoint marshal_chain (meta : list MetaDataBlock) : bytes :=
  match meta with
  | [] => []
  | [c] => MetaDataBlock_Marshal true c
  | c :: rest => MetaDataBlock_Marshal false c ++ marshal_chain rest
  end.

(** [File.Marshal]: the marker "fLaC", the blocks, the audio frames. *)
Definition File_Marshal (c : File) : bytes :=
  bytes_of_string "fLaC" ++ marshal_chain (Meta c) ++ Frames c.

(** [parseMetadataBlock]: the four bytes of a block header (the
    last-block flag and the type in the first, the length of the data in
    the other three), then the data.  [None] is the error of a reader
    that runs dry. *)
Definition parseMetadataBlock (r : bytes)
    : option (MetaDataBlock * bool * bytes) :=
  match r with
  | h0 :: h1 :: h2 :: h3 :: r =>
      let length :=
        (2 ^ 16 * Byte.to_N h1 + 2 ^ 8 * Byte.to_N h2 + Byte.to_N h3)%N in
      if (blen r <? length)%N then None
      else Some (mkMetaDataBlock (Z.of_N (Byte.to_N h0 mod 128))
                   (firstn (N.to_nat length) r),
                 (128 <=? Byte.to_N h0)%N,
                 skipn (N.to_nat length) r)
  | _ => None
  end.

(** [readMetadataBlocks]: blocks are read until one carries the last-block
    flag.  A block takes four bytes at least, so the loop is bounded by
    the number of bytes there are to read. *)
Fixpoint readMetadataBlocks (fuel : nat) (r : bytes)
    : option (list MetaDataBlock * bytes) :=
  match fuel with
  | O => None
  | S fuel =>
      match parseMetadataBlock r with
      | None => None
      | Some (block, isfinal, r) =>
          if isfinal : bool then Some ([block], r)
          else match readMetadataBlocks fuel r with
               | None => None
               | Some (blocks, r) => Some (block :: blocks, r)
               end
      end
  end.

(** [ParseMetadata], with what is left of the file after the chain: the
    marker "fLaC" and the blocks that follow it. *)
Definition ParseMetadata (r : bytes) : option (list MetaDataBlock * bytes) :=
  match r with
  | b0 :: b1 :: b2 :: b3 :: r =>
      if String.eqb (string_of_bytes [b0; b1; b2; b3]) "fLaC"
      then readMetadataBlocks (S (List.length r)) r
      else None
  | _ => None
  end.

(** What the layout can hold: a block type in seven bits, a length in
    twenty-four, and at least one block to carry the last-block flag.  A
    chain within these bounds is the one [ParseMetadata] reads back from
    its [Marshal] (lemma [ParseMetadata_Marshal]); of any other chain
    [Marshal] writes bytes that say something else. *)
Definition block_fits (c : MetaDataBlock) : bool :=
  (0 <=? Type_ c)%Z && (Type_ c <? 128)%Z && (blen (Data c) <? 2 ^ 24)%N.

Definition chain_fits (meta : list MetaDataBlock) : bool :=
  match meta with
  | [] => false
  | _ => forallb block_fits meta
  end.

(** [readFLACStream] looks at the first two bytes of the audio:
    [result[0] != 0xFF || result[1]>>2 != 0x3E] is "no sync code".  With
    no byte at all, or with the single byte 0xFF, the index is out of
    range and the program panics. *)
Inductive stream_head : Type := SyncCode | NoSyncCode | OutOfRange.

Definition readFLACStream (frames : bytes) : stream_head :=
  match frames with
  | [] => OutOfRange
  | b0 :: rest =>
      if negb (Byte.to_N b0 =? 255)%N then NoSyncCode
      else match rest with
           | [] => OutOfRange
           | b1 :: _ =>
               if negb (Byte.to_N b1 / 4 =? 62)%N then NoSyncCode
               else SyncCode
           end
  end.

End flac.

(** ** Package [flacvorbis] (github.com/go-flac/flacvorbis) *)

Module flacvorbis.

Definition FIELD_TITLE : string := "TITLE".
Definition FIELD_ALBUM : string := "ALBUM".
Definition FIELD_ARTIST : string := "ARTIST".
Definition APP_VERSION : string := "0.1.0".

Record MetaDataBlockVorbisComment : Type := mkVorbisComment {
  Vendor : string;
  Comments : list string
}.

Definition New : MetaDataBlockVorbisComment :=
  mkVorbisComment ("flacvorbis " ++ APP_VERSION) [].

(** [strings.SplitN(cmt, "=", 2)]: [None] when the result has one
    element (no "=" in [cmt]), the two parts otherwise. *)
Fixpoint SplitN_eq_2 (cmt : string) : option (string * string) :=
  match cmt with
  | EmptyString => None
  | String c rest =>
      if Ascii.eqb c "="%char then Some ("", rest)
      else match SplitN_eq_2 rest with
           | Some (k, v) => Some (String c k, v)
           | None => None
           end
  end.

(** [Get], over the comparison [fieldEq] it applies to field names. *)
Fixpoint Get_loop (fieldEq : string -> string -> bool) (key : string)
    (cmts : list string) (res : list string) : list string + error_value :=
  match cmts with
  | [] => inl res
  | cmt :: rest =>
      match SplitN_eq_2 cmt with
      | None => inr ErrorMalformedComment
      | Some (k, v) =>
          Get_loop fieldEq key rest (if fieldEq k key then res ++ [v] else res)
      end
  end.

Definition Get (fieldEq : string -> string -> bool) (key : string)
    (c : MetaDataBlockVorbisComment) : list string + error_value :=
  Get_loop fieldEq key (Comments c) [].

(** [Add]: the field name is checked character by character. *)
Definition valid_key_char (ch : ascii) : bool :=
  let n := N_of_ascii ch in
  negb ((n <? 32)%N || (125 <? n)%N || Ascii.eqb ch "="%char).

Definition Add (key val : string) (c : MetaDataBlockVorbisComment)
    : MetaDataBlockVorbisComment * error :=
  if forallb valid_key_char (list_ascii_of_string key)
  then (mkVorbisComment (Vendor c) (Comments c ++ [(key ++ "=" ++ val)%string]),
        nil_error)
  else (c, Some ErrorInvalidFieldName).

Definition packStr (s : string) : bytes :=
  encodeUint32L (len s) ++ bytes_of_string s.

Definition Marshal (c : MetaDataBlockVorbisComment) : flac.MetaDataBlock :=
  flac.mkMetaDataBlock flac.VorbisComment
    (packStr (Vendor c)
     ++ encodeUint32L (N.of_nat (List.length (Comments c)))
     ++ concat (map packStr (Comments c))).

(** [readUint32L]: [binary.Read] of four little-endian bytes. *)
Definition readUint32L (r : bytes) : (N * bytes) + error_value :=
  match r with
  | b0 :: b1 :: b2 :: b3 :: rest =>
      inl ((Byte.to_N b0 + 2 ^ 8 * Byte.to_N b1 + 2 ^ 16 * Byte.to_N b2
            + 2 ^ 24 * Byte.to_N b3)%N, rest)
  | [] => inr io_EOF
  | _ => inr io_ErrUnexpectedEOF
  end.

(** [reader.Read(buf)] with [len(buf) = n], then the length check: an
    exhausted [bytes.Reader] reports [io.EOF], a short read
    [ErrorUnexpEof]. *)
Definition readString (n : N) (r : bytes) : (string * bytes) + error_value :=
  match r with
  | [] => inr io_EOF
  | _ =>
      if (blen r <? n)%N then inr ErrorUnexpEof
      else inl (string_of_bytes (firstn (N.to_nat n) r),
                skipn (N.to_nat n) r)
  end.

Fixpoint readComments (count : nat) (r : bytes) : list string + error_value :=
  match count with
  | O => inl []
  | S count =>
      match readUint32L r with
      | inr e => inr e
      | inl (cmtlen, r) =>
          match readString cmtlen r with
          | inr e => inr e
          | inl (cmt, r) =>
              match readComments count r with
              | inr e => inr e
              | inl cmts => inl (cmt :: cmts)
              end
          end
      end
  end.

Definition ParseFromMetaDataBlock (meta : flac.MetaDataBlock)
    : MetaDataBlockVorbisComment + error_value :=
  if negb (flac.Type_ meta =? flac.VorbisComment)%Z
  then inr ErrorNotVorbisComment
  else
    match readUint32L (flac.Data meta) with
    | inr e => inr e
    | inl (vendorlen, r) =>
        match readString vendorlen r with
        | inr e => inr e
        | inl (vendor, r) =>
            match readUint32L r with
            | inr e => inr e
            | inl (cmtcount, r) =>
                match readComments (N.to_nat cmtcount) r with
                | inr e => inr e
                | inl cmts => inl (mkVorbisComment vendor cmts)
                end
            end
        end
    end.

End flacvorbis.

(** ** Package [flacpicture] (github.com/go-flac/flacpicture) *)

Module flacpicture.

Definition PictureTypeFrontCover : N := 3.

Record MetadataBlockPicture : Type := mkPicture {
  PictureType : N;
  MIME : string;
  Description : string;
  Width : N;
  Height : N;
  ColorDepth : N;
  IndexedColorCount : N;
  ImageData : bytes
}.

(** What [NewFromImageData] learns from the image it is given: width,
    height, colour depth and indexed colour count, or the error it
    returns.  The inspection itself ([image.Decode] and the checks around
    it) is the argument [image_Decode]. *)
Definition image_info : Type := (N * N * N * N) + error_value.

Definition NewFromImageData (image_Decode : bytes -> string -> image_info)
    (pictype : N) (description : string) (imgdata : bytes) (mime : string)
    : MetadataBlockPicture + error_value :=
  match image_Decode imgdata mime with
  | inr e => inr e
  | inl (w, h, depth, colors) =>
      inl (mkPicture pictype mime description w h depth colors imgdata)
  end.

Definition Marshal (c : MetadataBlockPicture) : flac.MetaDataBlock :=
  flac.mkMetaDataBlock flac.Picture
    (encodeUint32 (PictureType c)
     ++ encodeUint32 (len (MIME c)) ++ bytes_of_string (MIME c)
     ++ encodeUint32 (len (Description c)) ++ bytes_of_string (Description c)
     ++ encodeUint32 (Width c) ++ encodeUint32 (Height c)
     ++ encodeUint32 (ColorDepth c) ++ encodeUint32 (IndexedColorCount c)
     ++ encodeUint32 (blen (ImageData c)) ++ ImageData c).

(** The reader of the same layout, field by field; [None] stands for any
    of its errors (a block of another type, or data that end early). *)
Definition readUint32 (r : bytes) : option (N * bytes) :=
  match r with
  | b0 :: b1 :: b2 :: b3 :: rest =>
      Some ((2 ^ 24 * Byte.to_N b0 + 2 ^ 16 * Byte.to_N b1
             + 2 ^ 8 * Byte.to_N b2 + Byte.to_N b3)%N, rest)
  | _ => None
  end.

Definition readBytes (n : N) (r : bytes) : option (bytes * bytes) :=
  if (blen r <? n)%N then None
  else Some (firstn (N.to_nat n) r, skipn (N.to_nat n) r).

Definition ParseFromMetaDataBlock (meta : flac.MetaDataBlock)
    : option MetadataBlockPicture :=
  if negb (flac.Type_ meta =? flac.Picture)%Z then None
  else
    '(pictype, r) ← readUint32 (flac.Data meta);
    '(mimelen, r) ← readUint32 r;
    '(mime, r) ← readBytes mimelen r;
    '(desclen, r) ← readUint32 r;
    '(desc, r) ← readBytes desclen r;
    '(w, r) ← readUint32 r;
    '(h, r) ← readUint32 r;
    '(depth, r) ← readUint32 r;
    '(colors, r) ← readUint32 r;
    '(datalen, r) ← readUint32 r;
    '(data, r) ← readBytes datalen r;
    Some (mkPicture pictype (string_of_bytes mime) (string_of_bytes desc)
            w h depth colors data).

End flacpicture.

(** ** The file system

    A file is kept as what its codec makes of it.  [Id3File v fr music] is
    a file that begins with an ID3v2 header of version [v], followed by
    the frames [fr] in file order and then by the audio; a tag has at
    least one frame, and [Id3File v [] music] is the file that has no
    header and holds [music] alone ([v] then says nothing).
    [FlacFile meta frames] is the file [flac.File.Marshal] writes for this
    block chain and these audio frames.  [OtherFile raw] is any other
    content. *)

Inductive FileData : Type :=
| Id3File (version : N) (frames : list (string * id3v2.Framer)) (music : bytes)
| FlacFile (meta : list flac.MetaDataBlock) (frames : bytes)
| OtherFile (raw : bytes).

(** The library calls that touch the file system. *)
Inductive IOEvent : Type :=
| ev_id3v2_Open (path : string)
| ev_Tag_Save (path : string)
| ev_Tag_Close (path : string)
| ev_flac_ParseFile (path : string)
| ev_File_Save (path : string).

(** The world a call runs in: the files; for each of the coming library
    calls on files whether it fails before it has read or written
    anything, and with which error ([None] for a call that is let
    through); and the log of the calls made so far.  The schedule stands
    for every cause of failure the embedding does not decide itself: the
    system refusing an operation, and also [Tag.Save] giving up on a text
    that the encoding of its frame cannot hold. *)
Record World : Type := mkWorld {
  files : gmap string FileData;
  faults : list error;
  events : list IOEvent
}.

(** One library call: it is logged and takes the next entry of the
    schedule. *)
Definition sys (ev : IOEvent) (w : World) : error * World :=
  (default nil_error (head (faults w)),
   mkWorld (files w) (tail (faults w)) (events w ++ [ev])).

Definition write_file (path : string) (d : FileData) (w : World) : World :=
  mkWorld (<[path := d]> (files w)) (faults w) (events w).

(** *** [id3v2.Open], [Tag.Save], [Tag.Close] *)

(** parse.go: every frame read from the file goes through [AddFrame]. *)
Definition parseFrames (fr : list (string * id3v2.Framer)) (t : id3v2.Tag)
    : id3v2.Tag :=
  fold_left (fun t idf => id3v2.AddFrame (fst idf) (snd idf) t) fr t.

(** What follows the tag in a file: [Tag.Save] copies it behind the tag it
    writes.  In a file without ID3v2 header that is the whole file. *)
Definition audio_of (d : FileData) : bytes :=
  match d with
  | Id3File _ _ music => music
  | FlacFile meta frames => flac.File_Marshal (flac.mkFile meta frames)
  | OtherFile raw => raw
  end.

Definition isID3Tag (raw : bytes) : bool :=
  match raw with
  | b0 :: b1 :: b2 :: _ =>
      (Byte.to_N b0 =? 73)%N && (Byte.to_N b1 =? 68)%N && (Byte.to_N b2 =? 51)%N
  | _ => false
  end.

(** [Tag.parse] on the content of a file.  The ten bytes of the header are
    read first: an empty file, and a file that does not begin with "ID3",
    are read as untagged, with version 4; a file of one to nine bytes is
    an error.  A header of a version below 3 is refused.  (Raw content
    that begins with "ID3" would be a tag the world does not hold as
    frames; it is not read.) *)
Definition Tag_parse (path : string) (d : FileData)
    : id3v2.Tag + error_value :=
  match d with
  | Id3File v (f :: fr) music =>
      if (v <? 3)%N then inr ErrUnsupportedVersion
      else inl (parseFrames (f :: fr) (id3v2.init path v))
  | _ =>
      let raw := audio_of d in
      if (blen raw =? 0)%N then inl (id3v2.init path 4)
      else if (blen raw <? 10)%N || isID3Tag raw then inr (codec_error path)
      else inl (id3v2.init path 4)
  end.

Definition id3v2_Open (path : string) (w : World)
    : (id3v2.Tag + error_value) * World :=
  let '(fault, w) := sys (ev_id3v2_Open path) w in
  match fault with
  | Some e => (inr e, w)
  | None =>
      match files w !! path with
      | None => (inr (os_ErrNotExist path), w)
      | Some d => (Tag_parse path d, w)
      end
  end.

(** The frames [Tag.WriteTo] writes: the single frames, then every
    sequence in its own order.  A tag without frames writes no header at
    all, and the file is read back as an untagged one. *)
Definition allFrames (t : id3v2.Tag) : list (string * id3v2.Framer) :=
  map_to_list (id3v2.frames t)
  ++ flat_map (fun ids => map (pair (fst ids)) (snd ids))
       (map_to_list (id3v2.sequences t)).

(** The file [Tag.Save] leaves for a tag opened on [d]: the tag, then what
    followed the tag in [d]. *)
Definition tagged (t : id3v2.Tag) (d : FileData) : FileData :=
  match allFrames t with
  | [] => match d with
          | Id3File _ _ music => Id3File 4 [] music
          | _ => d
          end
  | fr => Id3File (id3v2.version t) fr (audio_of d)
  end.

(** [Tag.Save] writes into a new file next to the original, named after
    it with "-id3v2" at the end, and renames that file to the original's
    name: when the call has gone through no file of the temporary name is
    left.  A call that fails is taken to fail before it has written. *)
Definition temp_name (name : string) : string := name ++ "-id3v2".

Definition Tag_Save (t : id3v2.Tag) (w : World) : error * World :=
  let '(fault, w) := sys (ev_Tag_Save (id3v2.reader t)) w in
  match fault with
  | Some e => (Some e, w)
  | None =>
      match files w !! id3v2.reader t with
      | Some d =>
          (nil_error,
           mkWorld
             (<[id3v2.reader t := tagged t d]>
                (delete (temp_name (id3v2.reader t)) (files w)))
             (faults w) (events w))
      | None => (Some (os_ErrNotExist (id3v2.reader t)), w)
      end
  end.

Definition Tag_Close (t : id3v2.Tag) (w : World) : error * World :=
  sys (ev_Tag_Close (id3v2.reader t)) w.

(** *** [flac.ParseFile], [File.Save] *)

(** [ParseBytes] on the content of a file.  A FLAC file whose chain is
    within the bounds of the layout is read back as it was written (lemma
    [ParseMetadata_Marshal]), and [readFLACStream] then looks at the
    audio.  A chain outside the bounds was written with a length, a type
    or a flag that is not its own (lemma [Marshal_length_wraps]), and what
    the reader makes of those bytes is not followed: such a file is an
    error here, as is a file of another kind. *)
Definition ParseBytes (path : string) (d : FileData)
    : flac.File + error_value :=
  match d with
  | FlacFile meta frames =>
      if flac.chain_fits meta then
        match flac.readFLACStream frames with
        | flac.SyncCode => inl (flac.mkFile meta frames)
        | flac.NoSyncCode => inr ErrorNoSyncCode
        | flac.OutOfRange => inr (runtime_panic "index out of range")
        end
      else inr (codec_error path)
  | _ => inr (codec_error path)
  end.

Definition flac_ParseFile (path : string) (w : World)
    : (flac.File + error_value) * World :=
  let '(fault, w) := sys (ev_flac_ParseFile path) w in
  match fault with
  | Some e => (inr e, w)
  | None =>
      match files w !! path with
      | None => (inr (os_ErrNotExist path), w)
      | Some d => (ParseBytes path d, w)
      end
  end.

(** [File.Save]: [ioutil.WriteFile(fn, c.Marshal(), 0644)].  The file then
    holds the marshalled chain, whatever the chain. *)
Definition File_Save (fn : string) (c : flac.File) (w : World) : error * World :=
  let '(fault, w) := sys (ev_File_Save fn) w in
  match fault with
  | Some e => (Some e, w)
  | None => (nil_error, write_file fn (FlacFile (flac.Meta c) (flac.Frames c)) w)
  end.

(** ** [Mp3Tagger]: construction and [Save] *)

(** tagger.go, lines 33 to 43. *)
Definition NewMp3Tagger (path : string) (w : World)
    : (Mp3Tagger + error_value) * World :=
  match id3v2_Open path w with
  | (inr err, w) => (inr err, w)
  | (inl tag, w) => (inl (mkMp3Tagger tag), w)
  end.

(** tagger.go, lines 108 to 112: [err := m.tag.Save()], then
    [err = m.tag.Close()], then [return err]. *)
Definition Mp3Tagger_Save (m : Mp3Tagger) (w : World) : error * World :=
  let '(err, w) := Tag_Save (tag m) w in
  let '(err, w) := Tag_Close (tag m) w in
  (err, w).

(** ** [FlacTagger] *)

Record FlacTagger : Type := mkFlacTagger {
  path : string;
  file : flac.File;
  cmts : flacvorbis.MetaDataBlockVorbisComment
}.

Definition append_meta (b : flac.MetaDataBlock) (f : FlacTagger) : FlacTagger :=
  mkFlacTagger (path f)
    (flac.mkFile (flac.Meta (file f) ++ [b]) (flac.Frames (file f)))
    (cmts f).

Definition set_cmts (c : flacvorbis.MetaDataBlockVorbisComment) (f : FlacTagger)
    : FlacTagger :=
  mkFlacTagger (path f) (file f) c.

Definition is_VorbisComment (m : flac.MetaDataBlock) : bool :=
  (flac.Type_ m =? flac.VorbisComment)%Z.

(** tagger.go, lines 120 to 149: the first block of type [VorbisComment]
    is parsed; without one the session starts from [flacvorbis.New()]. *)
Definition NewFlacTagger (path : string) (w : World)
    : (FlacTagger + error_value) * World :=
  match flac_ParseFile path w with
  | (inr err, w) => (inr err, w)
  | (inl f, w) =>
      let cmtmeta := List.find is_VorbisComment (flac.Meta f) in
      match cmtmeta with
      | Some m =>
          match flacvorbis.ParseFromMetaDataBlock m with
          | inr err => (inr err, w)
          | inl cmts => (inl (mkFlacTagger path f cmts), w)
          end
      | None => (inl (mkFlacTagger path f flacvorbis.New), w)
      end
  end.

(** The methods of [*FlacTagger] (tagger.go, lines 151 to 211). *)
Module Flac.

Definition SetCover (image_Decode : bytes -> string -> flacpicture.image_info)
    (buf : bytes) (mime : string) (f : FlacTagger) : FlacTagger * error :=
  match flacpicture.NewFromImageData image_Decode
          flacpicture.PictureTypeFrontCover "Front cover" buf mime with
  | inl picture => (append_meta (flacpicture.Marshal picture) f, nil_error)
  | inr err => (f, Some err)
  end.

Definition SetCoverUrl (coverUrl : string) (f : FlacTagger)
    : FlacTagger * error :=
  let picture :=
    flacpicture.mkPicture flacpicture.PictureTypeFrontCover "-->"
      "Front cover" 0 0 0 0 (bytes_of_string coverUrl) in
  (append_meta (flacpicture.Marshal picture) f, nil_error).

Definition SetTitle (fieldEq : string -> string -> bool) (title : string)
    (f : FlacTagger) : FlacTagger * error :=
  match flacvorbis.Get fieldEq flacvorbis.FIELD_TITLE (cmts f) with
  | inr err => (f, Some err)
  | inl titles =>
      if Nat.eqb (List.length titles) 0
      then let '(c, err) := flacvorbis.Add flacvorbis.FIELD_TITLE title (cmts f) in
           (set_cmts c f, err)
      else (f, nil_error)
  end.

Definition SetAlbum (fieldEq : string -> string -> bool) (album : string)
    (f : FlacTagger) : FlacTagger * error :=
  match flacvorbis.Get fieldEq flacvorbis.FIELD_ALBUM (cmts f) with
  | inr err => (f, Some err)
  | inl albums =>
      if Nat.eqb (List.length albums) 0
      then let '(c, err) := flacvorbis.Add flacvorbis.FIELD_ALBUM album (cmts f) in
           (set_cmts c f, err)
      else (f, nil_error)
  end.

Definition SetArtist (fieldEq : string -> string -> bool)
    (artists : list string) (f : FlacTagger) : FlacTagger * error :=
  match flacvorbis.Get fieldEq flacvorbis.FIELD_ARTIST (cmts f) with
  | inr err => (f, Some err)
  | inl theArtists =>
      if Nat.eqb (List.length theArtists) 0
      then (set_cmts
              (fold_left
                 (fun c artist =>
                    fst (flacvorbis.Add flacvorbis.FIELD_ARTIST artist c))
                 artists (cmts f)) f,
            nil_error)
      else (f, nil_error)
  end.

Definition SetComment (comment : string) (f : FlacTagger)
    : FlacTagger * error :=
  (f, nil_error).

Definition Save (f : FlacTagger) (w : World) : FlacTagger * error * World :=
  let res := flacvorbis.Marshal (cmts f) in
  let f := append_meta res f in
  let '(err, w) := File_Save (path f) (file f) w in
  (f, err, w).

End Flac.

(** ** [NewTagger] *)

Definition audioFormatMp3 : string := "mp3".
Definition audioFormatFlac : string := "flac".

(** [strings.ToLower].  A string of ASCII bytes is lowered byte by byte; any
    other string goes through [strings.Map(unicode.ToLower, s)], which is
    the argument [mapLower]. *)
Definition isASCII (s : string) : bool :=
  forallb (fun c => (N_of_ascii c <? 128)%N) (list_ascii_of_string s).

Definition lower_byte (c : ascii) : ascii :=
  let n := N_of_ascii c in
  if ((65 <=? n) && (n <=? 90))%N then ascii_of_N (n + 32) else c.

Fixpoint lower_ascii (s : string) : string :=
  match s with
  | EmptyString => EmptyString
  | String c rest => String (lower_byte c) (lower_ascii rest)
  end.

Definition ToLower (mapLower : string -> string) (s : string) : string :=
  if isASCII s then lower_ascii s else mapLower s.

(** A value of the [Tagger] interface: the nil interface, or a pointer
    (possibly nil) to one of the two implementations. *)
Inductive Tagger : Type :=
| Tagger_nil
| Tagger_Mp3 (p : option Mp3Tagger)
| Tagger_Flac (p : option FlacTagger).

(** tagger.go, lines 213 to 226. *)
Definition NewTagger (mapLower : string -> string) (input format : string)
    (w : World) : (Tagger * error) * World :=
  let lowered := ToLower mapLower format in
  if String.eqb lowered audioFormatMp3 then
    match NewMp3Tagger input w with
    | (inl m, w) => ((Tagger_Mp3 (Some m), nil_error), w)
    | (inr err, w) => ((Tagger_Mp3 None, Some err), w)
    end
  else if String.eqb lowered audioFormatFlac then
    match NewFlacTagger input w with
    | (inl f, w) => ((Tagger_Flac (Some f), nil_error), w)
    | (inr err, w) => ((Tagger_Flac None, Some err), w)
    end
  else
    ((Tagger_nil,
      Some (errors_New ("format: " ++ format ++ " is not supportted"))), w).

(** ** The method set of the [Tagger] interface, as data

    A setter call is a value, so that a session can be driven through an
    arbitrary sequence of calls. *)

Inductive call : Type :=
| CSetCover (buf : bytes) (mime : string)
| CSetCoverUrl (coverUrl : string)
| CSetTitle (title : string)
| CSetAlbum (album : string)
| CSetArtist (artists : list string)
| CSetComment (comment : string).

Definition Mp3_call (c : call) (m : Mp3Tagger) : outcome (Mp3Tagger * error) :=
  match c with
  | CSetCover buf mime => Mp3.SetCover buf mime m
  | CSetCoverUrl u => Mp3.SetCoverUrl u m
  | CSetTitle s => Mp3.SetTitle s m
  | CSetAlbum s => Mp3.SetAlbum s m
  | CSetArtist l => Mp3.SetArtist l m
  | CSetComment s => Mp3.SetComment s m
  end.

Definition Flac_call (image_Decode : bytes -> string -> flacpicture.image_info)
    (fieldEq : string -> string -> bool) (c : call) (f : FlacTagger)
    : FlacTagger * error :=
  match c with
  | CSetCover buf mime => Flac.SetCover image_Decode buf mime f
  | CSetCoverUrl u => Flac.SetCoverUrl u f
  | CSetTitle s => Flac.SetTitle fieldEq s f
  | CSetAlbum s => Flac.SetAlbum fieldEq s f
  | CSetArtist l => Flac.SetArtist fieldEq l f
  | CSetComment s => Flac.SetComment s f
  end.

(** The FLAC session after a sequence of setter calls (a failed call
    leaves the session as it found it and the caller goes on). *)
Definition Flac_calls (image_Decode : bytes -> string -> flacpicture.image_info)
    (fieldEq : string -> string -> bool) (cs : list call) (f : FlacTagger)
    : FlacTagger :=
  fold_left (fun f c => fst (Flac_call image_Decode fieldEq c f)) cs f.

(** ** What the parser guarantees about a tag

    parse.go chooses the frame type from the frame ID: an ID that begins
    with T, other than TXXX, is read as a [TextFrame]. *)

Definition is_text_id (id : string) : bool :=
  negb (String.eqb id "TXXX") && String.prefix "T" id.

Definition frame_fits (idf : string * id3v2.Framer) : bool :=
  if is_text_id (fst idf)
  then match snd idf with id3v2.FText _ => true | _ => false end
  else true.

(** The tag invariant [AddFrame] maintains: a text ID holds a text frame,
    and every ID is kept either as a single frame or as a sequence,
    whichever [mustFrameBeInSequence] says. *)
Definition tag_ok (t : id3v2.Tag) : Prop :=
  (forall id f, id3v2.frames t !! id = Some f -> frame_fits (id, f) = true)
  /\ (forall id, id3v2.mustFrameBeInSequence id = false ->
                 id3v2.sequences t !! id = None)
  /\ (forall id, id3v2.mustFrameBeInSequence id = true ->
                 id3v2.frames t !! id = None).

(** The sessions a program can hold: opened by [NewMp3Tagger] from a file
    that is the image of a parse, then driven by setter calls. *)
Inductive Mp3Session : Mp3Tagger -> Prop :=
| session_open path w m w' :
    NewMp3Tagger path w = (inl m, w') ->
    (forall v fr music, files w !! path = Some (Id3File v fr music) ->
                        forallb frame_fits fr = true) ->
    Mp3Session m
| session_call c m m' err :
    Mp3Session m ->
    Mp3_call c m = Ret (m', err) ->
    Mp3Session m'.

(** The picture frames and the artist frames of a session. *)
Definition pictures (m : Mp3Tagger) : list id3v2.Framer :=
  id3v2.GetFrames (id3v2.CommonID "Attached picture") (tag m).

Definition artist_frames (m : Mp3Tagger) : list id3v2.Framer :=
  id3v2.GetFrames (id3v2.CommonID "Artist") (tag m).

Definition title_frames (m : Mp3Tagger) : list id3v2.Framer :=
  id3v2.GetFrames (id3v2.CommonID "Title") (tag m).

(** The front-cover frames the two cover setters build. *)
Definition cover_frame (buf : bytes) (mime : string) : id3v2.Framer :=
  id3v2.FPicture
    (id3v2.mkPictureFrame id3v2.EncodingISO mime id3v2.PTFrontCover
       "Front cover" buf).

Definition cover_block (w h depth colors : N) (buf : bytes) (mime : string)
    : flac.MetaDataBlock :=
  flacpicture.Marshal
    (flacpicture.mkPicture flacpicture.PictureTypeFrontCover mime
       "Front cover" w h depth colors buf).

Definition count_comment_blocks (meta : list flac.MetaDataBlock) : nat :=
  List.length (List.filter is_VorbisComment meta).

(** The bytes the entries of a comment list take in a comment block: four
    for the length of each, and the entry. *)
Fixpoint packed_size (cmts : list string) : N :=
  match cmts with
  | [] => 0
  | cmt :: rest => 4 + len cmt + packed_size rest
  end.

Definition picture_blocks (f : FlacTagger) : list flac.MetaDataBlock :=
  List.filter (fun b => (flac.Type_ b =? flac.Picture)%Z) (flac.Meta (file f)).

(** ** Format names

    [casing_of target s]: [s] is [target] (a lower-case ASCII name) with
    any of its letters in upper case. *)

Definition upper_byte (c : ascii) : ascii :=
  let n := N_of_ascii c in
  if ((97 <=? n) && (n <=? 122))%N then ascii_of_N (n - 32) else c.

Definition casing_char (a b : ascii) : bool :=
  Ascii.eqb b a || Ascii.eqb b (upper_byte a).

Fixpoint casing_of (target s : string) : bool :=
  match target, s with
  | EmptyString, EmptyString => true
  | String a target, String b s => casing_char a b && casing_of target s
  | _, _ => false
  end.

(** A target character [a] is matched exactly by its two casings, and
    both are ASCII. *)
Definition plain_char (a : ascii) : Prop :=
  forall b, Ascii.eqb (lower_byte b) a = casing_char a b
            /\ (casing_char a b = true -> (N_of_ascii b <? 128)%N = true).

(** How [NewTagger] hands on what a constructor returned: the pointer
    becomes the interface value, nil pointer included. *)
Definition as_Mp3 (r : (Mp3Tagger + error_value) * World)
    : (Tagger * error) * World :=
  match r with
  | (inl m, w) => ((Tagger_Mp3 (Some m), nil_error), w)
  | (inr err, w) => ((Tagger_Mp3 None, Some err), w)
  end.

Definition as_Flac (r : (FlacTagger + error_value) * World)
    : (Tagger * error) * World :=
  match r with
  | (inl f, w) => ((Tagger_Flac (Some f), nil_error), w)
  | (inr err, w) => ((Tagger_Flac None, Some err), w)
  end.

(** ** Observations

    [stored_field]: the comment list holds a value [v] for field [key]. *)
Definition stored_field (fieldEq : string -> string -> bool) (key v : string)
    (c : flacvorbis.MetaDataBlockVorbisComment) : Prop :=
  exists cmt k,
    In cmt (flacvorbis.Comments c)
    /\ flacvorbis.SplitN_eq_2 cmt = Some (k, v)
    /\ fieldEq k key = true.

(** The world with no failure pending: what a later, undisturbed run
    finds. *)
Definition quiet (w : World) : World := mkWorld (files w) [] (events w).

(** ** Concrete sessions

    An untagged MP3 file and the session [NewMp3Tagger] opens on it; the
    same session after a first [SetCover]. *)
Definition untagged_world : World :=
  mkWorld {[ "a.mp3" := Id3File 4 [] [] ]} [] [].

Definition untagged_session : Mp3Tagger :=
  mkMp3Tagger (id3v2.init "a.mp3" 4).

Definition covered_session : Mp3Tagger :=
  mkMp3Tagger
    (id3v2.AddAttachedPicture
       (id3v2.mkPictureFrame id3v2.EncodingISO "image/png" id3v2.PTFrontCover
          "Front cover" [Byte.x89; Byte.x50])
       (tag untagged_session)).

(** Audio frames, as far as [flac.ParseFile] looks into them: the two
    bytes of a frame sync code. *)
Definition sync_audio : bytes := [Byte.xff; Byte.xf8].

(** A FLAC session on a file without comment block, a decoder that accepts
    every image, and exact comparison of field names. *)
Definition plain_flac_session : FlacTagger :=
  mkFlacTagger "a.flac"
    (flac.mkFile [flac.mkMetaDataBlock flac.StreamInfo []] sync_audio)
    flacvorbis.New.

Definition any_image : bytes -> string -> flacpicture.image_info :=
  fun _ _ => inl (1, 1, 24, 0)%N.

(** An MP3 file and a FLAC file whose title is "Original". *)
Definition titled_mp3_world : World :=
  mkWorld
    {[ "a.mp3" :=
         Id3File 4
           [("TIT2",
             id3v2.FText (id3v2.mkTextFrame id3v2.EncodingUTF8 "Original"))]
           [] ]} [] [].

Definition titled_mp3_session : Mp3Tagger :=
  mkMp3Tagger
    (id3v2.SetTitle "Original" (id3v2.init "a.mp3" 4)).

Definition titled_comments : flacvorbis.MetaDataBlockVorbisComment :=
  flacvorbis.mkVorbisComment "reference libFLAC" ["TITLE=Original"].

Definition titled_flac_world : World :=
  mkWorld
    {[ "a.flac" :=
         FlacFile [flac.mkMetaDataBlock flac.StreamInfo [];
                   flacvorbis.Marshal titled_comments] sync_audio ]} [] [].

Definition titled_flac_session : FlacTagger :=
  mkFlacTagger "a.flac"
    (flac.mkFile [flac.mkMetaDataBlock flac.StreamInfo [];
                  flacvorbis.Marshal titled_comments] sync_audio)
    titled_comments.

(** ** Covers that always append

    "Every set-cover call appends one new picture entry", read on the MP3
    encoder. *)
Definition SetCover_appends_on_Mp3 : Prop :=
  forall m, Mp3Session m ->
    forall buf mime m' err,
      Mp3.SetCover buf mime m = Ret (m', err) ->
      pictures m' = pictures m ++ [cover_frame buf mime].

Definition SetCoverUrl_appends_on_Mp3 : Prop :=
  forall m, Mp3Session m ->
    forall coverUrl m' err,
      Mp3.SetCoverUrl coverUrl m = Ret (m', err) ->
      pictures m' = pictures m ++ [cover_frame (bytes_of_string coverUrl) "-->"].

(** ** Sessions under a sequence of calls *)

(** The frame ID each setter of [*Mp3Tagger] reads and writes. *)
Definition call_id (c : call) : string :=
  match c with
  | CSetCover _ _ => "APIC"
  | CSetCoverUrl _ => "APIC"
  | CSetTitle _ => "TIT2"
  | CSetAlbum _ => "TALB"
  | CSetArtist _ => "TPE1"
  | CSetComment _ => "COMM"
  end.

(** The MP3 session after a sequence of setter calls; a panic ends it. *)
Fixpoint Mp3_calls (cs : list call) (m : Mp3Tagger) : outcome Mp3Tagger :=
  match cs with
  | [] => Ret m
  | c :: cs => r <- Mp3_call c m ;;; Mp3_calls cs (fst r)
  end.

(** The field a text setter of [*FlacTagger] reads and writes. *)
Definition call_key (c : call) : option string :=
  match c with
  | CSetTitle _ => Some flacvorbis.FIELD_TITLE
  | CSetAlbum _ => Some flacvorbis.FIELD_ALBUM
  | CSetArtist _ => Some flacvorbis.FIELD_ARTIST
  | _ => None
  end.

Definition comment_frames (m : Mp3Tagger) : list id3v2.Framer :=
  id3v2.GetFrames (id3v2.CommonID "Comments") (tag m).

Definition album_frames (m : Mp3Tagger) : list id3v2.Framer :=
  id3v2.GetFrames (id3v2.CommonID "Album/Movie/Show title") (tag m).

(** What [AddFrame] keeps true of the stores besides [tag_ok]: the empty ID
    is never a key, and the frames of one sequence have identifiers that
    differ from one another. *)
Definition stores_ok (t : id3v2.Tag) : Prop :=
  id3v2.frames t !! "" = None
  /\ id3v2.sequences t !! "" = None
  /\ forall id fs, id3v2.sequences t !! id = Some fs ->
                   NoDup (map id3v2.UniqueIdentifier fs).

(** A FLAC file whose comment block holds an entry without "=". *)
Definition garbled_comments : flacvorbis.MetaDataBlockVorbisComment :=
  flacvorbis.mkVorbisComment "reference libFLAC" ["ALBUM=Blue"; "garbage"].

Definition garbled_flac_world : World :=
  mkWorld
    {[ "a.flac" :=
         FlacFile [flac.mkMetaDataBlock flac.StreamInfo [];
                   flacvorbis.Marshal garbled_comments] sync_audio ]} [] [].

Definition garbled_flac_session : FlacTagger :=
  mkFlacTagger "a.flac"
    (flac.mkFile [flac.mkMetaDataBlock flac.StreamInfo [];
                  flacvorbis.Marshal garbled_comments] sync_audio)
    garbled_comments.

(** A FLAC file without comment block, and the world after
    [NewFlacTagger] has read it. *)
Definition plain_flac_world : World :=
  mkWorld
    {[ "a.flac" :=
         FlacFile [flac.mkMetaDataBlock flac.StreamInfo []] sync_audio ]}
    [] [].

Definition plain_flac_opened : World :=
  mkWorld (files plain_flac_world) [] [ev_flac_ParseFile "a.flac"].

Definition titled_flac_opened : World :=
  mkWorld (files titled_flac_world) [] [ev_flac_ParseFile "a.flac"].

(** MP3 files with pictures: a picture of type 4 (back cover) that is
    described "Front cover" and a picture of the artist; and the same two
    followed by a picture of type 3 with that same description. *)
Definition back_cover : id3v2.Framer :=
  id3v2.FPicture
    (id3v2.mkPictureFrame id3v2.EncodingISO "image/png" 4 "Front cover"
       [Byte.x01]).

Definition artist_picture : id3v2.Framer :=
  id3v2.FPicture
    (id3v2.mkPictureFrame id3v2.EncodingISO "image/png" 8 "Artist"
       [Byte.x02]).

Definition back_cover_world : World :=
  mkWorld
    {[ "b.mp3" := Id3File 3 [("APIC", back_cover); ("APIC", artist_picture)]
                    [] ]} [] [].

Definition back_cover_session : Mp3Tagger :=
  mkMp3Tagger
    (parseFrames [("APIC", back_cover); ("APIC", artist_picture)]
       (id3v2.init "b.mp3" 3)).

Definition doubled_cover_world : World :=
  mkWorld
    {[ "c.mp3" :=
         Id3File 3 [("APIC", back_cover); ("APIC", artist_picture);
                    ("APIC", cover_frame [Byte.x03] "image/png")] [] ]} [] [].

Definition doubled_cover_session : Mp3Tagger :=
  mkMp3Tagger
    (parseFrames [("APIC", back_cover); ("APIC", artist_picture);
                  ("APIC", cover_frame [Byte.x03] "image/png")]
       (id3v2.init "c.mp3" 3)).

(** [same_but id t t']: the tags [t] and [t'] hold the same frames and
    sequences under every ID other than [id], and agree on what is not a
    frame. *)
Definition same_but (id : string) (t t' : id3v2.Tag) : Prop :=
  (forall k, k <> id ->
     id3v2.frames t' !! k = id3v2.frames t !! k
     /\ id3v2.sequences t' !! k = id3v2.sequences t !! k)
  /\ id3v2.reader t' = id3v2.reader t
  /\ id3v2.version t' = id3v2.version t
  /\ id3v2.defaultEncoding t' = id3v2.defaultEncoding t.

(** [agree_at id t t']: the two tags hold the same under [id] and write
    text in the same encoding. *)
Definition agree_at (id : string) (t t' : id3v2.Tag) : Prop :=
  id3v2.frames t !! id = id3v2.frames t' !! id
  /\ id3v2.sequences t !! id = id3v2.sequences t' !! id
  /\ id3v2.defaultEncoding t = id3v2.defaultEncoding t'.

(** * Properties *)

(** ** [id3v2]: frames and sequences *)

Section Id3v2Facts.

Import id3v2.

Lemma AddFrame_single id f t :
  id <> "" -> mustFrameBeInSequence id = false ->
  AddFrame id f t = set_frames (<[id := f]> (frames t)) t.
Proof.
  intros Hid Hseq. unfold AddFrame.
  destruct (String.eqb_spec id "") as [->|_]; [congruence|].
  now rewrite Hseq.
Qed.

Lemma AddFrame_sequence id f t :
  id <> "" -> mustFrameBeInSequence id = true ->
  AddFrame id f t =
  set_sequences
    (<[id := sequence_AddFrame f (default [] (sequences t !! id))]>
       (sequences t)) t.
Proof.
  intros Hid Hseq. unfold AddFrame.
  destruct (String.eqb_spec id "") as [->|_]; [congruence|].
  now rewrite Hseq.
Qed.

Lemma GetFrames_single id f t :
  frames t !! id = Some f -> GetFrames id t = [f].
Proof. intros H. unfold GetFrames. now rewrite H. Qed.

Lemma text_id_not_sequence id :
  is_text_id id = true -> mustFrameBeInSequence id = false.
Proof. unfold is_text_id, mustFrameBeInSequence. now intros ->. Qed.

Lemma text_id_nonempty id : is_text_id id = true -> id <> "".
Proof. intros H ->. discriminate H. Qed.

(** Writing a text frame: the frame is the only one of its ID. *)
Lemma GetFrames_AddTextFrame id enc text t :
  is_text_id id = true ->
  GetFrames id (AddTextFrame id enc text t) = [FText (mkTextFrame enc text)].
Proof.
  intros H. unfold AddTextFrame.
  rewrite AddFrame_single by auto using text_id_nonempty, text_id_not_sequence.
  apply GetFrames_single. simpl. apply lookup_insert_eq.
Qed.

Lemma GetTextFrame_AddTextFrame id enc text t :
  is_text_id id = true ->
  GetTextFrame id (AddTextFrame id enc text t) = Ret (mkTextFrame enc text).
Proof.
  intros H. unfold AddTextFrame.
  rewrite AddFrame_single by auto using text_id_nonempty, text_id_not_sequence.
  unfold GetTextFrame, GetLastFrame. simpl. now rewrite lookup_insert_eq.
Qed.

Lemma Title_SetTitle title t : Title (SetTitle title t) = Ret title.
Proof.
  unfold Title, SetTitle. now rewrite GetTextFrame_AddTextFrame.
Qed.

Lemma Album_SetAlbum album t : Album (SetAlbum album t) = Ret album.
Proof.
  unfold Album, SetAlbum. now rewrite GetTextFrame_AddTextFrame.
Qed.

Lemma defaultEncoding_AddFrame id f t :
  defaultEncoding (AddFrame id f t) = defaultEncoding t.
Proof.
  unfold AddFrame. destruct (String.eqb id ""); [reflexivity|].
  now destruct (mustFrameBeInSequence id).
Qed.

(** The loop of [Mp3Tagger.SetArtist]: every [SetArtist] writes the one
    TPE1 frame again, so the last artist is the one that stays. *)
Lemma SetArtist_loop artists a t :
  GetFrames (CommonID "Artist")
    (fold_left (fun t artist => SetArtist artist t) (artists ++ [a]) t)
  = [FText (mkTextFrame (defaultEncoding t) a)].
Proof.
  rewrite fold_left_app. simpl.
  set (t' := fold_left _ artists t).
  assert (Henc : defaultEncoding t' = defaultEncoding t).
  { subst t'. revert t. induction artists as [|b l IH]; intros t; simpl.
    - reflexivity.
    - rewrite IH. apply defaultEncoding_AddFrame. }
  unfold SetArtist. rewrite GetFrames_AddTextFrame by reflexivity.
  now rewrite Henc.
Qed.

(** *** Sequences *)

Lemma indexOfFrame_lt f fs i : indexOfFrame f fs = Some i -> (i < length fs)%nat.
Proof.
  revert i. induction fs as [|ff rest IH]; intros i; simpl; [discriminate|].
  destruct (String.eqb _ _).
  - intros [= <-]. lia.
  - destruct (indexOfFrame f rest) as [j|]; simpl; [|discriminate].
    intros [= <-]. specialize (IH j eq_refl). lia.
Qed.

Lemma indexOfFrame_Some_uid f fs i :
  indexOfFrame f fs = Some i ->
  exists ff, fs !! i = Some ff /\ UniqueIdentifier ff = UniqueIdentifier f.
Proof.
  revert i. induction fs as [|ff rest IH]; intros i; simpl; [discriminate|].
  destruct (String.eqb_spec (UniqueIdentifier f) (UniqueIdentifier ff)) as [E|_].
  - intros [= <-]. exists ff. split; [reflexivity|now symmetry].
  - destruct (indexOfFrame f rest) as [j|]; simpl; [|discriminate].
    intros [= <-]. apply (IH j eq_refl).
Qed.

Lemma length_sequence_AddFrame f fs :
  length (sequence_AddFrame f fs) =
  match indexOfFrame f fs with
  | None => S (length fs)
  | Some _ => length fs
  end.
Proof.
  unfold sequence_AddFrame. destruct (indexOfFrame f fs).
  - apply length_insert.
  - rewrite length_app. simpl. lia.
Qed.

Lemma indexOfFrame_same_uid f g fs :
  UniqueIdentifier f = UniqueIdentifier g ->
  indexOfFrame f fs = indexOfFrame g fs.
Proof.
  intros E. induction fs as [|ff rest IH]; simpl; [reflexivity|].
  now rewrite E, IH.
Qed.

Lemma indexOfFrame_app_self f fs :
  indexOfFrame f fs = None ->
  indexOfFrame f (fs ++ [f]) = Some (length fs).
Proof.
  induction fs as [|ff rest IH]; simpl.
  - now rewrite String.eqb_refl.
  - destruct (String.eqb _ _); [discriminate|].
    destruct (indexOfFrame f rest); [discriminate|].
    intros _. now rewrite IH.
Qed.

Lemma indexOfFrame_insert f g fs i :
  indexOfFrame f fs = Some i ->
  UniqueIdentifier f = UniqueIdentifier g ->
  indexOfFrame f (<[i := g]> fs) = Some i.
Proof.
  revert i. induction fs as [|ff rest IH]; intros i; simpl; [discriminate|].
  destruct (String.eqb_spec (UniqueIdentifier f) (UniqueIdentifier ff)) as [E|N].
  - intros [= <-] Hg. simpl. rewrite <- Hg. now rewrite String.eqb_refl.
  - destruct (indexOfFrame f rest) as [j|] eqn:Hj; simpl; [|discriminate].
    intros [= <-] Hg. simpl.
    destruct (String.eqb_spec (UniqueIdentifier f) (UniqueIdentifier ff));
      [contradiction|].
    now rewrite (IH j eq_refl Hg).
Qed.

(** Adding a frame whose identifier is already in the sequence, right
    after one with the same identifier, keeps the length: the second
    frame takes the place of the first. *)
Lemma sequence_AddFrame_twice f g fs :
  UniqueIdentifier f = UniqueIdentifier g ->
  length (sequence_AddFrame g (sequence_AddFrame f fs))
  = length (sequence_AddFrame f fs)
  /\ In g (sequence_AddFrame g (sequence_AddFrame f fs)).
Proof.
  intros E.
  assert (Hidx : exists i, indexOfFrame g (sequence_AddFrame f fs) = Some i).
  { rewrite <- (indexOfFrame_same_uid f g) by exact E.
    unfold sequence_AddFrame at 1.
    destruct (indexOfFrame f fs) as [i|] eqn:Hi.
    - exists i. now apply indexOfFrame_insert.
    - eexists. now apply indexOfFrame_app_self. }
  destruct Hidx as [i Hi]. split.
  - rewrite length_sequence_AddFrame. now rewrite Hi.
  - unfold sequence_AddFrame at 1. rewrite Hi.
    apply list_elem_of_In, list_elem_of_lookup. exists i.
    apply list_lookup_insert_eq. eapply indexOfFrame_lt; eauto.
Qed.

Lemma In_sequence_AddFrame f fs : In f (sequence_AddFrame f fs).
Proof.
  unfold sequence_AddFrame. destruct (indexOfFrame f fs) as [i|] eqn:Hi.
  - apply list_elem_of_In, list_elem_of_lookup. exists i.
    apply list_lookup_insert_eq. eapply indexOfFrame_lt; eauto.
  - apply in_or_app. right. now left.
Qed.

(** The picture frames after [AddAttachedPicture]. *)
Lemma GetFrames_AddAttachedPicture pf t :
  frames t !! "APIC" = None ->
  GetFrames "APIC" (AddAttachedPicture pf t)
  = sequence_AddFrame (FPicture pf) (GetFrames "APIC" t).
Proof.
  intros Hnone. unfold AddAttachedPicture.
  change (CommonID "Attached picture") with "APIC".
  rewrite AddFrame_sequence by (reflexivity || discriminate).
  unfold GetFrames. simpl. rewrite Hnone.
  now rewrite lookup_insert_eq.
Qed.

End Id3v2Facts.

(** ** [Mp3Tagger]: the session invariant *)

Section Mp3Invariant.

Import id3v2.

Lemma tag_ok_init name v : tag_ok (init name v).
Proof.
  repeat split; intros; simpl in *;
    try rewrite lookup_empty in *; congruence.
Qed.

Lemma tag_ok_AddFrame id f t :
  frame_fits (id, f) = true -> tag_ok t -> tag_ok (AddFrame id f t).
Proof.
  intros Hfit (Hty & Hseq & Hsingle). unfold AddFrame.
  destruct (String.eqb id ""); [now repeat split|].
  destruct (mustFrameBeInSequence id) eqn:Hm; repeat split; simpl.
  - exact Hty.
  - intros id' Hid'. rewrite lookup_insert_ne by congruence. auto.
  - exact Hsingle.
  - intros id' f'. rewrite lookup_insert. case_decide as E.
    + intros [= <-]. now subst id'.
    + apply Hty.
  - exact Hseq.
  - intros id' Hid'. rewrite lookup_insert_ne by congruence. auto.
Qed.

Lemma tag_ok_parseFrames fr t :
  forallb frame_fits fr = true -> tag_ok t -> tag_ok (parseFrames fr t).
Proof.
  revert t. induction fr as [|[id f] fr IH]; intros t Hfr Ht; simpl in *.
  - exact Ht.
  - apply andb_prop in Hfr as [H1 H2].
    apply IH; [exact H2|]. now apply tag_ok_AddFrame.
Qed.

Lemma tag_ok_fold_SetArtist artists t :
  tag_ok t -> tag_ok (fold_left (fun t a => SetArtist a t) artists t).
Proof.
  revert t. induction artists as [|a l IH]; intros t Ht; simpl; [exact Ht|].
  apply IH. now apply tag_ok_AddFrame.
Qed.

(** Under the invariant [GetTextFrame] returns. *)
Lemma GetTextFrame_returns id t :
  tag_ok t -> is_text_id id = true -> exists tf, GetTextFrame id t = Ret tf.
Proof.
  intros (Hty & Hseq & _) Hid. unfold GetTextFrame, GetLastFrame, GetFrames.
  destruct (frames t !! id) as [f|] eqn:Hf.
  - specialize (Hty id f Hf). unfold frame_fits in Hty. simpl in Hty.
    rewrite Hid in Hty. destruct f; try discriminate. eauto.
  - rewrite (Hseq id) by now apply text_id_not_sequence. simpl. eauto.
Qed.

Lemma Mp3_call_nil c m m' err : Mp3_call c m = Ret (m', err) -> err = nil_error.
Proof.
  destruct c; simpl;
    unfold Mp3.SetCover, Mp3.SetCoverUrl, Mp3.SetTitle, Mp3.SetAlbum,
      Mp3.SetArtist, Mp3.SetComment, obind;
    repeat match goal with |- context [match ?x with _ => _ end] =>
             destruct x end;
    congruence.
Qed.

Lemma tag_ok_Mp3_call c m m' err :
  tag_ok (tag m) -> Mp3_call c m = Ret (m', err) -> tag_ok (tag m').
Proof.
  intros Hok. destruct c; simpl;
    unfold Mp3.SetCover, Mp3.SetCoverUrl, Mp3.SetTitle, Mp3.SetAlbum,
      Mp3.SetArtist, Mp3.SetComment, obind.
  - intros [= <- _]. now apply tag_ok_AddFrame.
  - intros [= <- _]. now apply tag_ok_AddFrame.
  - destruct (Title (tag m)) as [name|]; [|discriminate].
    destruct (String.eqb name ""); intros [= <- _]; [|exact Hok].
    now apply tag_ok_AddFrame.
  - destruct (Album (tag m)) as [name|]; [|discriminate].
    destruct (String.eqb name ""); intros [= <- _]; [|exact Hok].
    now apply tag_ok_AddFrame.
  - destruct (Nat.eqb _ 0); intros [= <- _]; [|exact Hok].
    now apply tag_ok_fold_SetArtist.
  - destruct (Nat.eqb _ 0); intros [= <- _]; [|exact Hok].
    now apply tag_ok_AddFrame.
Qed.

(** What [Tag.parse] returns when it returns a tag: the frames of the file,
    read into an empty tag of a version from 3 on. *)
Lemma Tag_parse_inv path d t :
  Tag_parse path d = inl t ->
  exists v fr,
    t = parseFrames fr (init path v) /\ (v <? 3)%N = false
    /\ (fr = [] \/ exists music, d = Id3File v fr music).
Proof.
  unfold Tag_parse.
  assert (Hraw : (if (blen (audio_of d) =? 0)%N then inl (init path 4)
                  else if (blen (audio_of d) <? 10)%N || isID3Tag (audio_of d)
                       then inr (codec_error path)
                       else inl (init path 4)) = inl t ->
                 t = init path 4).
  { destruct (blen (audio_of d) =? 0)%N; [now intros [= <-]|].
    destruct (_ || _); [discriminate | now intros [= <-]]. }
  destruct d as [v [|f fr] music | meta frames | raw];
    try (intros H; apply Hraw in H; subst t; exists 4%N, [];
         repeat split; now left).
  destruct (v <? 3)%N eqn:Hv; [discriminate|].
  intros [= <-]. exists v, (f :: fr). repeat split; [exact Hv|].
  right. now exists music.
Qed.

Lemma NewMp3Tagger_inv path w m w' :
  NewMp3Tagger path w = (inl m, w') ->
  default nil_error (head (faults w)) = nil_error
  /\ w' = mkWorld (files w) (tail (faults w)) (events w ++ [ev_id3v2_Open path])
  /\ exists d, files w !! path = Some d /\ Tag_parse path d = inl (tag m).
Proof.
  unfold NewMp3Tagger, id3v2_Open, sys. simpl.
  destruct (default nil_error (head (faults w))); [discriminate|].
  destruct (files w !! path) as [d|]; [|discriminate].
  destruct (Tag_parse path d) as [t|e] eqn:Hp; [|discriminate].
  intros [= <- <-]. repeat split. now exists d.
Qed.

Lemma Mp3Session_tag_ok m : Mp3Session m -> tag_ok (tag m).
Proof.
  induction 1 as [path w m w' Hnew Hfile | c m m' err _ IH Hcall].
  - destruct (NewMp3Tagger_inv _ _ _ _ Hnew) as (_ & _ & d & Hd & Hp).
    destruct (Tag_parse_inv _ _ _ Hp) as (v & fr & -> & _ & [-> | [music ->]]).
    + apply tag_ok_init.
    + apply tag_ok_parseFrames; [eauto | apply tag_ok_init].
  - eapply tag_ok_Mp3_call; eauto.
Qed.

Lemma Mp3_call_returns c m :
  tag_ok (tag m) -> exists m', Mp3_call c m = Ret (m', nil_error).
Proof.
  intros Hok. destruct c; simpl;
    unfold Mp3.SetCover, Mp3.SetCoverUrl, Mp3.SetTitle, Mp3.SetAlbum,
      Mp3.SetArtist, Mp3.SetComment, Title, Album; eauto.
  - destruct (GetTextFrame_returns
              (CommonID "Title/Songname/Content description") _ Hok eq_refl)
    as [tf ->].
    simpl. eauto.
  - destruct (GetTextFrame_returns (CommonID "Album/Movie/Show title") _ Hok
                eq_refl) as [tf ->].
    simpl. eauto.
Qed.

Lemma pictures_cover buf mime m :
  tag_ok (tag m) ->
  GetFrames "APIC"
    (AddAttachedPicture
       (mkPictureFrame EncodingISO mime PTFrontCover "Front cover" buf) (tag m))
  = sequence_AddFrame (cover_frame buf mime) (pictures m).
Proof.
  intros (_ & _ & Hsingle). unfold pictures, cover_frame.
  apply GetFrames_AddAttachedPicture. now apply Hsingle.
Qed.

End Mp3Invariant.

(** ** Integers and strings on the wire *)

Section Wire.

Lemma to_N_byte_of_N n : Byte.to_N (byte_of_N n) = (n mod 256)%N.
Proof.
  unfold byte_of_N. destruct (Byte.of_N (n mod 256)) as [b|] eqn:E.
  - now apply Byte.to_of_N.
  - apply Byte.of_N_None_iff in E.
    pose proof (N.mod_upper_bound n 256). lia.
Qed.

Lemma uint32_digits m :
  (m < 2 ^ 32)%N ->
  (2 ^ 24 * ((m / 2 ^ 24) mod 256) + 2 ^ 16 * ((m / 2 ^ 16) mod 256)
   + 2 ^ 8 * ((m / 2 ^ 8) mod 256) + m mod 256 = m)%N.
Proof.
  intros Hm.
  change (2 ^ 24)%N with 16777216%N. change (2 ^ 16)%N with 65536%N.
  change (2 ^ 8)%N with 256%N. change (2 ^ 32)%N with 4294967296%N in Hm.
  replace (m / 65536)%N with (m / 256 / 256)%N
    by now rewrite N.Div0.div_div.
  replace (m / 16777216)%N with (m / 256 / 256 / 256)%N
    by now rewrite !N.Div0.div_div.
  pose proof (N.Div0.div_mod m 256) as H0.
  pose proof (N.Div0.div_mod (m / 256) 256) as H1.
  pose proof (N.Div0.div_mod (m / 256 / 256) 256) as H2.
  pose proof (N.Div0.div_mod (m / 256 / 256 / 256) 256) as H3.
  pose proof (N.mod_upper_bound m 256) as B0.
  pose proof (N.mod_upper_bound (m / 256) 256) as B1.
  pose proof (N.mod_upper_bound (m / 256 / 256) 256) as B2.
  pose proof (N.mod_upper_bound (m / 256 / 256 / 256) 256) as B3.
  generalize dependent (m mod 256)%N.
  generalize dependent ((m / 256) mod 256)%N.
  generalize dependent ((m / 256 / 256) mod 256)%N.
  generalize dependent ((m / 256 / 256 / 256) mod 256)%N.
  generalize dependent (m / 256 / 256 / 256 / 256)%N.
  generalize dependent (m / 256 / 256 / 256)%N.
  generalize dependent (m / 256 / 256)%N.
  generalize dependent (m / 256)%N.
  intros. lia.
Qed.

Lemma uint32_lt n : (uint32 n < 2 ^ 32)%N.
Proof. unfold uint32. now apply N.mod_upper_bound. Qed.

Lemma uint32_small n : (n < 2 ^ 32)%N -> uint32 n = n.
Proof. unfold uint32. now apply N.mod_small. Qed.

Lemma readUint32_encode n r :
  flacpicture.readUint32 (encodeUint32 n ++ r) = Some (uint32 n, r).
Proof.
  unfold encodeUint32. simpl. rewrite !to_N_byte_of_N.
  now rewrite (uint32_digits (uint32 n) (uint32_lt n)).
Qed.

Lemma readUint32L_encode n r :
  flacvorbis.readUint32L (encodeUint32L n ++ r) = inl (uint32 n, r).
Proof.
  unfold encodeUint32L. simpl. rewrite !to_N_byte_of_N.
  pose proof (uint32_digits (uint32 n) (uint32_lt n)) as H.
  do 2 f_equal. lia.
Qed.

Lemma blen_bytes_of_string s : blen (bytes_of_string s) = len s.
Proof.
  unfold blen, len, bytes_of_string, list_byte_of_string.
  rewrite length_map. f_equal.
  induction s as [|c s IH]; simpl; [reflexivity | now rewrite IH].
Qed.

Lemma blen_app_ge (a r : bytes) : (blen (a ++ r) <? blen a)%N = false.
Proof. unfold blen. rewrite length_app. apply N.ltb_ge. lia. Qed.

Lemma readBytes_app (a r : bytes) :
  flacpicture.readBytes (blen a) (a ++ r) = Some (a, r).
Proof.
  unfold flacpicture.readBytes. rewrite blen_app_ge.
  unfold blen. rewrite Nat2N.id.
  now rewrite take_app_length, drop_app_length.
Qed.

Lemma readBytes_all (a : bytes) :
  flacpicture.readBytes (blen a) a = Some (a, []).
Proof.
  pose proof (readBytes_app a []) as H. now rewrite app_nil_r in H.
Qed.

#[local] Arguments encodeUint32 : simpl never.
#[local] Arguments encodeUint32L : simpl never.
#[local] Arguments bytes_of_string : simpl never.
#[local] Arguments uint32 : simpl never.
#[local] Arguments len : simpl never.
#[local] Arguments blen : simpl never.

(** A picture whose numbers and lengths fit 32 bits is read back from the
    block [Marshal] makes of it. *)
Lemma picture_roundtrip (c : flacpicture.MetadataBlockPicture) :
  (flacpicture.PictureType c < 2 ^ 32)%N ->
  (len (flacpicture.MIME c) < 2 ^ 32)%N ->
  (len (flacpicture.Description c) < 2 ^ 32)%N ->
  (flacpicture.Width c < 2 ^ 32)%N -> (flacpicture.Height c < 2 ^ 32)%N ->
  (flacpicture.ColorDepth c < 2 ^ 32)%N ->
  (flacpicture.IndexedColorCount c < 2 ^ 32)%N ->
  (blen (flacpicture.ImageData c) < 2 ^ 32)%N ->
  flacpicture.ParseFromMetaDataBlock (flacpicture.Marshal c) = Some c.
Proof.
  intros Ht Hm Hd Hw Hh Hdepth Hcol Hdata.
  destruct c as [t mime desc w h depth colors data]. simpl in *.
  unfold flacpicture.ParseFromMetaDataBlock, flacpicture.Marshal. cbn.
  rewrite readUint32_encode. cbn.
  rewrite readUint32_encode. cbn.
  rewrite (uint32_small _ Hm), <- blen_bytes_of_string, readBytes_app. cbn.
  rewrite readUint32_encode. cbn.
  rewrite (uint32_small _ Hd), <- blen_bytes_of_string, readBytes_app. cbn.
  rewrite readUint32_encode. cbn.
  rewrite readUint32_encode. cbn.
  rewrite readUint32_encode. cbn.
  rewrite readUint32_encode. cbn.
  rewrite readUint32_encode. cbn.
  rewrite (uint32_small _ Hdata), readBytes_all. cbn.
  unfold string_of_bytes, bytes_of_string.
  rewrite !string_of_list_byte_of_string.
  now rewrite !uint32_small by assumption.
Qed.

(** *** The comment block *)

Lemma readString_packed s r :
  (len s < 2 ^ 32)%N -> (s <> "" \/ r <> []) ->
  flacvorbis.readString (len s) (bytes_of_string s ++ r) = inl (s, r).
Proof.
  intros Hlen Hne. unfold flacvorbis.readString.
  destruct (bytes_of_string s ++ r) as [|b rest] eqn:E.
  - apply app_eq_nil in E as [Es Er]. destruct Hne as [Hs | Hr]; [|congruence].
    destruct s; [congruence | discriminate Es].
  - rewrite <- E, <- blen_bytes_of_string, blen_app_ge.
    unfold blen. rewrite Nat2N.id, take_app_length, drop_app_length.
    unfold string_of_bytes, bytes_of_string.
    now rewrite string_of_list_byte_of_string.
Qed.

Lemma readComments_packed cmts :
  Forall (fun cmt => cmt <> "" /\ (len cmt < 2 ^ 32)%N) cmts ->
  flacvorbis.readComments (length cmts)
    (concat (map flacvorbis.packStr cmts)) = inl cmts.
Proof.
  induction 1 as [|cmt cmts [Hne Hlen] _ IH]; [reflexivity|].
  cbn [length map concat flacvorbis.readComments].
  unfold flacvorbis.packStr at 1. rewrite <- app_assoc.
  rewrite readUint32L_encode, (uint32_small _ Hlen).
  rewrite readString_packed by auto. now rewrite IH.
Qed.

(** Comments that fit 32 bits and are not empty are read back from the
    block [Marshal] makes of them. *)
Lemma comments_roundtrip (c : flacvorbis.MetaDataBlockVorbisComment) :
  (len (flacvorbis.Vendor c) < 2 ^ 32)%N ->
  (N.of_nat (length (flacvorbis.Comments c)) < 2 ^ 32)%N ->
  Forall (fun cmt => cmt <> "" /\ (len cmt < 2 ^ 32)%N) (flacvorbis.Comments c) ->
  flacvorbis.ParseFromMetaDataBlock (flacvorbis.Marshal c) = inl c.
Proof.
  intros Hv Hn Hc. destruct c as [vendor cmts]. simpl in *.
  unfold flacvorbis.ParseFromMetaDataBlock, flacvorbis.Marshal.
  cbn [flac.Type_ flac.Data flacvorbis.Vendor flacvorbis.Comments].
  change (negb _) with false. cbv iota.
  unfold flacvorbis.packStr at 1. rewrite <- app_assoc.
  rewrite readUint32L_encode, (uint32_small _ Hv).
  rewrite readString_packed; [|exact Hv | right; discriminate].
  rewrite readUint32L_encode, (uint32_small _ Hn), Nat2N.id.
  now rewrite readComments_packed.
Qed.

(** *** Sizes

    The size of a marshalled comment list, and what the reader has
    consumed when it returns one. *)

Lemma blen_app (a b : bytes) : blen (a ++ b) = (blen a + blen b)%N.
Proof. unfold blen. rewrite length_app. lia. Qed.

Lemma blen_encodeUint32L n : blen (encodeUint32L n) = 4%N.
Proof. reflexivity. Qed.

Lemma blen_packStr s : blen (flacvorbis.packStr s) = (4 + len s)%N.
Proof.
  unfold flacvorbis.packStr.
  now rewrite blen_app, blen_encodeUint32L, blen_bytes_of_string.
Qed.

Lemma blen_packed cmts :
  blen (concat (map flacvorbis.packStr cmts)) = packed_size cmts.
Proof.
  induction cmts as [|cmt cmts IH]; [reflexivity|].
  cbn [map concat packed_size]. rewrite blen_app, blen_packStr, IH. lia.
Qed.

Lemma Marshal_size (c : flacvorbis.MetaDataBlockVorbisComment) :
  blen (flac.Data (flacvorbis.Marshal c))
  = (8 + len (flacvorbis.Vendor c) + packed_size (flacvorbis.Comments c))%N.
Proof.
  unfold flacvorbis.Marshal. cbn [flac.Data].
  rewrite !blen_app, blen_packStr, blen_encodeUint32L, blen_packed. lia.
Qed.

Lemma packed_size_count cmts : (N.of_nat (length cmts) <= packed_size cmts)%N.
Proof.
  induction cmts as [|cmt cmts IH]; cbn [length packed_size]; lia.
Qed.

Lemma packed_size_each cmts :
  Forall (fun cmt => (len cmt <= packed_size cmts)%N) cmts.
Proof.
  induction cmts as [|cmt cmts IH]; [constructor|].
  cbn [packed_size]. constructor; [lia|].
  eapply Forall_impl; [exact IH|]. cbn beta. intros x Hx. lia.
Qed.

Lemma len_string_of_bytes (b : bytes) : len (string_of_bytes b) = blen b.
Proof.
  rewrite <- blen_bytes_of_string. unfold bytes_of_string, string_of_bytes.
  now rewrite list_byte_of_string_of_list_byte.
Qed.

Lemma readUint32L_size r n r' :
  flacvorbis.readUint32L r = inl (n, r') -> blen r = (4 + blen r')%N.
Proof.
  destruct r as [|b0 [|b1 [|b2 [|b3 rest]]]]; try discriminate.
  intros [= _ <-]. unfold blen. cbn [length]. lia.
Qed.

Lemma readString_size n r s r' :
  flacvorbis.readString n r = inl (s, r') ->
  len s = n /\ blen r = (n + blen r')%N.
Proof.
  unfold flacvorbis.readString. destruct r as [|b r0]; [discriminate|].
  destruct (blen (b :: r0) <? n)%N eqn:Hlt; [discriminate|].
  apply N.ltb_ge in Hlt. intros [= <- <-].
  rewrite len_string_of_bytes. unfold blen in *.
  rewrite length_take, length_drop. lia.
Qed.

Lemma readComments_size count r cmts :
  flacvorbis.readComments count r = inl cmts ->
  (packed_size cmts <= blen r)%N.
Proof.
  revert r cmts. induction count as [|count IH]; intros r cmts;
    cbn [flacvorbis.readComments].
  - intros [= <-]. cbn [packed_size]. lia.
  - destruct (flacvorbis.readUint32L r) as [[n r1]|e] eqn:H1; [|discriminate].
    destruct (flacvorbis.readString n r1) as [[s r2]|e] eqn:H2; [|discriminate].
    destruct (flacvorbis.readComments count r2) as [rest|e] eqn:H3;
      [|discriminate].
    intros [= <-]. cbn [packed_size].
    apply readUint32L_size in H1. apply readString_size in H2 as [Hs H2].
    apply IH in H3. lia.
Qed.

(** A comment list that was read from a block marshals into a block that
    is not larger. *)
Lemma Marshal_parsed_size m c :
  flacvorbis.ParseFromMetaDataBlock m = inl c ->
  (blen (flac.Data (flacvorbis.Marshal c)) <= blen (flac.Data m))%N.
Proof.
  unfold flacvorbis.ParseFromMetaDataBlock.
  destruct (negb _); [discriminate|].
  destruct (flacvorbis.readUint32L (flac.Data m)) as [[n r1]|e] eqn:H1;
    [|discriminate].
  destruct (flacvorbis.readString n r1) as [[vendor r2]|e] eqn:H2;
    [|discriminate].
  destruct (flacvorbis.readUint32L r2) as [[k r3]|e] eqn:H3; [|discriminate].
  destruct (flacvorbis.readComments (N.to_nat k) r3) as [cmts|e] eqn:H4;
    [|discriminate].
  intros [= <-]. rewrite Marshal_size.
  cbn [flacvorbis.Vendor flacvorbis.Comments].
  apply readUint32L_size in H1. apply readString_size in H2 as [Hv H2].
  apply readUint32L_size in H3. apply readComments_size in H4. lia.
Qed.

(** *** The block chain of a FLAC file *)

Lemma uint24_digits n :
  (n < 2 ^ 24)%N ->
  (2 ^ 16 * ((uint32 n / 2 ^ 16) mod 256) + 2 ^ 8 * ((uint32 n / 2 ^ 8) mod 256)
   + uint32 n mod 256 = n)%N.
Proof.
  intros Hn.
  assert (H32 : (n < 2 ^ 32)%N)
    by (eapply N.lt_trans; [exact Hn | reflexivity]).
  rewrite (uint32_small n H32).
  pose proof (uint32_digits n H32) as H.
  assert (H0 : (n / 2 ^ 24 = 0)%N) by now apply N.div_small.
  rewrite H0 in H. exact H.
Qed.

(** A block within the bounds is read back from its [Marshal], flag
    included, and the reader stops right behind it. *)
Lemma parseMetadataBlock_Marshal isfinal c rest :
  flac.block_fits c = true ->
  flac.parseMetadataBlock (flac.MetaDataBlock_Marshal isfinal c ++ rest)
  = Some (c, isfinal, rest).
Proof.
  unfold flac.block_fits. intros H.
  apply andb_prop in H as [H Hsize]. apply andb_prop in H as [Hlo Hhi].
  apply Z.leb_le in Hlo. apply Z.ltb_lt in Hhi. apply N.ltb_lt in Hsize.
  destruct c as [type data]. cbn [flac.Type_ flac.Data] in *.
  unfold flac.MetaDataBlock_Marshal, flac.parseMetadataBlock, encodeUint32.
  cbn [flac.Type_ flac.Data skipn app].
  rewrite !to_N_byte_of_N, (uint24_digits _ Hsize).
  rewrite blen_app_ge. unfold blen at 1 2.
  rewrite Nat2N.id, take_app_length, drop_app_length.
  unfold flac.byte_of_Z. rewrite to_N_byte_of_N.
  assert (Hbyte : (Z.to_N ((if isfinal then type + 128 else type) mod 256)
                   mod 256)%N
                  = if isfinal then (Z.to_N type + 128)%N else Z.to_N type).
  { destruct isfinal.
    - rewrite Z.mod_small by lia. rewrite N.mod_small by lia. lia.
    - rewrite Z.mod_small by lia. rewrite N.mod_small by lia. reflexivity. }
  rewrite Hbyte. do 3 f_equal.
  - f_equal. destruct isfinal.
    + replace (Z.to_N type + 128)%N with (Z.to_N type + 1 * 128)%N by lia.
      rewrite N.Div0.mod_add, N.mod_small by lia. lia.
    + rewrite N.mod_small by lia. lia.
  - destruct isfinal; [apply N.leb_le | apply N.leb_gt]; lia.
Qed.

Lemma readMetadataBlocks_Marshal meta frames fuel :
  flac.chain_fits meta = true -> (length meta <= fuel)%nat ->
  flac.readMetadataBlocks fuel (flac.marshal_chain meta ++ frames)
  = Some (meta, frames).
Proof.
  intros Hfit. assert (Hall : forallb flac.block_fits meta = true)
    by (destruct meta; [discriminate | exact Hfit]).
  assert (Hne : meta <> []) by (destruct meta; [discriminate | congruence]).
  clear Hfit. revert fuel.
  induction meta as [|c meta IH]; intros fuel Hfuel; [congruence|].
  cbn [forallb] in Hall. apply andb_prop in Hall as [Hc Hall].
  destruct fuel as [|fuel]; [cbn [length] in Hfuel; lia|].
  cbn [flac.readMetadataBlocks]. destruct meta as [|c' meta].
  - cbn [flac.marshal_chain].
    now rewrite parseMetadataBlock_Marshal by exact Hc.
  - change (flac.marshal_chain (c :: c' :: meta))
      with (flac.MetaDataBlock_Marshal false c
            ++ flac.marshal_chain (c' :: meta)).
    rewrite <- app_assoc, parseMetadataBlock_Marshal by exact Hc.
    rewrite IH; [reflexivity | exact Hall | discriminate |].
    cbn [length] in *. lia.
Qed.

Lemma length_marshal_chain meta :
  (length meta <= S (length (flac.marshal_chain meta)))%nat.
Proof.
  induction meta as [|c [|c' meta] IH]; cbn [length]; [lia | lia |].
  change (flac.marshal_chain (c :: c' :: meta))
    with (flac.MetaDataBlock_Marshal false c
          ++ flac.marshal_chain (c' :: meta)).
  rewrite length_app. cbn [length] in IH.
  unfold flac.MetaDataBlock_Marshal at 1. cbn [length]. lia.
Qed.

(** The chain and the audio frames of a file within the bounds are read
    back from what [File.Marshal] writes. *)
Lemma ParseMetadata_Marshal meta frames :
  flac.chain_fits meta = true ->
  flac.ParseMetadata (flac.File_Marshal (flac.mkFile meta frames))
  = Some (meta, frames).
Proof.
  intros Hfit. unfold flac.File_Marshal. cbn [flac.Meta flac.Frames].
  change (bytes_of_string "fLaC")
    with [Byte.x66; Byte.x4c; Byte.x61; Byte.x43].
  cbn [app flac.ParseMetadata].
  change (String.eqb _ "fLaC") with true. cbv iota.
  apply readMetadataBlocks_Marshal; [exact Hfit|].
  rewrite length_app. pose proof (length_marshal_chain meta). lia.
Qed.

(** The length a block of 2^24 bytes or more is written with is not its
    own. *)
Lemma Marshal_length_wraps isfinal c h0 h1 h2 h3 rest :
  flac.MetaDataBlock_Marshal isfinal c = h0 :: h1 :: h2 :: h3 :: rest ->
  (2 ^ 16 * Byte.to_N h1 + 2 ^ 8 * Byte.to_N h2 + Byte.to_N h3
   = uint32 (blen (flac.Data c)) mod 2 ^ 24)%N.
Proof.
  unfold flac.MetaDataBlock_Marshal, encodeUint32. cbn [skipn app].
  intros [= _ <- <- <- _]. rewrite !to_N_byte_of_N.
  pose proof (uint32_digits (uint32 (blen (flac.Data c)))
                (uint32_lt _)) as H.
  set (n := uint32 (blen (flac.Data c))) in *.
  assert (Hlow : (2 ^ 16 * ((n / 2 ^ 16) mod 256) + 2 ^ 8 * ((n / 2 ^ 8) mod 256)
                  + n mod 256 < 2 ^ 24)%N).
  { pose proof (N.mod_upper_bound (n / 2 ^ 16) 256 ltac:(discriminate)) as B2.
    pose proof (N.mod_upper_bound (n / 2 ^ 8) 256 ltac:(discriminate)) as B1.
    pose proof (N.mod_upper_bound n 256 ltac:(discriminate)) as B0.
    generalize dependent ((n / 2 ^ 16) mod 256)%N.
    generalize dependent ((n / 2 ^ 8) mod 256)%N.
    generalize dependent (n mod 256)%N.
    intros x0 B0 x1 B1 x2 _ B2.
    replace (2 ^ 16)%N with 65536%N by reflexivity.
    replace (2 ^ 8)%N with 256%N by reflexivity.
    replace (2 ^ 24)%N with 16777216%N by reflexivity. lia. }
  rewrite <- H at 4. clear H.
  set (low := (2 ^ 16 * ((n / 2 ^ 16) mod 256) + 2 ^ 8 * ((n / 2 ^ 8) mod 256)
               + n mod 256)%N) in *.
  replace (2 ^ 24 * ((n / 2 ^ 24) mod 256) + 2 ^ 16 * ((n / 2 ^ 16) mod 256)
           + 2 ^ 8 * ((n / 2 ^ 8) mod 256) + n mod 256)%N
    with (low + (n / 2 ^ 24) mod 256 * 2 ^ 24)%N by (subst low; lia).
  rewrite N.Div0.mod_add. symmetry. now apply N.mod_small.
Qed.

(** A marshalled comment list that fits a block fits the 32-bit fields of
    its own layout. *)
Lemma Marshal_fits_fields (c : flacvorbis.MetaDataBlockVorbisComment) :
  (blen (flac.Data (flacvorbis.Marshal c)) < 2 ^ 24)%N ->
  (len (flacvorbis.Vendor c) < 2 ^ 32)%N
  /\ (N.of_nat (length (flacvorbis.Comments c)) < 2 ^ 32)%N
  /\ Forall (fun cmt => (len cmt < 2 ^ 32)%N) (flacvorbis.Comments c).
Proof.
  rewrite Marshal_size. intros H.
  pose proof (packed_size_count (flacvorbis.Comments c)) as Hn.
  pose proof (packed_size_each (flacvorbis.Comments c)) as Hall.
  assert (H32 : (2 ^ 24 < 2 ^ 32)%N) by reflexivity.
  repeat split; try lia.
  eapply Forall_impl; [exact Hall|]. cbn beta. intros x Hx. lia.
Qed.

End Wire.

(** ** [flacvorbis]: the comment list *)

Section VorbisFacts.

Import flacvorbis.

Variable fieldEq : string -> string -> bool.

Lemma valid_key_char_not_eq ch :
  valid_key_char ch = true -> Ascii.eqb ch "="%char = false.
Proof.
  unfold valid_key_char. intros H. apply negb_true_iff in H.
  now apply orb_false_iff in H as [_ H].
Qed.

Lemma SplitN_valid_key key val :
  forallb valid_key_char (list_ascii_of_string key) = true ->
  SplitN_eq_2 (key ++ "=" ++ val) = Some (key, val).
Proof.
  induction key as [|ch key IH]; simpl.
  - reflexivity.
  - intros H. apply andb_prop in H as [Hc Hk].
    rewrite (valid_key_char_not_eq _ Hc). now rewrite (IH Hk).
Qed.

Lemma Get_loop_app key l1 l2 res :
  Get_loop fieldEq key (l1 ++ l2) res =
  match Get_loop fieldEq key l1 res with
  | inl r => Get_loop fieldEq key l2 r
  | inr e => inr e
  end.
Proof.
  revert res. induction l1 as [|cmt l1 IH]; intros res; simpl; [reflexivity|].
  destruct (SplitN_eq_2 cmt) as [[k v]|]; [apply IH | reflexivity].
Qed.

Lemma Add_valid key val c :
  forallb valid_key_char (list_ascii_of_string key) = true ->
  Add key val c =
  (mkVorbisComment (Vendor c) (Comments c ++ [(key ++ "=" ++ val)%string]),
   nil_error).
Proof. intros H. unfold Add. now rewrite H. Qed.

(** A field that was added is found again, after the values that were
    there. *)
Lemma Get_Add key val c vals :
  forallb valid_key_char (list_ascii_of_string key) = true ->
  fieldEq key key = true ->
  Get fieldEq key c = inl vals ->
  Get fieldEq key (fst (Add key val c)) = inl (vals ++ [val]).
Proof.
  intros Hkey Hrefl Hget. rewrite Add_valid by exact Hkey.
  unfold Get in *. simpl. rewrite Get_loop_app, Hget. simpl.
  rewrite SplitN_valid_key by exact Hkey. now rewrite Hrefl.
Qed.

(** The loop of [FlacTagger.SetArtist]. *)
Lemma Add_loop key artists c vals :
  forallb valid_key_char (list_ascii_of_string key) = true ->
  fieldEq key key = true ->
  Get fieldEq key c = inl vals ->
  let c' := fold_left (fun c artist => fst (Add key artist c)) artists c in
  Get fieldEq key c' = inl (vals ++ artists)
  /\ Comments c' =
     Comments c ++ map (fun artist => (key ++ "=" ++ artist)%string) artists
  /\ Vendor c' = Vendor c.
Proof.
  intros Hkey Hrefl. revert c vals.
  induction artists as [|a l IH]; intros c vals Hget; simpl.
  - now rewrite !app_nil_r.
  - destruct (IH (fst (Add key a c)) (vals ++ [a])) as (H1 & H2 & H3).
    { now apply Get_Add. }
    rewrite H1, H2, H3, Add_valid by exact Hkey. simpl.
    now rewrite <- !app_assoc.
Qed.

(** The comment list [New()] starts from holds no field. *)
Lemma Get_New key : Get fieldEq key New = inl [].
Proof. reflexivity. Qed.

End VorbisFacts.

(** ** [FlacTagger]: the block chain *)

Section FlacFacts.

Variable image_Decode : bytes -> string -> flacpicture.image_info.
Variable fieldEq : string -> string -> bool.

Lemma count_comment_blocks_app l1 l2 :
  count_comment_blocks (l1 ++ l2)
  = (count_comment_blocks l1 + count_comment_blocks l2)%nat.
Proof.
  unfold count_comment_blocks. now rewrite List.filter_app, length_app.
Qed.

Lemma find_app_Some {A} (p : A -> bool) l1 l2 x :
  List.find p l1 = Some x -> List.find p (l1 ++ l2) = Some x.
Proof.
  induction l1 as [|a l1 IH]; simpl; [discriminate|].
  destruct (p a); [trivial | exact IH].
Qed.

Lemma find_some_count meta m :
  List.find is_VorbisComment meta = Some m ->
  (1 <= count_comment_blocks meta)%nat.
Proof.
  unfold count_comment_blocks.
  induction meta as [|b meta IH]; simpl; [discriminate|].
  destruct (is_VorbisComment b); simpl; [lia | exact IH].
Qed.

(** A setter call never adds or removes a comment block, keeps the path
    and the audio frames, and only ever appends to the chain. *)
Lemma Flac_call_chain c f :
  let f' := fst (Flac_call image_Decode fieldEq c f) in
  path f' = path f
  /\ flac.Frames (file f') = flac.Frames (file f)
  /\ exists added,
       flac.Meta (file f') = flac.Meta (file f) ++ added
       /\ count_comment_blocks added = 0%nat.
Proof.
  destruct c; simpl;
    unfold Flac.SetCover, Flac.SetCoverUrl, Flac.SetTitle, Flac.SetAlbum,
      Flac.SetArtist, Flac.SetComment, flacpicture.NewFromImageData.
  - destruct (image_Decode buf mime) as [[[[w h] d] n]|e]; simpl.
    + repeat split. eexists [_]. split; reflexivity.
    + repeat split. exists []. now rewrite app_nil_r.
  - repeat split. eexists [_]. split; reflexivity.
  - destruct (flacvorbis.Get _ _ _) as [vals|e]; simpl;
      [destruct (Nat.eqb _ 0);
         [try match goal with
              | |- context [flacvorbis.Add ?k ?v ?c] =>
                  destruct (flacvorbis.Add k v c)
              end|]|];
      simpl; repeat split; exists []; now rewrite app_nil_r.
  - destruct (flacvorbis.Get _ _ _) as [vals|e]; simpl;
      [destruct (Nat.eqb _ 0);
         [try match goal with
              | |- context [flacvorbis.Add ?k ?v ?c] =>
                  destruct (flacvorbis.Add k v c)
              end|]|];
      simpl; repeat split; exists []; now rewrite app_nil_r.
  - destruct (flacvorbis.Get _ _ _) as [vals|e]; simpl;
      [destruct (Nat.eqb _ 0)|];
      simpl; repeat split; exists []; now rewrite app_nil_r.
  - repeat split. exists []. now rewrite app_nil_r.
Qed.

Lemma Flac_calls_chain cs f :
  let f' := Flac_calls image_Decode fieldEq cs f in
  path f' = path f
  /\ flac.Frames (file f') = flac.Frames (file f)
  /\ exists added,
       flac.Meta (file f') = flac.Meta (file f) ++ added
       /\ count_comment_blocks added = 0%nat.
Proof.
  revert f. induction cs as [|c cs IH]; intros f; simpl.
  - repeat split. exists []. now rewrite app_nil_r.
  - destruct (Flac_call_chain c f) as (Hp & Hf & a1 & Ha1 & Hc1).
    destruct (IH (fst (Flac_call image_Decode fieldEq c f)))
      as (Hp' & Hf' & a2 & Ha2 & Hc2).
    unfold Flac_calls in *. simpl in *.
    rewrite Hp', Hf', Ha2, Hp, Hf, Ha1. repeat split.
    exists (a1 ++ a2). rewrite app_assoc. split; [reflexivity|].
    rewrite count_comment_blocks_app. lia.
Qed.

(** What [ParseBytes] returns when it returns a file. *)
Lemma ParseBytes_inv p d c :
  ParseBytes p d = inl c ->
  d = FlacFile (flac.Meta c) (flac.Frames c)
  /\ flac.chain_fits (flac.Meta c) = true
  /\ flac.readFLACStream (flac.Frames c) = flac.SyncCode.
Proof.
  destruct d as [| meta frames |]; simpl; try discriminate.
  destruct (flac.chain_fits meta) eqn:Hfit; [|discriminate].
  destruct (flac.readFLACStream frames) eqn:Hs; try discriminate.
  intros [= <-]. simpl. auto.
Qed.

Lemma ParseBytes_fits p meta frames :
  flac.chain_fits meta = true ->
  flac.readFLACStream frames = flac.SyncCode ->
  ParseBytes p (FlacFile meta frames) = inl (flac.mkFile meta frames).
Proof. intros Hfit Hs. simpl. now rewrite Hfit, Hs. Qed.

(** What [NewFlacTagger] returns when it returns a session. *)
Lemma NewFlacTagger_inv p w f w' :
  NewFlacTagger p w = (inl f, w') ->
  default nil_error (head (faults w)) = nil_error
  /\ w' = mkWorld (files w) (tail (faults w))
            (events w ++ [ev_flac_ParseFile p])
  /\ path f = p
  /\ files w !! p = Some (FlacFile (flac.Meta (file f)) (flac.Frames (file f)))
  /\ match List.find is_VorbisComment (flac.Meta (file f)) with
     | Some m => flacvorbis.ParseFromMetaDataBlock m = inl (cmts f)
     | None => cmts f = flacvorbis.New
     end.
Proof.
  unfold NewFlacTagger, flac_ParseFile, sys. simpl.
  destruct (default nil_error (head (faults w))); [discriminate|].
  destruct (files w !! p) as [d|]; [|discriminate].
  destruct (ParseBytes p d) as [c|e] eqn:Hd; [|discriminate].
  apply ParseBytes_inv in Hd as (-> & _ & _).
  destruct (List.find is_VorbisComment (flac.Meta c)) as [m|] eqn:Hfind.
  - destruct (flacvorbis.ParseFromMetaDataBlock m) as [c'|e] eqn:Hp;
      [|discriminate].
    intros [= <- <-]. simpl. rewrite Hfind. auto.
  - intros [= <- <-]. simpl. rewrite Hfind. auto.
Qed.

(** And the file it was read from is within the bounds of the layout and
    has audio that begins with the sync code. *)
Lemma NewFlacTagger_fits p w f w' :
  NewFlacTagger p w = (inl f, w') ->
  flac.chain_fits (flac.Meta (file f)) = true
  /\ flac.readFLACStream (flac.Frames (file f)) = flac.SyncCode.
Proof.
  unfold NewFlacTagger, flac_ParseFile, sys. simpl.
  destruct (default nil_error (head (faults w))); [discriminate|].
  destruct (files w !! p) as [d|]; [|discriminate].
  destruct (ParseBytes p d) as [c|e] eqn:Hd; [|discriminate].
  apply ParseBytes_inv in Hd as (_ & Hfit & Hsync).
  destruct (List.find is_VorbisComment (flac.Meta c)) as [m|].
  - destruct (flacvorbis.ParseFromMetaDataBlock m); [|discriminate].
    now intros [= <- _].
  - now intros [= <- _].
Qed.

(** What [NewFlacTagger] finds in a world in which no call fails, in a
    file that is within the bounds of the layout. *)
Lemma NewFlacTagger_quiet p w meta frames :
  files w !! p = Some (FlacFile meta frames) ->
  flac.chain_fits meta = true ->
  flac.readFLACStream frames = flac.SyncCode ->
  NewFlacTagger p (quiet w)
  = match List.find is_VorbisComment meta with
    | Some m =>
        match flacvorbis.ParseFromMetaDataBlock m with
        | inl c =>
            (inl (mkFlacTagger p (flac.mkFile meta frames) c),
             mkWorld (files w) [] (events w ++ [ev_flac_ParseFile p]))
        | inr e =>
            (inr e, mkWorld (files w) [] (events w ++ [ev_flac_ParseFile p]))
        end
    | None =>
        (inl (mkFlacTagger p (flac.mkFile meta frames) flacvorbis.New),
         mkWorld (files w) [] (events w ++ [ev_flac_ParseFile p]))
    end.
Proof.
  intros Hfile Hfit Hsync.
  unfold NewFlacTagger, flac_ParseFile, sys, quiet. simpl.
  rewrite Hfile, (ParseBytes_fits p meta frames Hfit Hsync). simpl.
  destruct (List.find is_VorbisComment meta) as [m|]; [|reflexivity].
  now destruct (flacvorbis.ParseFromMetaDataBlock m).
Qed.

Lemma find_app_None {A} (p : A -> bool) l1 l2 :
  List.find p l1 = None -> List.find p (l1 ++ l2) = List.find p l2.
Proof.
  induction l1 as [|a l1 IH]; simpl; [reflexivity|].
  destruct (p a); [discriminate | exact IH].
Qed.

Lemma count_zero_find meta :
  count_comment_blocks meta = 0%nat -> List.find is_VorbisComment meta = None.
Proof.
  unfold count_comment_blocks.
  induction meta as [|b meta IH]; simpl; [reflexivity|].
  destruct (is_VorbisComment b); simpl; [discriminate | exact IH].
Qed.

(** *** Chains within the bounds of the layout *)

Lemma chain_fits_forallb meta :
  flac.chain_fits meta = true -> forallb flac.block_fits meta = true.
Proof. destruct meta; [discriminate | trivial]. Qed.

Lemma chain_fits_app meta more :
  flac.chain_fits meta = true -> forallb flac.block_fits more = true ->
  flac.chain_fits (meta ++ more) = true.
Proof.
  intros Hfit Hmore. destruct meta as [|b meta]; [discriminate|].
  change (forallb flac.block_fits ((b :: meta) ++ more) = true).
  rewrite forallb_app. now rewrite (chain_fits_forallb _ Hfit), Hmore.
Qed.

(** The comments a session has read from a block of the chain go back
    into a block that fits. *)
Lemma parsed_comments_fit meta m c :
  flac.chain_fits meta = true ->
  List.find is_VorbisComment meta = Some m ->
  flacvorbis.ParseFromMetaDataBlock m = inl c ->
  flac.block_fits (flacvorbis.Marshal c) = true.
Proof.
  intros Hfit Hfind Hparse.
  apply chain_fits_forallb in Hfit. rewrite forallb_forall in Hfit.
  apply find_some in Hfind as [Hin _]. specialize (Hfit m Hin).
  unfold flac.block_fits in *.
  apply andb_prop in Hfit as [_ Hsize]. apply N.ltb_lt in Hsize.
  pose proof (Marshal_parsed_size _ _ Hparse) as Hle.
  change (flac.Type_ (flacvorbis.Marshal c)) with 4%Z.
  change ((0 <=? 4)%Z && (4 <? 128)%Z) with true. cbv iota beta delta [andb].
  apply N.ltb_lt. lia.
Qed.

(** [Save]: the chain handed to [File.Save] is the session's chain with
    the marshalled comments after it; the file holds that chain when the
    write goes through and is left alone when it fails. *)
Lemma Flac_Save_spec f w :
  let chain := flac.Meta (file f) ++ [flacvorbis.Marshal (cmts f)] in
  exists err,
    Flac.Save f w =
    (append_meta (flacvorbis.Marshal (cmts f)) f, err,
     mkWorld
       (match err with
        | None => <[path f := FlacFile chain (flac.Frames (file f))]> (files w)
        | Some _ => files w
        end)
       (tail (faults w)) (events w ++ [ev_File_Save (path f)]))
    /\ err = default nil_error (head (faults w)).
Proof.
  unfold Flac.Save, File_Save, sys, write_file. simpl.
  destruct (default nil_error (head (faults w))) as [e|];
    [exists (Some e) | exists nil_error]; split; reflexivity.
Qed.

End FlacFacts.

(** ** [Mp3Tagger]: what a file holds after [Save] *)

Section Mp3Files.

Import id3v2.

Lemma reader_AddFrame id f t : reader (AddFrame id f t) = reader t.
Proof.
  unfold AddFrame. destruct (String.eqb id ""); [reflexivity|].
  now destruct (mustFrameBeInSequence id).
Qed.

Lemma version_AddFrame id f t : version (AddFrame id f t) = version t.
Proof.
  unfold AddFrame. destruct (String.eqb id ""); [reflexivity|].
  now destruct (mustFrameBeInSequence id).
Qed.

Lemma reader_parseFrames fr t : reader (parseFrames fr t) = reader t.
Proof.
  revert t. induction fr as [|[id f] fr IH]; intros t; simpl; [reflexivity|].
  unfold parseFrames in IH. rewrite IH. apply reader_AddFrame.
Qed.

Lemma version_parseFrames fr t : version (parseFrames fr t) = version t.
Proof.
  revert t. induction fr as [|[id f] fr IH]; intros t; simpl; [reflexivity|].
  unfold parseFrames in IH. rewrite IH. apply version_AddFrame.
Qed.

Lemma parseFrames_app l1 l2 t :
  parseFrames (l1 ++ l2) t = parseFrames l2 (parseFrames l1 t).
Proof. unfold parseFrames. apply fold_left_app. Qed.

Lemma frames_AddFrame_ne id f t k :
  id <> k -> frames (AddFrame id f t) !! k = frames t !! k.
Proof.
  intros Hne. unfold AddFrame. destruct (String.eqb id ""); [reflexivity|].
  destruct (mustFrameBeInSequence id); simpl; [reflexivity|].
  now apply lookup_insert_ne.
Qed.

Lemma frames_parseFrames_notin l t k :
  k ∉ l.*1 -> frames (parseFrames l t) !! k = frames t !! k.
Proof.
  revert t. induction l as [|[id f] l IH]; intros t Hk; simpl; [reflexivity|].
  rewrite fmap_cons in Hk. apply not_elem_of_cons in Hk as [Hne Hk].
  unfold parseFrames in IH. rewrite (IH _ Hk).
  apply frames_AddFrame_ne. simpl in Hne. congruence.
Qed.

Lemma frames_parseFrames_in l t k f :
  NoDup l.*1 -> (k, f) ∈ l ->
  k <> "" -> mustFrameBeInSequence k = false ->
  frames (parseFrames l t) !! k = Some f.
Proof.
  intros Hnd Hin Hk Hseq. revert t Hnd Hin.
  induction l as [|[id g] l IH]; intros t Hnd Hin.
  - now apply elem_of_nil in Hin.
  - rewrite fmap_cons in Hnd. apply NoDup_cons in Hnd as [Hfresh Hnd].
    apply elem_of_cons in Hin as [Heq | Hin]; simpl.
    + injection Heq as <- <-.
      fold (parseFrames l (AddFrame k f t)).
      rewrite frames_parseFrames_notin by exact Hfresh.
      rewrite AddFrame_single by assumption. simpl. apply lookup_insert_eq.
    + apply (IH _ Hnd Hin).
Qed.

(** The IDs [allFrames] writes from the sequences are sequence IDs. *)
Lemma sequence_part_ids t k :
  sequences t !! k = None ->
  k ∉ (flat_map (fun ids => map (pair (fst ids)) (snd ids))
         (map_to_list (sequences t))).*1.
Proof.
  intros Hnone Hin.
  apply list_elem_of_fmap in Hin as ([id f] & -> & Hin).
  apply list_elem_of_In, in_flat_map in Hin as ([id' fs] & Hin' & Hin).
  simpl in Hin. apply in_map_iff in Hin as (g & [= <- <-] & _).
  apply list_elem_of_In, elem_of_map_to_list in Hin'.
  simpl in Hnone. congruence.
Qed.

(** Reading back what [WriteTo] wrote gives every single frame again. *)
Lemma frames_reparse t name v k :
  tag_ok t -> k <> "" -> mustFrameBeInSequence k = false ->
  frames (parseFrames (allFrames t) (init name v)) !! k = frames t !! k.
Proof.
  intros (_ & Hseq & _) Hk Hsingle. unfold allFrames.
  rewrite parseFrames_app.
  rewrite frames_parseFrames_notin
    by (apply sequence_part_ids; now apply Hseq).
  destruct (frames t !! k) as [f|] eqn:Hf.
  - apply frames_parseFrames_in; try assumption.
    + apply NoDup_fst_map_to_list.
    + now apply elem_of_map_to_list.
  - rewrite frames_parseFrames_notin; [apply lookup_empty|].
    intros Hin. apply list_elem_of_fmap in Hin as ([id f] & -> & Hin).
    apply elem_of_map_to_list in Hin. simpl in Hf. congruence.
Qed.

(** [Mp3Tagger.Save]: both library calls are made, in this order, whatever
    the first one reports, and the result is the second call's. *)
Lemma Mp3Tagger_Save_spec m w :
  let name := reader (tag m) in
  let w1 := snd (Tag_Save (tag m) w) in
  Mp3Tagger_Save m w =
  (default nil_error (head (faults w1)),
   mkWorld (files w1) (tail (faults w1)) (events w1 ++ [ev_Tag_Close name]))
  /\ events w1 = events w ++ [ev_Tag_Save name].
Proof.
  unfold Mp3Tagger_Save, Tag_Close, sys.
  destruct (Tag_Save (tag m) w) as [err w1] eqn:Hsave. simpl. split.
  - reflexivity.
  - unfold Tag_Save, sys in Hsave. simpl in Hsave.
    destruct (default nil_error (head (faults w))).
    + now injection Hsave as _ <-.
    + destruct (files w !! reader (tag m)) as [d|];
        now injection Hsave as _ <-.
Qed.

Lemma temp_name_ne name : temp_name name <> name.
Proof.
  unfold temp_name. induction name as [|c name IH]; simpl; [discriminate|].
  intros [= H]. now apply IH.
Qed.

(** The files after [Tag.Save]: untouched by a call that failed; after a
    call that went through, the tagged file under the name of the
    session's file and nothing under the temporary name. *)
Lemma Tag_Save_files t w d :
  files w !! reader t = Some d ->
  let r := Tag_Save t w in
  (fst r <> nil_error /\ files (snd r) = files w)
  \/ (fst r = nil_error
      /\ default nil_error (head (faults w)) = nil_error
      /\ files (snd r) !! reader t = Some (tagged t d)
      /\ files (snd r) !! temp_name (reader t) = None
      /\ forall q, q <> reader t -> q <> temp_name (reader t) ->
                   files (snd r) !! q = files w !! q).
Proof.
  intros Hd. unfold Tag_Save, sys. simpl.
  destruct (default nil_error (head (faults w))) as [e|]; simpl.
  - left. split; [discriminate | reflexivity].
  - right. rewrite Hd. simpl. repeat split.
    + apply lookup_insert_eq.
    + rewrite lookup_insert_ne by (apply not_eq_sym, temp_name_ne).
      apply lookup_delete_eq.
    + intros q Hq Hq'. rewrite lookup_insert_ne by congruence.
      apply lookup_delete_ne. congruence.
Qed.

Lemma reader_Tag_parse p d t : Tag_parse p d = inl t -> reader t = p.
Proof.
  intros H. destruct (Tag_parse_inv _ _ _ H) as (v & fr & -> & _).
  apply reader_parseFrames.
Qed.

(** The file behind a session after [Save]: the file as it was when the
    write failed, the tagged file when it went through. *)
Lemma Mp3_Save_file p w m w1 err w2 :
  NewMp3Tagger p w = (inl m, w1) ->
  Mp3Tagger_Save m w1 = (err, w2) ->
  exists d,
    files w !! p = Some d /\ Tag_parse p d = inl (tag m)
    /\ (files w2 !! p = Some d \/ files w2 !! p = Some (tagged (tag m) d)).
Proof.
  intros Hnew Hsave.
  destruct (NewMp3Tagger_inv _ _ _ _ Hnew) as (_ & -> & d & Hd & Hp).
  exists d. split; [exact Hd|]. split; [exact Hp|].
  pose proof (reader_Tag_parse _ _ _ Hp) as Hr.
  destruct (Mp3Tagger_Save_spec m
              (mkWorld (files w) (tail (faults w))
                 (events w ++ [ev_id3v2_Open p]))) as [Hs _].
  rewrite Hs in Hsave. injection Hsave as _ <-. simpl.
  destruct (Tag_Save_files (tag m)
              (mkWorld (files w) (tail (faults w))
                 (events w ++ [ev_id3v2_Open p])) d) as [[_ Hf] | (_ & _ & Hf & _)].
  - simpl. now rewrite Hr.
  - left. rewrite Hf. exact Hd.
  - right. rewrite Hr in Hf. exact Hf.
Qed.

(** What a session holds and writes when its tag has a frame. *)
Lemma allFrames_lookup t k f : frames t !! k = Some f -> allFrames t <> [].
Proof.
  intros H Hnil. unfold allFrames in Hnil.
  apply app_eq_nil in Hnil as [Hnil _].
  apply elem_of_map_to_list in H. rewrite Hnil in H.
  now apply elem_of_nil in H.
Qed.

End Mp3Files.

(** ** [strings.ToLower] and the format names *)

Section FormatNames.

Variable mapLower : string -> string.

(** [strings.Map(unicode.ToLower, s)] is reached only by a string with a
    byte outside ASCII; what it returns then is never one of the two
    format names. *)
Hypothesis mapLower_formats :
  forall s, isASCII s = false ->
            mapLower s <> audioFormatMp3 /\ mapLower s <> audioFormatFlac.

Ltac all_bytes :=
  intros [[] [] [] [] [] [] [] []]; split; (reflexivity || discriminate).

Lemma plain_m : plain_char "m". Proof. all_bytes. Qed.
Lemma plain_p : plain_char "p". Proof. all_bytes. Qed.
Lemma plain_3 : plain_char "3". Proof. all_bytes. Qed.
Lemma plain_f : plain_char "f". Proof. all_bytes. Qed.
Lemma plain_l : plain_char "l". Proof. all_bytes. Qed.
Lemma plain_a : plain_char "a". Proof. all_bytes. Qed.
Lemma plain_c : plain_char "c". Proof. all_bytes. Qed.

Lemma lower_ascii_casing target s :
  Forall plain_char (list_ascii_of_string target) ->
  String.eqb (lower_ascii s) target = casing_of target s.
Proof.
  revert s. induction target as [|a target IH]; intros s Hplain.
  - now destruct s.
  - simpl in Hplain. apply Forall_cons in Hplain as [Ha Hplain].
    destruct s as [|b s]; simpl; [reflexivity|].
    rewrite (proj1 (Ha b)), (IH s Hplain). reflexivity.
Qed.

Lemma casing_isASCII target s :
  Forall plain_char (list_ascii_of_string target) ->
  casing_of target s = true -> isASCII s = true.
Proof.
  revert s. induction target as [|a target IH]; intros s Hplain.
  - now destruct s.
  - simpl in Hplain. apply Forall_cons in Hplain as [Ha Hplain].
    destruct s as [|b s]; simpl; [discriminate|].
    intros H. apply andb_prop in H as [Hb Hs].
    unfold isASCII in *. simpl.
    rewrite (proj2 (Ha b) Hb). simpl. now apply IH.
Qed.

Lemma plain_mp3 : Forall plain_char (list_ascii_of_string audioFormatMp3).
Proof.
  simpl. repeat (apply Forall_cons; split);
    auto using plain_m, plain_p, plain_3, Forall_nil_2.
Qed.

Lemma plain_flac : Forall plain_char (list_ascii_of_string audioFormatFlac).
Proof.
  simpl. repeat (apply Forall_cons; split);
    auto using plain_f, plain_l, plain_a, plain_c, Forall_nil_2.
Qed.

Lemma ToLower_casing target s :
  Forall plain_char (list_ascii_of_string target) ->
  mapLower s <> target \/ isASCII s = true ->
  String.eqb (ToLower mapLower s) target = casing_of target s.
Proof.
  intros Hplain Hmap. unfold ToLower.
  destruct (isASCII s) eqn:Hs.
  - now apply lower_ascii_casing.
  - destruct Hmap as [Hmap|]; [|discriminate].
    destruct (String.eqb_spec (mapLower s) target) as [E|_]; [contradiction|].
    destruct (casing_of target s) eqn:Hc; [|reflexivity].
    apply casing_isASCII in Hc; [congruence | exact Hplain].
Qed.

Lemma ToLower_mp3 s :
  String.eqb (ToLower mapLower s) audioFormatMp3 = casing_of audioFormatMp3 s.
Proof.
  apply ToLower_casing; [apply plain_mp3|].
  destruct (isASCII s) eqn:Hs; [now right | left].
  now apply mapLower_formats.
Qed.

Lemma ToLower_flac s :
  String.eqb (ToLower mapLower s) audioFormatFlac
  = casing_of audioFormatFlac s.
Proof.
  apply ToLower_casing; [apply plain_flac|].
  destruct (isASCII s) eqn:Hs; [now right | left].
  now apply mapLower_formats.
Qed.

End FormatNames.

(** ** Saving and opening again *)

Section Persistence.

Variable image_Decode : bytes -> string -> flacpicture.image_info.
Variable fieldEq : string -> string -> bool.

Lemma GetTextFrame_nonempty id t tf :
  tag_ok t -> is_text_id id = true ->
  id3v2.GetTextFrame id t = Ret tf -> id3v2.tf_Text tf <> "" ->
  id3v2.frames t !! id = Some (id3v2.FText tf).
Proof.
  intros (_ & Hseq & _) Hid. unfold id3v2.GetTextFrame, id3v2.GetLastFrame,
    id3v2.GetFrames.
  destruct (id3v2.frames t !! id) as [f|].
  - destruct f; try discriminate. now intros [= ->].
  - rewrite (Hseq id) by now apply text_id_not_sequence. simpl.
    intros [= <-]. simpl. congruence.
Qed.

Lemma GetTextFrame_lookup id t tf :
  id3v2.frames t !! id = Some (id3v2.FText tf) ->
  id3v2.GetTextFrame id t = Ret tf.
Proof.
  intros H. unfold id3v2.GetTextFrame, id3v2.GetLastFrame. now rewrite H.
Qed.

(** After [Save] an undisturbed [NewMp3Tagger] succeeds and finds every
    single frame of the session, when the session has a frame to write. *)
Lemma Mp3_persist p w m w1 err w2 :
  NewMp3Tagger p w = (inl m, w1) ->
  (forall v fr music, files w !! p = Some (Id3File v fr music) ->
                      forallb frame_fits fr = true) ->
  allFrames (tag m) <> [] ->
  Mp3Tagger_Save m w1 = (err, w2) ->
  exists m2 w3,
    NewMp3Tagger p (quiet w2) = (inl m2, w3)
    /\ forall k, k <> "" -> id3v2.mustFrameBeInSequence k = false ->
                 id3v2.frames (tag m2) !! k = id3v2.frames (tag m) !! k.
Proof.
  intros Hnew Hfits Hne Hsave.
  assert (Hok : tag_ok (tag m))
    by (apply Mp3Session_tag_ok; eapply session_open; eauto).
  destruct (Mp3_Save_file _ _ _ _ _ _ Hnew Hsave) as (d & Hd & Hp & Hfile).
  destruct Hfile as [Hfile | Hfile].
  - exists m. eexists. split; [|reflexivity].
    unfold NewMp3Tagger, id3v2_Open, sys, quiet. simpl.
    rewrite Hfile, Hp. now destruct m.
  - destruct (Tag_parse_inv _ _ _ Hp) as (v & fr & Htag & Hv & _).
    assert (Hversion : id3v2.version (tag m) = v)
      by (rewrite Htag; apply version_parseFrames).
    unfold tagged in Hfile.
    destruct (allFrames (tag m)) as [|f frs] eqn:Hall; [congruence|].
    exists (mkMp3Tagger (parseFrames (f :: frs) (id3v2.init p v))).
    eexists. split.
    + unfold NewMp3Tagger, id3v2_Open, sys, quiet. simpl.
      rewrite Hfile, Hversion. simpl. now rewrite Hv.
    + intros k Hk Hsingle. cbn [tag]. rewrite <- Hall.
      now apply frames_reparse.
Qed.

(** After [Save] an undisturbed [NewFlacTagger] succeeds when the chain
    that was written is within the bounds of the layout; when the file had
    a comment block to begin with, it is that block the new session reads,
    whatever the calls in between. *)
Lemma Flac_persist p w f w1 cs f' err w2 m :
  NewFlacTagger p w = (inl f, w1) ->
  List.find is_VorbisComment (flac.Meta (file f)) = Some m ->
  (err = nil_error ->
   flac.chain_fits
     (flac.Meta (file (Flac_calls image_Decode fieldEq cs f))
      ++ [flacvorbis.Marshal (cmts (Flac_calls image_Decode fieldEq cs f))])
   = true) ->
  Flac.Save (Flac_calls image_Decode fieldEq cs f) w1 = (f', err, w2) ->
  exists f2 w3,
    NewFlacTagger p (quiet w2) = (inl f2, w3) /\ cmts f2 = cmts f.
Proof.
  intros Hnew Hfind Hfits Hsave.
  destruct (NewFlacTagger_fits _ _ _ _ Hnew) as [Hfit Hsync].
  destruct (NewFlacTagger_inv _ _ _ _ Hnew) as (_ & -> & Hp & Hfile & Hparse).
  rewrite Hfind in Hparse.
  destruct (Flac_calls_chain image_Decode fieldEq cs f)
    as (Hpath & Hframes & added & Hmeta & _).
  destruct (Flac_Save_spec (Flac_calls image_Decode fieldEq cs f)
              (mkWorld (files w) (tail (faults w))
                 (events w ++ [ev_flac_ParseFile p]))) as (err' & Hs & _).
  rewrite Hs in Hsave. injection Hsave as _ <- <-.
  destruct err' as [e|].
  - erewrite NewFlacTagger_quiet; [| exact Hfile | exact Hfit | exact Hsync].
    rewrite Hfind, Hparse. eauto.
  - erewrite NewFlacTagger_quiet;
      [| simpl; rewrite Hpath, Hp; apply lookup_insert_eq
       | now apply Hfits
       | now rewrite Hframes].
    rewrite Hmeta.
    rewrite (find_app_Some _ _ _ m) by now apply find_app_Some.
    rewrite Hparse. eauto.
Qed.

End Persistence.

(** * The tagger's contract *)

(** ** Fill-if-absent: title and album *)

Section FillIfAbsent.

Variable fieldEq : string -> string -> bool.

Lemma Get_loop_mono key cmts res vals x :
  flacvorbis.Get_loop fieldEq key cmts res = inl vals ->
  In x res -> In x vals.
Proof.
  revert res. induction cmts as [|cmt cmts IH]; intros res; simpl.
  - now intros [= <-].
  - destruct (flacvorbis.SplitN_eq_2 cmt) as [[k v]|]; [|discriminate].
    intros H Hx. apply (IH _ H).
    destruct (fieldEq k key); [apply in_or_app; now left | exact Hx].
Qed.

Lemma Get_loop_stored key cmts res cmt k v vals :
  In cmt cmts -> flacvorbis.SplitN_eq_2 cmt = Some (k, v) ->
  fieldEq k key = true ->
  flacvorbis.Get_loop fieldEq key cmts res = inl vals -> In v vals.
Proof.
  revert res. induction cmts as [|c cmts IH]; intros res Hin Hsplit Hk;
    simpl; [contradiction|].
  destruct Hin as [-> | Hin].
  - rewrite Hsplit, Hk. intros H. apply (Get_loop_mono _ _ _ _ _ H).
    apply in_or_app. right. now left.
  - destruct (flacvorbis.SplitN_eq_2 c) as [[k' v']|]; [|discriminate].
    now apply IH.
Qed.

(** A stored value is either found by [Get] or [Get] fails; in neither
    case does a fill-if-absent setter write. *)
Lemma stored_field_Get key v c :
  stored_field fieldEq key v c ->
  match flacvorbis.Get fieldEq key c with
  | inl vals => Nat.eqb (length vals) 0 = false
  | inr _ => True
  end.
Proof.
  intros (cmt & k & Hin & Hsplit & Hk). unfold flacvorbis.Get.
  destruct (flacvorbis.Get_loop fieldEq key (flacvorbis.Comments c) [])
    as [vals|e] eqn:Hget; [|exact I].
  pose proof (Get_loop_stored _ _ _ _ _ _ _ Hin Hsplit Hk Hget) as Hv.
  now destruct vals.
Qed.

Lemma Flac_SetTitle_stored title v f :
  stored_field fieldEq flacvorbis.FIELD_TITLE v (cmts f) ->
  fst (Flac.SetTitle fieldEq title f) = f.
Proof.
  intros H. apply stored_field_Get in H. unfold Flac.SetTitle.
  destruct (flacvorbis.Get _ _ _); [now rewrite H | reflexivity].
Qed.

Lemma Flac_SetAlbum_stored album v f :
  stored_field fieldEq flacvorbis.FIELD_ALBUM v (cmts f) ->
  fst (Flac.SetAlbum fieldEq album f) = f.
Proof.
  intros H. apply stored_field_Get in H. unfold Flac.SetAlbum.
  destruct (flacvorbis.Get _ _ _); [now rewrite H | reflexivity].
Qed.

Lemma Mp3_SetTitle_present title name m :
  id3v2.Title (tag m) = Ret name -> name <> "" ->
  Mp3.SetTitle title m = Ret (m, nil_error).
Proof.
  intros H Hne. unfold Mp3.SetTitle. rewrite H. simpl.
  now destruct (String.eqb_spec name "").
Qed.

Lemma Mp3_SetAlbum_present album name m :
  id3v2.Album (tag m) = Ret name -> name <> "" ->
  Mp3.SetAlbum album m = Ret (m, nil_error).
Proof.
  intros H Hne. unfold Mp3.SetAlbum. rewrite H. simpl.
  now destruct (String.eqb_spec name "").
Qed.

Lemma Flac_SetTitle_present title vals f :
  flacvorbis.Get fieldEq flacvorbis.FIELD_TITLE (cmts f) = inl vals ->
  vals <> [] ->
  Flac.SetTitle fieldEq title f = (f, nil_error).
Proof.
  intros H Hne. unfold Flac.SetTitle. rewrite H. now destruct vals.
Qed.

(** C1.  A title or an album that is already there is never replaced.  On
    the MP3 encoder, when the tag reports a non-empty title (album),
    [SetTitle] ([SetAlbum]) returns the session it was given; on the FLAC
    encoder, when the comment list holds a value for TITLE (ALBUM), the
    session after the call is the session before it.  And on a file whose
    title is [old], a session that calls [SetTitle new] and then [Save]
    leaves a file in which a fresh session finds the title [old] again,
    on both encoders and whether or not the write went through. *)
Theorem existing_title_album_kept :
  forall old new : string, old <> "" ->
    (forall m, id3v2.Title (tag m) = Ret old ->
               Mp3.SetTitle new m = Ret (m, nil_error))
    /\ (forall m, id3v2.Album (tag m) = Ret old ->
                  Mp3.SetAlbum new m = Ret (m, nil_error))
    /\ (forall f, stored_field fieldEq flacvorbis.FIELD_TITLE old (cmts f) ->
                  fst (Flac.SetTitle fieldEq new f) = f)
    /\ (forall f, stored_field fieldEq flacvorbis.FIELD_ALBUM old (cmts f) ->
                  fst (Flac.SetAlbum fieldEq new f) = f)
    /\ (forall p w m w1,
           NewMp3Tagger p w = (inl m, w1) ->
           (forall v fr music, files w !! p = Some (Id3File v fr music) ->
                               forallb frame_fits fr = true) ->
           id3v2.Title (tag m) = Ret old ->
           Mp3.SetTitle new m = Ret (m, nil_error)
           /\ forall err w2,
                Mp3Tagger_Save m w1 = (err, w2) ->
                exists m2 w3,
                  NewMp3Tagger p (quiet w2) = (inl m2, w3)
                  /\ id3v2.Title (tag m2) = Ret old)
    /\ (forall p w f w1,
           NewFlacTagger p w = (inl f, w1) ->
           flacvorbis.Get fieldEq flacvorbis.FIELD_TITLE (cmts f)
           = inl [old] ->
           Flac.SetTitle fieldEq new f = (f, nil_error)
           /\ forall f' err w2,
                Flac.Save f w1 = (f', err, w2) ->
                exists f2 w3,
                  NewFlacTagger p (quiet w2) = (inl f2, w3)
                  /\ flacvorbis.Get fieldEq flacvorbis.FIELD_TITLE (cmts f2)
                     = inl [old]).
Proof.
  intros old new Hold. repeat split.
  - intros m H. now apply Mp3_SetTitle_present with old.
  - intros m H. now apply Mp3_SetAlbum_present with old.
  - intros f H. now apply Flac_SetTitle_stored with old.
  - intros f H. now apply Flac_SetAlbum_stored with old.
  - now apply Mp3_SetTitle_present with old.
  - intros err w2 Hsave.
    assert (Hok : tag_ok (tag m))
      by (apply Mp3Session_tag_ok; eapply session_open; eauto).
    unfold id3v2.Title, obind in H1.
    destruct (id3v2.GetTextFrame
              (id3v2.CommonID "Title/Songname/Content description") (tag m))
      as [tf|] eqn:Htf; [|discriminate].
    injection H1 as H1.
    apply GetTextFrame_nonempty in Htf;
      [| exact Hok | reflexivity | congruence].
    destruct (Mp3_persist _ _ _ _ _ _ H H0 (allFrames_lookup _ _ _ Htf) Hsave)
      as (m2 & w3 & Hre & Hfr).
    exists m2, w3. split; [exact Hre|].
    unfold id3v2.Title.
    rewrite (GetTextFrame_lookup _ _ tf).
    + simpl. now rewrite H1.
    + rewrite Hfr; [exact Htf | discriminate | reflexivity].
  - apply Flac_SetTitle_present with [old]; [assumption | discriminate].
  - intros f' err w2 Hsave.
    destruct (List.find is_VorbisComment (flac.Meta (file f))) as [m|] eqn:Hfind.
    + assert (Hfits : flac.chain_fits
                        (flac.Meta (file f) ++ [flacvorbis.Marshal (cmts f)])
                      = true).
      { destruct (NewFlacTagger_fits _ _ _ _ H) as [Hfit _].
        destruct (NewFlacTagger_inv _ _ _ _ H) as (_ & _ & _ & _ & Hparse).
        rewrite Hfind in Hparse.
        apply chain_fits_app; [exact Hfit|]. cbn [forallb].
        now rewrite (parsed_comments_fit _ _ _ Hfit Hfind Hparse). }
      destruct (Flac_persist (fun _ _ => inr image_ErrFormat) fieldEq
                  _ _ _ _ [] _ _ _ _ H Hfind (fun _ => Hfits) Hsave)
        as (f2 & w3 & Hre & Hc).
      exists f2, w3. split; [exact Hre | now rewrite Hc].
    + destruct (NewFlacTagger_inv _ _ _ _ H) as (_ & _ & _ & _ & Hparse).
      rewrite Hfind in Hparse. rewrite Hparse in H0. discriminate H0.
Qed.

End FillIfAbsent.

(** ** First write wins *)

Section FirstWrite.

Variable fieldEq : string -> string -> bool.

(** The comparison [Get] applies to field names accepts a name against
    itself. *)
Hypothesis fieldEq_refl : forall k, fieldEq k k = true.

Lemma Mp3_SetTitle_absent title m :
  id3v2.Title (tag m) = Ret "" ->
  Mp3.SetTitle title m
  = Ret (mkMp3Tagger (id3v2.SetTitle title (tag m)), nil_error).
Proof. intros H. unfold Mp3.SetTitle. now rewrite H. Qed.

Lemma Flac_SetTitle_absent title f :
  flacvorbis.Get fieldEq flacvorbis.FIELD_TITLE (cmts f) = inl [] ->
  Flac.SetTitle fieldEq title f
  = (set_cmts (fst (flacvorbis.Add flacvorbis.FIELD_TITLE title (cmts f))) f,
     nil_error)
  /\ flacvorbis.Get fieldEq flacvorbis.FIELD_TITLE
       (fst (flacvorbis.Add flacvorbis.FIELD_TITLE title (cmts f)))
     = inl [title].
Proof.
  intros H. split.
  - unfold Flac.SetTitle. now rewrite H.
  - now apply (Get_Add fieldEq _ title _ []).
Qed.

(** C8.  On a session with no title yet (the MP3 tag reports the empty
    title; the FLAC comment list yields no value for TITLE), the first
    [SetTitle x] with [x] non-empty stores [x] as the one title frame or
    entry, and a second [SetTitle x] and a later [SetTitle y] both return
    that same session. *)
Theorem first_title_wins :
  forall x y : string, x <> "" ->
    (forall m, id3v2.Title (tag m) = Ret "" ->
       exists m1,
         Mp3.SetTitle x m = Ret (m1, nil_error)
         /\ Mp3.SetTitle x m1 = Ret (m1, nil_error)
         /\ Mp3.SetTitle y m1 = Ret (m1, nil_error)
         /\ title_frames m1
            = [id3v2.FText
                 (id3v2.mkTextFrame (id3v2.defaultEncoding (tag m)) x)]
         /\ id3v2.Title (tag m1) = Ret x)
    /\ (forall f,
          flacvorbis.Get fieldEq flacvorbis.FIELD_TITLE (cmts f) = inl [] ->
          exists f1,
            Flac.SetTitle fieldEq x f = (f1, nil_error)
            /\ Flac.SetTitle fieldEq x f1 = (f1, nil_error)
            /\ Flac.SetTitle fieldEq y f1 = (f1, nil_error)
            /\ flacvorbis.Get fieldEq flacvorbis.FIELD_TITLE (cmts f1)
               = inl [x]).
Proof.
  intros x y Hx. split.
  - intros m Hm. eexists. split; [now apply Mp3_SetTitle_absent|].
    assert (Ht : id3v2.Title (tag (mkMp3Tagger (id3v2.SetTitle x (tag m))))
                 = Ret x) by apply Title_SetTitle.
    repeat split.
    + now apply Mp3_SetTitle_present with x.
    + now apply Mp3_SetTitle_present with x.
    + unfold title_frames, id3v2.SetTitle. simpl.
      now apply GetFrames_AddTextFrame.
    + exact Ht.
  - intros f Hf. destruct (Flac_SetTitle_absent x f Hf) as [Hset Hget].
    eexists. split; [exact Hset|].
    repeat split; try exact Hget;
      now apply Flac_SetTitle_present with [x].
Qed.

End FirstWrite.

(** ** Artists *)

Section Artists.

Variable fieldEq : string -> string -> bool.
Hypothesis fieldEq_refl : forall k, fieldEq k k = true.

(** The FLAC encoder stores one ARTIST entry per element, in order. *)
Lemma Flac_SetArtist_keeps_order artists f :
  flacvorbis.Get fieldEq flacvorbis.FIELD_ARTIST (cmts f) = inl [] ->
  exists f',
    Flac.SetArtist fieldEq artists f = (f', nil_error)
    /\ flacvorbis.Get fieldEq flacvorbis.FIELD_ARTIST (cmts f') = inl artists
    /\ flacvorbis.Comments (cmts f')
       = flacvorbis.Comments (cmts f)
         ++ map (fun a => ("ARTIST=" ++ a)%string) artists.
Proof.
  intros H. unfold Flac.SetArtist. rewrite H. simpl.
  destruct (Add_loop fieldEq flacvorbis.FIELD_ARTIST artists (cmts f) []
              eq_refl (fieldEq_refl _) H) as (H1 & H2 & _).
  eexists. split; [reflexivity|]. simpl. split; [exact H1 | exact H2].
Qed.

(** C3.  On the MP3 encoder the artists do not become one entry each.
    [SetArtist] of the library writes the single TPE1 text frame, so the
    loop of [Mp3Tagger.SetArtist] leaves one artist frame, holding the
    last element of the list: after [SetArtist ["A"; "B"; "C"]] on a
    session without artist frames the only artist frame reads "C". *)
Theorem Mp3_SetArtist_keeps_last_only :
  forall (m : Mp3Tagger) (artists : list string) (a : string),
    artist_frames m = [] ->
    exists m',
      Mp3.SetArtist (artists ++ [a]) m = Ret (m', nil_error)
      /\ artist_frames m'
         = [id3v2.FText
              (id3v2.mkTextFrame (id3v2.defaultEncoding (tag m)) a)].
Proof.
  intros m artists a Hnone. unfold Mp3.SetArtist.
  unfold artist_frames in Hnone. rewrite Hnone. simpl.
  eexists. split; [reflexivity|].
  unfold artist_frames. simpl. apply SetArtist_loop.
Qed.

End Artists.

Lemma Mp3_SetArtist_keeps_last_only_witness :
  artist_frames untagged_session = []
  /\ exists m',
       Mp3.SetArtist ["A"; "B"; "C"] untagged_session = Ret (m', nil_error)
       /\ artist_frames m'
          = [id3v2.FText (id3v2.mkTextFrame id3v2.EncodingUTF8 "C")].
Proof.
  split; [reflexivity|].
  exact (Mp3_SetArtist_keeps_last_only untagged_session ["A"; "B"] "C" eq_refl).
Defined.

(** ** Covers *)

Lemma untagged_session_ok : Mp3Session untagged_session.
Proof.
  apply (session_open "a.mp3" untagged_world untagged_session
           (mkWorld (files untagged_world) [] [ev_id3v2_Open "a.mp3"])).
  - reflexivity.
  - intros v fr music H. vm_compute in H. now injection H as <- <- <-.
Defined.

Lemma covered_session_ok : Mp3Session covered_session.
Proof.
  apply (session_call (CSetCover [Byte.x89; Byte.x50] "image/png")
           untagged_session covered_session nil_error untagged_session_ok).
  reflexivity.
Defined.

Section Covers.

Variable image_Decode : bytes -> string -> flacpicture.image_info.

Lemma Mp3_SetCover_pictures buf mime m :
  Mp3Session m ->
  exists m',
    Mp3.SetCover buf mime m = Ret (m', nil_error)
    /\ Mp3Session m'
    /\ pictures m' = id3v2.sequence_AddFrame (cover_frame buf mime) (pictures m).
Proof.
  intros Hm. eexists. split; [reflexivity|]. split.
  - now apply (session_call (CSetCover buf mime) m _ nil_error Hm).
  - apply pictures_cover. now apply Mp3Session_tag_ok.
Qed.

Lemma Mp3_SetCoverUrl_pictures coverUrl m :
  Mp3Session m ->
  exists m',
    Mp3.SetCoverUrl coverUrl m = Ret (m', nil_error)
    /\ Mp3Session m'
    /\ pictures m'
       = id3v2.sequence_AddFrame
           (cover_frame (bytes_of_string coverUrl) "-->") (pictures m).
Proof.
  intros Hm. eexists. split; [reflexivity|]. split.
  - now apply (session_call (CSetCoverUrl coverUrl) m _ nil_error Hm).
  - apply pictures_cover. now apply Mp3Session_tag_ok.
Qed.

Lemma Flac_SetCover_ok buf mime f f' :
  Flac.SetCover image_Decode buf mime f = (f', nil_error) ->
  exists w h depth colors,
    image_Decode buf mime = inl (w, h, depth, colors)
    /\ f' = append_meta (cover_block w h depth colors buf mime) f.
Proof.
  unfold Flac.SetCover, flacpicture.NewFromImageData.
  destruct (image_Decode buf mime) as [[[[w h] d] n]|e]; [|discriminate].
  intros [= <-]. now exists w, h, d, n.
Qed.

(** C4.  [SetCoverUrl url] succeeds on both encoders and stores a
    front-cover picture whose MIME type is "-->" and whose image data are
    the bytes of [url]; a URL shorter than 2^32 bytes is read back from
    the FLAC block, with its MIME type, by the reader of the picture
    layout.  The FLAC encoder appends the marshalled picture to the block
    chain on every call.  The MP3 encoder does not: the frame goes through
    the tag's picture sequence, which keeps one frame per description, so
    it is appended only when no picture described "Front cover" is there,
    and is otherwise written over that picture. *)
Theorem SetCoverUrl_stores_sentinel :
  forall coverUrl : string,
    let frame := cover_frame (bytes_of_string coverUrl) "-->" in
    let picture :=
      flacpicture.mkPicture flacpicture.PictureTypeFrontCover "-->"
        "Front cover" 0 0 0 0 (bytes_of_string coverUrl) in
    string_of_bytes (bytes_of_string coverUrl) = coverUrl
    /\ (forall m, Mp3Session m ->
          exists m',
            Mp3.SetCoverUrl coverUrl m = Ret (m', nil_error)
            /\ pictures m' = id3v2.sequence_AddFrame frame (pictures m)
            /\ In frame (pictures m')
            /\ (id3v2.indexOfFrame frame (pictures m) = None ->
                pictures m' = pictures m ++ [frame])
            /\ (forall i, id3v2.indexOfFrame frame (pictures m) = Some i ->
                pictures m' = <[i := frame]> (pictures m)))
    /\ (forall f,
          Flac.SetCoverUrl coverUrl f
          = (append_meta (flacpicture.Marshal picture) f, nil_error)
          /\ flac.Meta (file (fst (Flac.SetCoverUrl coverUrl f)))
             = flac.Meta (file f) ++ [flacpicture.Marshal picture]
          /\ flac.Type_ (flacpicture.Marshal picture) = flac.Picture)
    /\ ((len coverUrl < 2 ^ 32)%N ->
        flacpicture.ParseFromMetaDataBlock (flacpicture.Marshal picture)
        = Some picture).
Proof.
  intros coverUrl frame picture. split; [|split; [|split]].
  - apply string_of_list_byte_of_string.
  - intros m Hm.
    destruct (Mp3_SetCoverUrl_pictures coverUrl m Hm) as (m' & Hcall & _ & Hp).
    exists m'. split; [exact Hcall|]. split; [exact Hp|].
    rewrite Hp. split; [apply In_sequence_AddFrame|].
    unfold id3v2.sequence_AddFrame. fold frame.
    split; [now intros -> | now intros i ->].
  - intros f. repeat split.
  - intros Hlen. apply picture_roundtrip; try reflexivity.
    simpl. now rewrite blen_bytes_of_string.
Qed.

(** C9.  No cover setter checks for a cover that is already there.  On
    the FLAC encoder every successful [SetCover] appends one front-cover
    picture block to the chain, so two successful calls leave two more
    picture blocks.  On the MP3 encoder two successive calls do not yield
    two picture entries: [SetCover] always succeeds and hands its frame to
    the tag's picture sequence, where a frame with the same description is
    written over, so the second call adds no entry and leaves its own
    frame in the place of the first call's. *)
Theorem SetCover_no_presence_check :
  (forall f buf mime f',
      Flac.SetCover image_Decode buf mime f = (f', nil_error) ->
      exists w h depth colors,
        image_Decode buf mime = inl (w, h, depth, colors)
        /\ flac.Meta (file f')
           = flac.Meta (file f) ++ [cover_block w h depth colors buf mime]
        /\ picture_blocks f'
           = picture_blocks f ++ [cover_block w h depth colors buf mime])
  /\ (forall f buf1 mime1 f1 buf2 mime2 f2,
        Flac.SetCover image_Decode buf1 mime1 f = (f1, nil_error) ->
        Flac.SetCover image_Decode buf2 mime2 f1 = (f2, nil_error) ->
        length (picture_blocks f2) = S (S (length (picture_blocks f))))
  /\ (forall m, Mp3Session m ->
        forall buf1 mime1 buf2 mime2,
        exists m1 m2,
          Mp3.SetCover buf1 mime1 m = Ret (m1, nil_error)
          /\ Mp3.SetCover buf2 mime2 m1 = Ret (m2, nil_error)
          /\ pictures m1
             = id3v2.sequence_AddFrame (cover_frame buf1 mime1) (pictures m)
          /\ pictures m2
             = id3v2.sequence_AddFrame (cover_frame buf2 mime2) (pictures m1)
          /\ length (pictures m2) = length (pictures m1)
          /\ In (cover_frame buf2 mime2) (pictures m2)).
Proof.
  assert (Hone : forall f buf mime f',
             Flac.SetCover image_Decode buf mime f = (f', nil_error) ->
             exists w h depth colors,
               image_Decode buf mime = inl (w, h, depth, colors)
               /\ flac.Meta (file f')
                  = flac.Meta (file f)
                    ++ [cover_block w h depth colors buf mime]
               /\ picture_blocks f'
                  = picture_blocks f
                    ++ [cover_block w h depth colors buf mime]).
  { intros f buf mime f' H.
    destruct (Flac_SetCover_ok _ _ _ _ H) as (w & h & d & n & Hdec & ->).
    exists w, h, d, n. split; [exact Hdec|]. split; [reflexivity|].
    unfold picture_blocks. simpl. now rewrite List.filter_app. }
  split; [exact Hone|]. split.
  - intros f buf1 mime1 f1 buf2 mime2 f2 H1 H2.
    destruct (Hone _ _ _ _ H1) as (? & ? & ? & ? & _ & _ & E1).
    destruct (Hone _ _ _ _ H2) as (? & ? & ? & ? & _ & _ & E2).
    rewrite E2, E1, !length_app. simpl. lia.
  - intros m Hm buf1 mime1 buf2 mime2.
    destruct (Mp3_SetCover_pictures buf1 mime1 m Hm) as (m1 & Hc1 & Hm1 & Hp1).
    destruct (Mp3_SetCover_pictures buf2 mime2 m1 Hm1) as (m2 & Hc2 & _ & Hp2).
    exists m1, m2. repeat split; try assumption.
    + rewrite Hp2, Hp1.
      now apply (sequence_AddFrame_twice (cover_frame buf1 mime1)).
    + rewrite Hp2. apply In_sequence_AddFrame.
Qed.

End Covers.

Lemma SetCoverUrl_stores_sentinel_witness :
  Mp3Session covered_session
  /\ exists m',
       Mp3.SetCoverUrl "https://x/y.jpg" covered_session = Ret (m', nil_error)
       /\ pictures m'
          = [cover_frame (bytes_of_string "https://x/y.jpg") "-->"].
Proof.
  split; [exact covered_session_ok|].
  destruct (SetCoverUrl_stores_sentinel "https://x/y.jpg")
    as (_ & Hmp3 & _ & _).
  destruct (Hmp3 covered_session covered_session_ok)
    as (m' & Hcall & Hp & _).
  exists m'. split; [exact Hcall|]. rewrite Hp. reflexivity.
Defined.

(** "Appends", read on the MP3 encoder, fails: on a session that already
    has a front cover, [SetCoverUrl] leaves one picture frame, not two. *)
Lemma SetCoverUrl_appends_on_Mp3_fails : ~ SetCoverUrl_appends_on_Mp3.
Proof.
  intros H.
  specialize (H covered_session covered_session_ok "https://x/y.jpg" _ _ eq_refl).
  vm_compute in H. discriminate H.
Qed.

Lemma SetCover_no_presence_check_witness :
  Flac.SetCover any_image [Byte.x01] "image/png" plain_flac_session
  = (append_meta (cover_block 1 1 24 0 [Byte.x01] "image/png")
       plain_flac_session, nil_error)
  /\ Mp3Session untagged_session
  /\ exists m1 m2,
       Mp3.SetCover [Byte.x01] "image/png" untagged_session
       = Ret (m1, nil_error)
       /\ Mp3.SetCover [Byte.x02] "image/jpeg" m1 = Ret (m2, nil_error)
       /\ length (pictures m2) = length (pictures m1)
       /\ length (picture_blocks
                    (fst (Flac.SetCover any_image [Byte.x02] "image/jpeg"
                            (fst (Flac.SetCover any_image [Byte.x01] "image/png"
                                    plain_flac_session))))) = 2%nat.
Proof.
  split; [reflexivity|]. split; [exact untagged_session_ok|].
  destruct (SetCover_no_presence_check any_image) as (_ & Hflac & Hmp3).
  destruct (Hmp3 untagged_session untagged_session_ok
              [Byte.x01] "image/png" [Byte.x02] "image/jpeg")
    as (m1 & m2 & H1 & H2 & _ & _ & Hlen & _).
  exists m1, m2.
  split; [exact H1|]. split; [exact H2|]. split; [exact Hlen|].
  exact (Hflac plain_flac_session [Byte.x01] "image/png"
           (fst (Flac.SetCover any_image [Byte.x01] "image/png"
                   plain_flac_session))
           [Byte.x02] "image/jpeg"
           (fst (Flac.SetCover any_image [Byte.x02] "image/jpeg"
                   (fst (Flac.SetCover any_image [Byte.x01] "image/png"
                           plain_flac_session))))
           eq_refl eq_refl).
Defined.

(** And so does "two successive calls yield two picture entries": on the
    MP3 encoder the second [SetCover] does not append. *)
Lemma SetCover_appends_on_Mp3_fails : ~ SetCover_appends_on_Mp3.
Proof.
  intros H.
  specialize (H covered_session covered_session_ok
                [Byte.xff; Byte.xd8] "image/jpeg" _ _ eq_refl).
  vm_compute in H. discriminate H.
Qed.

(** ** The MP3 setters never report an error *)

(** C10.  No MP3 setter returns an error, and on every session (one opened
    by [NewMp3Tagger] and driven by setter calls) every setter returns,
    with the nil error, a session again. *)
Theorem Mp3_setters_return_nil :
  (forall c m m' err, Mp3_call c m = Ret (m', err) -> err = nil_error)
  /\ (forall m, Mp3Session m ->
        forall c, exists m',
          Mp3_call c m = Ret (m', nil_error) /\ Mp3Session m').
Proof.
  split.
  - apply Mp3_call_nil.
  - intros m Hm c.
    destruct (Mp3_call_returns c m (Mp3Session_tag_ok m Hm)) as [m' Hcall].
    exists m'. split; [exact Hcall|]. eapply session_call; eauto.
Qed.

Lemma Mp3_setters_return_nil_witness :
  Mp3Session titled_mp3_session
  /\ Mp3_call (CSetTitle "New") titled_mp3_session
     = Ret (titled_mp3_session, nil_error)
  /\ exists m',
       Mp3_call (CSetComment "hello") titled_mp3_session = Ret (m', nil_error)
       /\ Mp3Session m'.
Proof.
  assert (Hm : Mp3Session titled_mp3_session).
  { apply (session_open "a.mp3" titled_mp3_world titled_mp3_session
             (mkWorld (files titled_mp3_world) [] [ev_id3v2_Open "a.mp3"])).
    - reflexivity.
    - intros v fr music H. vm_compute in H. now injection H as <- <- <-. }
  split; [exact Hm|]. split; [reflexivity|].
  exact (proj2 Mp3_setters_return_nil titled_mp3_session Hm
           (CSetComment "hello")).
Defined.

(** ** [Mp3Tagger.Save] *)

(** C2.  [Mp3Tagger.Save] makes both library calls whatever the first one
    reports, but what it returns is the result of [Tag.Close] alone: when
    [Tag.Save] fails with [e] and [Tag.Close] goes through, the caller gets
    the nil error, and the failure [e] is lost. *)
Theorem Mp3_Save_loses_serialize_error :
  forall (m : Mp3Tagger) (fs : gmap string FileData) (log : list IOEvent)
         (e : error_value) (rest : list error),
    Mp3Tagger_Save m (mkWorld fs (Some e :: None :: rest) log)
    = (nil_error,
       mkWorld fs rest
         (log ++ [ev_Tag_Save (id3v2.reader (tag m))]
              ++ [ev_Tag_Close (id3v2.reader (tag m))])).
Proof.
  intros m fs log e rest.
  unfold Mp3Tagger_Save, Tag_Save, Tag_Close, sys. simpl.
  now rewrite <- app_assoc.
Qed.

(** The release step is made in every world, right after the serialize
    step. *)
Lemma Mp3_Save_always_closes m w :
  events (snd (Mp3Tagger_Save m w))
  = events w ++ [ev_Tag_Save (id3v2.reader (tag m));
                 ev_Tag_Close (id3v2.reader (tag m))].
Proof.
  destruct (Mp3Tagger_Save_spec m w) as [-> Hev]. simpl.
  rewrite Hev. now rewrite <- app_assoc.
Qed.

(** ** [NewTagger] *)

Section Dispatch.

Variable mapLower : string -> string.
Hypothesis mapLower_formats :
  forall s, isASCII s = false ->
            mapLower s <> audioFormatMp3 /\ mapLower s <> audioFormatFlac.

Lemma casing_of_length target s :
  casing_of target s = true -> String.length s = String.length target.
Proof.
  revert s. induction target as [|a target IH]; intros [|b s]; simpl;
    try discriminate; [reflexivity|].
  intros H. apply andb_prop in H as [_ H]. now rewrite (IH s H).
Qed.

(** C5.  [NewTagger] looks at the format name only up to the case of its
    letters: every casing of "mp3" gives what [NewMp3Tagger] returns on
    the input path, every casing of "flac" what [NewFlacTagger] returns,
    and any other name gives the nil [Tagger] with the error
    "format: <name> is not supportted", the name as it was passed, in a
    world that is the one before the call: no file operation is made. *)
Theorem NewTagger_dispatch :
  forall (input format : string) (w : World),
    (casing_of audioFormatMp3 format = true ->
     NewTagger mapLower input format w = as_Mp3 (NewMp3Tagger input w))
    /\ (casing_of audioFormatFlac format = true ->
        NewTagger mapLower input format w = as_Flac (NewFlacTagger input w))
    /\ (casing_of audioFormatMp3 format = false ->
        casing_of audioFormatFlac format = false ->
        NewTagger mapLower input format w
        = ((Tagger_nil,
            Some (errors_New ("format: " ++ format ++ " is not supportted"))),
           w)).
Proof.
  intros input format w. unfold NewTagger.
  rewrite (ToLower_mp3 mapLower mapLower_formats),
    (ToLower_flac mapLower mapLower_formats).
  repeat split.
  - intros ->. reflexivity.
  - intros Hflac.
    destruct (casing_of audioFormatMp3 format) eqn:Hmp3.
    + apply casing_of_length in Hmp3. apply casing_of_length in Hflac.
      rewrite Hmp3 in Hflac. discriminate Hflac.
    + rewrite Hflac. reflexivity.
  - intros -> ->. reflexivity.
Qed.

End Dispatch.

Lemma NewTagger_dispatch_witness :
  NewTagger (fun s => s) "a.mp3" "Mp3" untagged_world
  = ((Tagger_Mp3 (Some untagged_session), nil_error),
     mkWorld (files untagged_world) [] [ev_id3v2_Open "a.mp3"])
  /\ NewTagger (fun s => s) "a.mp3" "ogg" untagged_world
     = ((Tagger_nil, Some (errors_New "format: ogg is not supportted")),
        untagged_world).
Proof.
  assert (Hid : forall s, isASCII s = false ->
                  s <> audioFormatMp3 /\ s <> audioFormatFlac).
  { intros s Hs. split; intros ->; discriminate Hs. }
  destruct (NewTagger_dispatch (fun s => s) Hid "a.mp3" "Mp3" untagged_world)
    as (Hmp3 & _ & _).
  destruct (NewTagger_dispatch (fun s => s) Hid "a.mp3" "ogg" untagged_world)
    as (_ & _ & Hother).
  split.
  - rewrite (Hmp3 eq_refl). reflexivity.
  - exact (Hother eq_refl eq_refl).
Defined.

(** ** [FlacTagger.Save] and [FlacTagger.SetComment] *)

Section FlacSave.

Variable image_Decode : bytes -> string -> flacpicture.image_info.
Variable fieldEq : string -> string -> bool.

(** C6.  [Save] marshals the session's comments into a new block of type
    [VorbisComment], puts it at the end of the session's chain and hands
    that chain to [File.Save]; no block is taken out, so the chain has
    one comment block more than before.  For a session opened on a file
    and driven by any setter calls, a [Save] that goes through leaves a
    file whose chain has one comment block more than the file had: two,
    when it had one.  The new block holds the session's comments: they are
    read back from it when they fit the 32-bit lengths of the layout and
    none of them is the empty string. *)
Theorem Flac_Save_appends_comment_block :
  (forall f w,
      let fresh := flacvorbis.Marshal (cmts f) in
      let chain := flac.Meta (file f) ++ [fresh] in
      flac.Type_ fresh = flac.VorbisComment
      /\ count_comment_blocks chain
         = S (count_comment_blocks (flac.Meta (file f)))
      /\ exists err w',
           Flac.Save f w = (append_meta fresh f, err, w')
           /\ (err = nil_error ->
               files w' !! path f
               = Some (FlacFile chain (flac.Frames (file f)))))
  /\ (forall f,
        (len (flacvorbis.Vendor (cmts f)) < 2 ^ 32)%N ->
        (N.of_nat (length (flacvorbis.Comments (cmts f))) < 2 ^ 32)%N ->
        Forall (fun cmt => cmt <> "" /\ (len cmt < 2 ^ 32)%N)
          (flacvorbis.Comments (cmts f)) ->
        flacvorbis.ParseFromMetaDataBlock (flacvorbis.Marshal (cmts f))
        = inl (cmts f))
  /\ (forall p w meta frames f w1 cs f' w2,
        files w !! p = Some (FlacFile meta frames) ->
        NewFlacTagger p w = (inl f, w1) ->
        Flac.Save (Flac_calls image_Decode fieldEq cs f) w1
        = (f', nil_error, w2) ->
        exists chain,
          files w2 !! p = Some (FlacFile chain frames)
          /\ count_comment_blocks chain = S (count_comment_blocks meta)
          /\ (count_comment_blocks meta = 1%nat ->
              count_comment_blocks chain = 2%nat)).
Proof.
  split.
  - intros f w fresh chain. split; [reflexivity|]. split.
    + unfold chain. rewrite count_comment_blocks_app.
      change (count_comment_blocks [fresh]) with 1%nat. lia.
    + destruct (Flac_Save_spec f w) as (err & Hs & _).
      eexists err, _. split; [exact Hs|].
      intros ->. simpl. apply lookup_insert_eq.
  - split; [intros f; apply comments_roundtrip|].
    intros p w meta frames f w1 cs f' w2 Hfile Hnew Hsave.
    destruct (NewFlacTagger_inv _ _ _ _ Hnew) as (_ & _ & Hp & Hfile' & _).
    rewrite Hfile in Hfile'. injection Hfile' as -> ->.
    destruct (Flac_calls_chain image_Decode fieldEq cs f)
      as (Hpath & Hframes & added & Hmeta & Hadded).
    destruct (Flac_Save_spec (Flac_calls image_Decode fieldEq cs f) w1)
      as (err & Hs & _).
    rewrite Hs in Hsave. injection Hsave as _ -> <-.
    eexists. split.
    + simpl. rewrite Hpath, Hp, Hframes. apply lookup_insert_eq.
    + assert (Hcount :
        count_comment_blocks
          (flac.Meta (file (Flac_calls image_Decode fieldEq cs f))
           ++ [flacvorbis.Marshal
                 (cmts (Flac_calls image_Decode fieldEq cs f))])
        = S (count_comment_blocks (flac.Meta (file f)))).
      { rewrite Hmeta, !count_comment_blocks_app, Hadded.
        change (count_comment_blocks [flacvorbis.Marshal ?c]) with 1%nat.
        lia. }
      split; [exact Hcount | intros H1; rewrite Hcount, H1; reflexivity].
Qed.

(** C7.  [FlacTagger.SetComment] returns the nil error and the session it
    was given, for every argument; a [Save] after it is the [Save] that
    would have been made without it. *)
Theorem Flac_SetComment_noop :
  forall (comment : string) (f : FlacTagger) (w : World),
    Flac.SetComment comment f = (f, nil_error)
    /\ cmts (fst (Flac.SetComment comment f)) = cmts f
    /\ flac.Meta (file (fst (Flac.SetComment comment f))) = flac.Meta (file f)
    /\ Flac.Save (fst (Flac.SetComment comment f)) w = Flac.Save f w.
Proof. intros comment f w. repeat split. Qed.

End FlacSave.

Lemma Flac_Save_appends_comment_block_witness :
  NewFlacTagger "a.flac" titled_flac_world
  = (inl titled_flac_session,
     mkWorld (files titled_flac_world) [] [ev_flac_ParseFile "a.flac"])
  /\ exists f' w2 chain,
       Flac.Save
         (Flac_calls any_image String.eqb
            [CSetTitle "New"; CSetCoverUrl "https://x/y.jpg"]
            titled_flac_session)
         (mkWorld (files titled_flac_world) [] [ev_flac_ParseFile "a.flac"])
       = (f', nil_error, w2)
       /\ files w2 !! "a.flac" = Some (FlacFile chain sync_audio)
       /\ count_comment_blocks chain = 2%nat.
Proof.
  split; [reflexivity|].
  destruct (Flac_Save_appends_comment_block any_image String.eqb)
    as (_ & _ & H).
  destruct (H "a.flac" titled_flac_world _ _ titled_flac_session _
              [CSetTitle "New"; CSetCoverUrl "https://x/y.jpg"] _ _
              eq_refl eq_refl eq_refl) as (chain & Hfile & _ & Htwo).
  eexists _, _, chain. split; [reflexivity|]. split; [exact Hfile|].
  apply Htwo. reflexivity.
Defined.

(** ** Concrete runs *)

Lemma existing_title_album_kept_witness :
  let w1 := mkWorld (files titled_mp3_world) [] [ev_id3v2_Open "a.mp3"] in
  let v1 := mkWorld (files titled_flac_world) [] [ev_flac_ParseFile "a.flac"] in
  (Mp3.SetTitle "New" titled_mp3_session = Ret (titled_mp3_session, nil_error)
   /\ exists m2 w3,
        NewMp3Tagger "a.mp3" (quiet (snd (Mp3Tagger_Save titled_mp3_session w1)))
        = (inl m2, w3)
        /\ id3v2.Title (tag m2) = Ret "Original")
  /\ (Flac.SetTitle String.eqb "New" titled_flac_session
      = (titled_flac_session, nil_error)
      /\ exists f2 w3,
           NewFlacTagger "a.flac" (quiet (snd (Flac.Save titled_flac_session v1)))
           = (inl f2, w3)
           /\ flacvorbis.Get String.eqb flacvorbis.FIELD_TITLE (cmts f2)
              = inl ["Original"]).
Proof.
  intros w1 v1.
  assert (Hne : "Original" <> "") by discriminate.
  destruct (existing_title_album_kept String.eqb "Original" "New" Hne)
    as (_ & _ & _ & _ & Hmp3 & Hflac).
  split.
  - assert (Hfits : forall v fr music,
               files titled_mp3_world !! "a.mp3" = Some (Id3File v fr music) ->
               forallb frame_fits fr = true).
    { intros v fr music H. vm_compute in H. now injection H as <- <- <-. }
    destruct (Hmp3 "a.mp3" titled_mp3_world titled_mp3_session w1
                eq_refl Hfits eq_refl) as [Hset Hsave].
    split; [exact Hset|].
    exact (Hsave (fst (Mp3Tagger_Save titled_mp3_session w1))
             (snd (Mp3Tagger_Save titled_mp3_session w1)) eq_refl).
  - destruct (Hflac "a.flac" titled_flac_world titled_flac_session v1
                eq_refl eq_refl) as [Hset Hsave].
    split; [exact Hset|].
    exact (Hsave (fst (fst (Flac.Save titled_flac_session v1)))
             (snd (fst (Flac.Save titled_flac_session v1)))
             (snd (Flac.Save titled_flac_session v1)) eq_refl).
Defined.

Lemma first_title_wins_witness :
  (exists m1,
      Mp3.SetTitle "x" untagged_session = Ret (m1, nil_error)
      /\ Mp3.SetTitle "x" m1 = Ret (m1, nil_error)
      /\ Mp3.SetTitle "y" m1 = Ret (m1, nil_error)
      /\ title_frames m1
         = [id3v2.FText (id3v2.mkTextFrame id3v2.EncodingUTF8 "x")])
  /\ (exists f1,
         Flac.SetTitle String.eqb "x" plain_flac_session = (f1, nil_error)
         /\ Flac.SetTitle String.eqb "x" f1 = (f1, nil_error)
         /\ Flac.SetTitle String.eqb "y" f1 = (f1, nil_error)
         /\ flacvorbis.Get String.eqb flacvorbis.FIELD_TITLE (cmts f1)
            = inl ["x"]).
Proof.
  assert (Hne : "x" <> "") by discriminate.
  destruct (first_title_wins String.eqb String.eqb_refl "x" "y" Hne)
    as [Hmp3 Hflac].
  split.
  - destruct (Hmp3 untagged_session eq_refl) as (m1 & H1 & H2 & H3 & H4 & _).
    exists m1. repeat split; assumption.
  - destruct (Hflac plain_flac_session eq_refl) as (f1 & H1 & H2 & H3 & H4).
    exists f1. repeat split; assumption.
Defined.


(** * Further properties of the two encoders *)

(** ** [Mp3Tagger]: a setter and the frames of the other fields *)

Section Mp3Frame.

Import id3v2.

Lemma same_but_refl id t : same_but id t t.
Proof. repeat split. Qed.

Lemma same_but_trans id t1 t2 t3 :
  same_but id t1 t2 -> same_but id t2 t3 -> same_but id t1 t3.
Proof.
  intros (H1 & R1 & V1 & E1) (H2 & R2 & V2 & E2). repeat split;
    try congruence.
  - destruct (H1 k H), (H2 k H). congruence.
  - destruct (H1 k H), (H2 k H). congruence.
Qed.

Lemma same_but_AddFrame id f t : same_but id t (AddFrame id f t).
Proof.
  unfold AddFrame. destruct (String.eqb id ""); [apply same_but_refl|].
  destruct (mustFrameBeInSequence id); repeat split; simpl; trivial;
    now rewrite lookup_insert_ne by congruence.
Qed.

Lemma same_but_fold_SetArtist artists t :
  same_but "TPE1" t (fold_left (fun t a => SetArtist a t) artists t).
Proof.
  revert t. induction artists as [|a l IH]; intros t; simpl.
  - apply same_but_refl.
  - eapply same_but_trans; [|apply IH]. apply same_but_AddFrame.
Qed.

Lemma same_but_GetFrames id t t' k :
  same_but id t t' -> k <> id -> GetFrames k t' = GetFrames k t.
Proof.
  intros (H & _) Hk. destruct (H k Hk) as [Hf Hs].
  unfold GetFrames. now rewrite Hf, Hs.
Qed.

Lemma Mp3_call_same_but c m m' err :
  Mp3_call c m = Ret (m', err) -> same_but (call_id c) (tag m) (tag m').
Proof.
  destruct c; simpl;
    unfold Mp3.SetCover, Mp3.SetCoverUrl, Mp3.SetTitle, Mp3.SetAlbum,
      Mp3.SetArtist, Mp3.SetComment, obind.
  - intros [= <- _]. apply same_but_AddFrame.
  - intros [= <- _]. apply same_but_AddFrame.
  - destruct (Title (tag m)) as [name|]; [|discriminate].
    destruct (String.eqb name ""); intros [= <- _];
      [apply same_but_AddFrame | apply same_but_refl].
  - destruct (Album (tag m)) as [name|]; [|discriminate].
    destruct (String.eqb name ""); intros [= <- _];
      [apply same_but_AddFrame | apply same_but_refl].
  - destruct (Nat.eqb _ 0); intros [= <- _];
      [apply same_but_fold_SetArtist | apply same_but_refl].
  - destruct (Nat.eqb _ 0); intros [= <- _];
      [apply same_but_AddFrame | apply same_but_refl].
Qed.

(** X1.  A setter of the MP3 encoder reads and writes the frames of one ID
    only ([call_id]: APIC for the two cover setters, TIT2, TALB, TPE1,
    COMM): after the call the frames under every other ID are the frames
    from before, and the file name, the tag version and the default
    encoding are unchanged. *)
Theorem Mp3_setter_keeps_other_frames :
  forall (c : call) (m m' : Mp3Tagger) (err : error),
    Mp3_call c m = Ret (m', err) ->
    (forall k, k <> call_id c ->
               GetFrames k (tag m') = GetFrames k (tag m))
    /\ reader (tag m') = reader (tag m)
    /\ version (tag m') = version (tag m)
    /\ defaultEncoding (tag m') = defaultEncoding (tag m).
Proof.
  intros c m m' err H. pose proof (Mp3_call_same_but _ _ _ _ H) as Hs.
  split.
  - intros k Hk. now apply same_but_GetFrames with (call_id c).
  - now destruct Hs as (_ & ? & ? & ?).
Qed.

End Mp3Frame.

Lemma Mp3_setter_keeps_other_frames_witness :
  exists m',
    Mp3_call (CSetArtist ["A"; "B"]) titled_mp3_session = Ret (m', nil_error)
    /\ title_frames m' = title_frames titled_mp3_session
    /\ pictures m' = pictures titled_mp3_session.
Proof.
  eexists. split; [reflexivity|].
  destruct (Mp3_setter_keeps_other_frames (CSetArtist ["A"; "B"])
              titled_mp3_session _ nil_error eq_refl) as [H _].
  split; apply H; discriminate.
Defined.

(** ** [Mp3Tagger]: what every session keeps true *)

Section Mp3Stores.

Import id3v2.

Lemma indexOfFrame_None f fs :
  indexOfFrame f fs = None ->
  ~ In (UniqueIdentifier f) (map UniqueIdentifier fs).
Proof.
  induction fs as [|ff rest IH]; simpl; [tauto|].
  destruct (String.eqb_spec (UniqueIdentifier f) (UniqueIdentifier ff)) as [E|N];
    [discriminate|].
  destruct (indexOfFrame f rest); [discriminate|].
  intros _ [H|H]; [congruence | now apply IH].
Qed.

Lemma map_uid_sequence_AddFrame f fs :
  map UniqueIdentifier (sequence_AddFrame f fs)
  = match indexOfFrame f fs with
    | None => map UniqueIdentifier fs ++ [UniqueIdentifier f]
    | Some _ => map UniqueIdentifier fs
    end.
Proof.
  unfold sequence_AddFrame. destruct (indexOfFrame f fs) as [i|] eqn:Hi.
  - destruct (indexOfFrame_Some_uid _ _ _ Hi) as (ff & Hff & Huid).
    change (map UniqueIdentifier) with (fmap (M:=list) UniqueIdentifier).
    rewrite list_fmap_insert, <- Huid.
    apply list_insert_id. now rewrite list_lookup_fmap, Hff.
  - now rewrite map_app.
Qed.

Lemma NoDup_sequence_AddFrame f fs :
  NoDup (map UniqueIdentifier fs) ->
  NoDup (map UniqueIdentifier (sequence_AddFrame f fs)).
Proof.
  intros Hnd. rewrite map_uid_sequence_AddFrame.
  destruct (indexOfFrame f fs) eqn:Hi; [exact Hnd|].
  apply NoDup_app. split; [exact Hnd|]. split.
  - intros x Hx Hx'. apply list_elem_of_In in Hx.
    apply list_elem_of_singleton in Hx'. subst x.
    now apply (indexOfFrame_None _ _ Hi).
  - apply NoDup_singleton.
Qed.

Lemma stores_ok_init name v : stores_ok (init name v).
Proof.
  repeat split; simpl; try apply lookup_empty.
  intros id fs H. now rewrite lookup_empty in H.
Qed.

Lemma stores_ok_AddFrame id f t : stores_ok t -> stores_ok (AddFrame id f t).
Proof.
  intros (Hf & Hs & Hnd). unfold AddFrame.
  destruct (String.eqb_spec id "") as [->|Hid]; [now repeat split|].
  destruct (mustFrameBeInSequence id); repeat split; simpl; trivial.
  - now rewrite lookup_insert_ne.
  - intros id' fs. rewrite lookup_insert. case_decide as E.
    + intros [= <-]. apply NoDup_sequence_AddFrame.
      destruct (sequences t !! id) as [fs0|] eqn:H0; simpl.
      * now apply (Hnd id).
      * apply NoDup_nil_2.
    + apply Hnd.
  - now rewrite lookup_insert_ne.
Qed.

Lemma stores_ok_parseFrames fr t : stores_ok t -> stores_ok (parseFrames fr t).
Proof.
  revert t. induction fr as [|[id f] fr IH]; intros t Ht; simpl; [exact Ht|].
  apply IH. now apply stores_ok_AddFrame.
Qed.

Lemma stores_ok_fold_SetArtist artists t :
  stores_ok t -> stores_ok (fold_left (fun t a => SetArtist a t) artists t).
Proof.
  revert t. induction artists as [|a l IH]; intros t Ht; simpl; [exact Ht|].
  apply IH. now apply stores_ok_AddFrame.
Qed.

Lemma stores_ok_Mp3_call c m m' err :
  stores_ok (tag m) -> Mp3_call c m = Ret (m', err) -> stores_ok (tag m').
Proof.
  intros Hok. destruct c; simpl;
    unfold Mp3.SetCover, Mp3.SetCoverUrl, Mp3.SetTitle, Mp3.SetAlbum,
      Mp3.SetArtist, Mp3.SetComment, obind.
  - intros [= <- _]. now apply stores_ok_AddFrame.
  - intros [= <- _]. now apply stores_ok_AddFrame.
  - destruct (Title (tag m)) as [name|]; [|discriminate].
    destruct (String.eqb name ""); intros [= <- _]; [|exact Hok].
    now apply stores_ok_AddFrame.
  - destruct (Album (tag m)) as [name|]; [|discriminate].
    destruct (String.eqb name ""); intros [= <- _]; [|exact Hok].
    now apply stores_ok_AddFrame.
  - destruct (Nat.eqb _ 0); intros [= <- _]; [|exact Hok].
    now apply stores_ok_fold_SetArtist.
  - destruct (Nat.eqb _ 0); intros [= <- _]; [|exact Hok].
    now apply stores_ok_AddFrame.
Qed.

Lemma Mp3Session_stores_ok m : Mp3Session m -> stores_ok (tag m).
Proof.
  induction 1 as [path w m w' Hnew Hfile | c m m' err _ IH Hcall].
  - destruct (NewMp3Tagger_inv _ _ _ _ Hnew) as (_ & _ & d & _ & Hp).
    destruct (Tag_parse_inv _ _ _ Hp) as (v & fr & -> & _).
    apply stores_ok_parseFrames, stores_ok_init.
  - eapply stores_ok_Mp3_call; eauto.
Qed.

(** X2.  In every session the frames kept under one ID have identifiers
    that differ from one another (for pictures the identifier is the
    description, for comments the language followed by the description), a
    text ID (one that begins with T, TXXX apart) holds at most one frame,
    and that frame is a text frame.  So a session never holds two pictures
    described "Front cover", of whatever picture type, nor two titles,
    albums or artists. *)
Theorem Mp3Session_frames_distinct :
  forall m : Mp3Tagger, Mp3Session m ->
    (forall k, NoDup (map UniqueIdentifier (GetFrames k (tag m))))
    /\ (forall k, is_text_id k = true ->
                  (length (GetFrames k (tag m)) <= 1)%nat)
    /\ (forall k f, is_text_id k = true -> In f (GetFrames k (tag m)) ->
                    exists tf, f = FText tf).
Proof.
  intros m Hm.
  destruct (Mp3Session_tag_ok m Hm) as (Hty & Hseq & _).
  destruct (Mp3Session_stores_ok m Hm) as (_ & _ & Hnd).
  repeat split.
  - intros k. unfold GetFrames.
    destruct (frames (tag m) !! k) as [f|].
    + simpl. apply NoDup_singleton.
    + destruct (sequences (tag m) !! k) as [fs|] eqn:Hs; simpl.
      * now apply (Hnd k).
      * apply NoDup_nil_2.
  - intros k Hk. unfold GetFrames.
    destruct (frames (tag m) !! k); simpl; [lia|].
    rewrite (Hseq k) by now apply text_id_not_sequence. simpl. lia.
  - intros k f Hk. unfold GetFrames.
    destruct (frames (tag m) !! k) as [g|] eqn:Hg.
    + intros [<-|[]]. specialize (Hty k g Hg). unfold frame_fits in Hty.
      simpl in Hty. rewrite Hk in Hty. destruct g; try discriminate. eauto.
    + rewrite (Hseq k) by now apply text_id_not_sequence. intros [].
Qed.

End Mp3Stores.

Lemma back_cover_session_ok : Mp3Session back_cover_session.
Proof.
  apply (session_open "b.mp3" back_cover_world back_cover_session
           (mkWorld (files back_cover_world) [] [ev_id3v2_Open "b.mp3"])).
  - reflexivity.
  - intros v fr music H. vm_compute in H. now injection H as <- <- <-.
Defined.

Lemma doubled_cover_session_ok : Mp3Session doubled_cover_session.
Proof.
  apply (session_open "c.mp3" doubled_cover_world doubled_cover_session
           (mkWorld (files doubled_cover_world) [] [ev_id3v2_Open "c.mp3"])).
  - reflexivity.
  - intros v fr music H. vm_compute in H. now injection H as <- <- <-.
Defined.

Lemma Mp3Session_frames_distinct_witness :
  Mp3Session doubled_cover_session
  /\ pictures doubled_cover_session
     = [cover_frame [Byte.x03] "image/png"; artist_picture]
  /\ NoDup (map id3v2.UniqueIdentifier (pictures doubled_cover_session))
  /\ (length (title_frames doubled_cover_session) <= 1)%nat.
Proof.
  split; [exact doubled_cover_session_ok|]. split; [reflexivity|].
  destruct (Mp3Session_frames_distinct doubled_cover_session
              doubled_cover_session_ok) as (Hnd & Hlen & _).
  split; [apply Hnd | apply Hlen; reflexivity].
Defined.

(** ** Presence checks: by content, by frame count, by value count *)

Section Presence.

Import id3v2.

Variable fieldEq : string -> string -> bool.
Hypothesis fieldEq_refl : forall k, fieldEq k k = true.

Lemma GetFrames_AddFrame_sequence id f t :
  id <> "" -> mustFrameBeInSequence id = true -> frames t !! id = None ->
  GetFrames id (AddFrame id f t) = sequence_AddFrame f (GetFrames id t).
Proof.
  intros Hid Hseq Hnone. rewrite AddFrame_sequence by assumption.
  unfold GetFrames. simpl. rewrite Hnone. now rewrite lookup_insert_eq.
Qed.

Lemma Mp3Tagger_eta m : mkMp3Tagger (tag m) = m.
Proof. now destruct m. Qed.

Lemma set_cmts_same f : set_cmts (cmts f) f = f.
Proof. now destruct f. Qed.

(** X3.  [Mp3Tagger.SetComment] goes by the number of comment frames, not
    by their text.  On a session without comment frame it stores one frame
    with encoding ISO, language "XXX", empty description and the given
    text, and from then on every [SetComment] returns the session as it
    is, also when the stored text is the empty string; on a session that
    has a comment frame it changes nothing. *)
Theorem Mp3_SetComment_first_wins :
  forall m : Mp3Tagger, Mp3Session m ->
    (comment_frames m = [] ->
     forall x y : string,
     exists m1,
       Mp3.SetComment x m = Ret (m1, nil_error)
       /\ comment_frames m1
          = [FComment (mkCommentFrame EncodingISO "XXX" "" x)]
       /\ Mp3.SetComment y m1 = Ret (m1, nil_error))
    /\ (comment_frames m <> [] ->
        forall x : string, Mp3.SetComment x m = Ret (m, nil_error)).
Proof.
  intros m Hm. destruct (Mp3Session_tag_ok m Hm) as (_ & _ & Hsingle).
  split.
  - intros Hnone x y. unfold Mp3.SetComment. unfold comment_frames in Hnone.
    rewrite Hnone. simpl. eexists. split; [reflexivity|].
    assert (Hc : GetFrames (CommonID "Comments")
                   (AddCommentFrame (mkCommentFrame EncodingISO "XXX" "" x)
                      (tag m))
                 = [FComment (mkCommentFrame EncodingISO "XXX" "" x)]).
    { unfold AddCommentFrame. change (CommonID "Comments") with "COMM".
      rewrite GetFrames_AddFrame_sequence;
        [| discriminate | reflexivity | now apply Hsingle].
      change "COMM" with (CommonID "Comments"). now rewrite Hnone. }
    split; [exact Hc|]. simpl. now rewrite Hc.
  - intros Hsome x. unfold Mp3.SetComment. unfold comment_frames in Hsome.
    destruct (GetFrames (CommonID "Comments") (tag m)); [congruence|].
    reflexivity.
Qed.

(** X4.  [SetArtist] fills the artist only when there is none, and goes by
    the number of entries.  With an artist frame (MP3) or an ARTIST value
    (FLAC) in place the call changes nothing; with the empty list and no
    artist the call stores nothing; and on the MP3 encoder an artist with
    the empty name, once stored, keeps every later [SetArtist] out. *)
Theorem SetArtist_presence :
  (forall m artists, artist_frames m <> [] ->
                     Mp3.SetArtist artists m = Ret (m, nil_error))
  /\ (forall m, Mp3.SetArtist [] m = Ret (m, nil_error))
  /\ (forall m, artist_frames m = [] ->
        exists m1,
          Mp3.SetArtist [""] m = Ret (m1, nil_error)
          /\ artist_frames m1
             = [FText (mkTextFrame (defaultEncoding (tag m)) "")]
          /\ forall artists, Mp3.SetArtist artists m1 = Ret (m1, nil_error))
  /\ (forall f artists vals,
        flacvorbis.Get fieldEq flacvorbis.FIELD_ARTIST (cmts f) = inl vals ->
        vals <> [] ->
        Flac.SetArtist fieldEq artists f = (f, nil_error))
  /\ (forall f,
        flacvorbis.Get fieldEq flacvorbis.FIELD_ARTIST (cmts f) = inl [] ->
        Flac.SetArtist fieldEq [] f = (f, nil_error)).
Proof.
  repeat split.
  - intros m artists H. unfold Mp3.SetArtist. unfold artist_frames in H.
    destruct (GetFrames (CommonID "Artist") (tag m)); [congruence|].
    reflexivity.
  - intros m. unfold Mp3.SetArtist.
    destruct (Nat.eqb _ 0); simpl; now rewrite ?Mp3Tagger_eta.
  - intros m Hnone. unfold Mp3.SetArtist at 1.
    unfold artist_frames in Hnone. rewrite Hnone. simpl.
    eexists. split; [reflexivity|].
    assert (H2 : GetFrames (CommonID "Artist")
                   (SetArtist "" (tag m))
                 = [FText (mkTextFrame (defaultEncoding (tag m)) "")])
      by apply (SetArtist_loop [] "" (tag m)).
    split; [exact H2|].
    intros artists. unfold Mp3.SetArtist. simpl. now rewrite H2.
  - intros f artists vals H Hne. unfold Flac.SetArtist. rewrite H.
    now destruct vals.
  - intros f H. unfold Flac.SetArtist. rewrite H. simpl.
    now rewrite set_cmts_same.
Qed.

(** X5.  The empty title counts as no title on the MP3 encoder and as a
    title on the FLAC encoder.  On a session without title, [SetTitle ""]
    stores an empty title on both; a later [SetTitle y] then replaces it on
    the MP3 encoder (the check is [Title() == ""]) and is ignored on the
    FLAC encoder (the check is the number of TITLE values). *)
Theorem empty_title_then_title :
  forall y : string,
    (forall m, Title (tag m) = Ret "" ->
       exists m1 m2,
         Mp3.SetTitle "" m = Ret (m1, nil_error)
         /\ title_frames m1
            = [FText (mkTextFrame (defaultEncoding (tag m)) "")]
         /\ Mp3.SetTitle y m1 = Ret (m2, nil_error)
         /\ title_frames m2
            = [FText (mkTextFrame (defaultEncoding (tag m)) y)])
    /\ (forall f,
          flacvorbis.Get fieldEq flacvorbis.FIELD_TITLE (cmts f) = inl [] ->
          exists f1,
            Flac.SetTitle fieldEq "" f = (f1, nil_error)
            /\ Flac.SetTitle fieldEq y f1 = (f1, nil_error)
            /\ flacvorbis.Get fieldEq flacvorbis.FIELD_TITLE (cmts f1)
               = inl [""]).
Proof.
  intros y. split.
  - intros m Hm. eexists _, _.
    split; [now apply Mp3_SetTitle_absent|].
    split; [unfold title_frames, SetTitle; simpl;
            now apply GetFrames_AddTextFrame|].
    split.
    + apply Mp3_SetTitle_absent. simpl. apply Title_SetTitle.
    + unfold title_frames, SetTitle. simpl.
      now rewrite GetFrames_AddTextFrame by reflexivity.
  - intros f Hf.
    destruct (Flac_SetTitle_absent fieldEq fieldEq_refl "" f Hf) as [Hset Hget].
    eexists. split; [exact Hset|]. split; [|exact Hget].
    now apply Flac_SetTitle_present with [""].
Qed.

Lemma Mp3_SetAlbum_absent album m :
  Album (tag m) = Ret "" ->
  Mp3.SetAlbum album m = Ret (mkMp3Tagger (SetAlbum album (tag m)), nil_error).
Proof. intros H. unfold Mp3.SetAlbum. now rewrite H. Qed.

Lemma Flac_SetAlbum_present album vals f :
  flacvorbis.Get fieldEq flacvorbis.FIELD_ALBUM (cmts f) = inl vals ->
  vals <> [] ->
  Flac.SetAlbum fieldEq album f = (f, nil_error).
Proof.
  intros H Hne. unfold Flac.SetAlbum. rewrite H. now destruct vals.
Qed.

(** X6.  The first album wins, as the first title does.  On a session
    without album, [SetAlbum x] with [x] non-empty stores [x] as the one
    TALB frame (MP3) or the one ALBUM value (FLAC); the same call again and
    a later [SetAlbum y] return that session unchanged. *)
Theorem first_album_wins :
  forall x y : string, x <> "" ->
    (forall m, Album (tag m) = Ret "" ->
       exists m1,
         Mp3.SetAlbum x m = Ret (m1, nil_error)
         /\ Mp3.SetAlbum x m1 = Ret (m1, nil_error)
         /\ Mp3.SetAlbum y m1 = Ret (m1, nil_error)
         /\ album_frames m1
            = [FText (mkTextFrame (defaultEncoding (tag m)) x)]
         /\ Album (tag m1) = Ret x)
    /\ (forall f,
          flacvorbis.Get fieldEq flacvorbis.FIELD_ALBUM (cmts f) = inl [] ->
          exists f1,
            Flac.SetAlbum fieldEq x f = (f1, nil_error)
            /\ Flac.SetAlbum fieldEq x f1 = (f1, nil_error)
            /\ Flac.SetAlbum fieldEq y f1 = (f1, nil_error)
            /\ flacvorbis.Get fieldEq flacvorbis.FIELD_ALBUM (cmts f1)
               = inl [x]).
Proof.
  intros x y Hx. split.
  - intros m Hm. eexists. split; [now apply Mp3_SetAlbum_absent|].
    assert (Ht : Album (tag (mkMp3Tagger (SetAlbum x (tag m)))) = Ret x)
      by apply Album_SetAlbum.
    repeat split.
    + now apply Mp3_SetAlbum_present with x.
    + now apply Mp3_SetAlbum_present with x.
    + unfold album_frames, SetAlbum. simpl.
      now apply GetFrames_AddTextFrame.
    + exact Ht.
  - intros f Hf.
    assert (Hget : flacvorbis.Get fieldEq flacvorbis.FIELD_ALBUM
                     (fst (flacvorbis.Add flacvorbis.FIELD_ALBUM x (cmts f)))
                   = inl [x])
      by now apply (Get_Add fieldEq _ x _ []).
    eexists. split.
    + unfold Flac.SetAlbum. rewrite Hf. reflexivity.
    + repeat split; try exact Hget;
        now apply Flac_SetAlbum_present with [x].
Qed.

End Presence.

Lemma Mp3_SetComment_first_wins_witness :
  Mp3Session untagged_session
  /\ exists m1,
       Mp3.SetComment "" untagged_session = Ret (m1, nil_error)
       /\ comment_frames m1
          = [id3v2.FComment
               (id3v2.mkCommentFrame id3v2.EncodingISO "XXX" "" "")]
       /\ Mp3.SetComment "hello" m1 = Ret (m1, nil_error).
Proof.
  split; [exact untagged_session_ok|].
  exact (proj1 (Mp3_SetComment_first_wins untagged_session untagged_session_ok)
           eq_refl "" "hello").
Defined.

Lemma SetArtist_presence_witness :
  (exists m1,
      Mp3.SetArtist [""] untagged_session = Ret (m1, nil_error)
      /\ Mp3.SetArtist ["A"; "B"] m1 = Ret (m1, nil_error))
  /\ Flac.SetArtist String.eqb [] plain_flac_session
     = (plain_flac_session, nil_error).
Proof.
  destruct (SetArtist_presence String.eqb) as (_ & _ & Hmp3 & _ & Hflac).
  split.
  - destruct (Hmp3 untagged_session eq_refl) as (m1 & H1 & _ & H3).
    exists m1. split; [exact H1 | apply H3].
  - exact (Hflac plain_flac_session eq_refl).
Defined.

Lemma empty_title_then_title_witness :
  (exists m1 m2,
      Mp3.SetTitle "" untagged_session = Ret (m1, nil_error)
      /\ Mp3.SetTitle "y" m1 = Ret (m2, nil_error)
      /\ title_frames m2
         = [id3v2.FText (id3v2.mkTextFrame id3v2.EncodingUTF8 "y")])
  /\ (exists f1,
         Flac.SetTitle String.eqb "" plain_flac_session = (f1, nil_error)
         /\ Flac.SetTitle String.eqb "y" f1 = (f1, nil_error)
         /\ flacvorbis.Get String.eqb flacvorbis.FIELD_TITLE (cmts f1)
            = inl [""]).
Proof.
  destruct (empty_title_then_title String.eqb String.eqb_refl "y")
    as [Hmp3 Hflac].
  split.
  - destruct (Hmp3 untagged_session eq_refl) as (m1 & m2 & H1 & _ & H3 & H4).
    exists m1, m2. repeat split; assumption.
  - exact (Hflac plain_flac_session eq_refl).
Defined.

Lemma first_album_wins_witness :
  (exists m1,
      Mp3.SetAlbum "x" untagged_session = Ret (m1, nil_error)
      /\ Mp3.SetAlbum "y" m1 = Ret (m1, nil_error)
      /\ id3v2.Album (tag m1) = Ret "x")
  /\ (exists f1,
         Flac.SetAlbum String.eqb "x" plain_flac_session = (f1, nil_error)
         /\ Flac.SetAlbum String.eqb "y" f1 = (f1, nil_error)
         /\ flacvorbis.Get String.eqb flacvorbis.FIELD_ALBUM (cmts f1)
            = inl ["x"]).
Proof.
  assert (Hne : "x" <> "") by discriminate.
  destruct (first_album_wins String.eqb String.eqb_refl "x" "y" Hne)
    as [Hmp3 Hflac].
  split.
  - destruct (Hmp3 untagged_session eq_refl) as (m1 & H1 & _ & H3 & _ & H5).
    exists m1. repeat split; assumption.
  - destruct (Hflac plain_flac_session eq_refl) as (f1 & H1 & _ & H3 & H4).
    exists f1. repeat split; assumption.
Defined.

(** ** [FlacTagger]: setters, comment list and block chain *)

Section FlacSetters.

Variable image_Decode : bytes -> string -> flacpicture.image_info.
Variable fieldEq : string -> string -> bool.

Lemma Get_loop_malformed key cmts res cmt :
  In cmt cmts -> flacvorbis.SplitN_eq_2 cmt = None ->
  flacvorbis.Get_loop fieldEq key cmts res = inr ErrorMalformedComment.
Proof.
  revert res. induction cmts as [|c cmts IH]; intros res Hin Hbad; simpl;
    [contradiction|].
  destruct (flacvorbis.SplitN_eq_2 c) as [[k v]|] eqn:Hc; [|reflexivity].
  destruct Hin as [-> | Hin]; [congruence | now apply IH].
Qed.

(** X7.  A comment without "=" anywhere in the list stops the three text
    setters: [SetTitle], [SetAlbum] and [SetArtist] return
    [ErrorMalformedComment] and leave the session as it is, whatever the
    field and whether or not the field is present.  [NewFlacTagger] lets
    such a comment in: parsing the comment block does not look for "=". *)
Theorem Flac_malformed_comment_stops_setters :
  forall (f : FlacTagger) (cmt : string),
    In cmt (flacvorbis.Comments (cmts f)) ->
    flacvorbis.SplitN_eq_2 cmt = None ->
    forall (text : string) (artists : list string),
      Flac.SetTitle fieldEq text f = (f, Some ErrorMalformedComment)
      /\ Flac.SetAlbum fieldEq text f = (f, Some ErrorMalformedComment)
      /\ Flac.SetArtist fieldEq artists f = (f, Some ErrorMalformedComment).
Proof.
  intros f cmt Hin Hbad text artists.
  unfold Flac.SetTitle, Flac.SetAlbum, Flac.SetArtist, flacvorbis.Get.
  now rewrite !(Get_loop_malformed _ _ _ _ Hin Hbad).
Qed.

Lemma Comments_Add_loop key artists c :
  forallb flacvorbis.valid_key_char (list_ascii_of_string key) = true ->
  let c' := fold_left (fun c a => fst (flacvorbis.Add key a c)) artists c in
  flacvorbis.Comments c'
  = flacvorbis.Comments c ++ map (fun a => (key ++ "=" ++ a)%string) artists
  /\ flacvorbis.Vendor c' = flacvorbis.Vendor c.
Proof.
  intros Hkey. revert c. induction artists as [|a l IH]; intros c; simpl.
  - now rewrite app_nil_r.
  - destruct (IH (fst (flacvorbis.Add key a c))) as [H1 H2].
    rewrite H1, H2, Add_valid by exact Hkey. simpl.
    now rewrite <- app_assoc.
Qed.

Lemma Get_loop_other_key key key' vals res :
  forallb flacvorbis.valid_key_char (list_ascii_of_string key) = true ->
  fieldEq key key' = false ->
  flacvorbis.Get_loop fieldEq key'
    (map (fun v => (key ++ "=" ++ v)%string) vals) res = inl res.
Proof.
  intros Hkey Hne. induction vals as [|v vals IH]; simpl; [reflexivity|].
  rewrite SplitN_valid_key by exact Hkey. now rewrite Hne.
Qed.

(** What a setter call does to the comment list: it appends values of its
    own field, or nothing. *)
Lemma Flac_call_comments c f :
  exists key vals,
    forallb flacvorbis.valid_key_char (list_ascii_of_string key) = true
    /\ (forall k, call_key c = Some k -> key = k)
    /\ flacvorbis.Comments (cmts (fst (Flac_call image_Decode fieldEq c f)))
       = flacvorbis.Comments (cmts f)
         ++ map (fun v => (key ++ "=" ++ v)%string) vals
    /\ flacvorbis.Vendor (cmts (fst (Flac_call image_Decode fieldEq c f)))
       = flacvorbis.Vendor (cmts f)
    /\ (call_key c = None -> vals = []).
Proof.
  destruct c; simpl.
  - exists "TITLE", []. unfold Flac.SetCover.
    destruct (flacpicture.NewFromImageData _ _ _ _ _); simpl;
      rewrite app_nil_r; repeat split; discriminate.
  - exists "TITLE", []. simpl. rewrite app_nil_r. repeat split; discriminate.
  - unfold Flac.SetTitle.
    destruct (flacvorbis.Get _ _ _) as [vals|e];
      [destruct (Nat.eqb _ 0)|]; simpl.
    + exists "TITLE", [title]. repeat split; try discriminate.
      now intros k [= <-].
    + exists "TITLE", []. rewrite app_nil_r. repeat split; try discriminate.
      now intros k [= <-].
    + exists "TITLE", []. rewrite app_nil_r. repeat split; try discriminate.
      now intros k [= <-].
  - unfold Flac.SetAlbum.
    destruct (flacvorbis.Get _ _ _) as [vals|e];
      [destruct (Nat.eqb _ 0)|]; simpl.
    + exists "ALBUM", [album]. repeat split; try discriminate.
      now intros k [= <-].
    + exists "ALBUM", []. rewrite app_nil_r. repeat split; try discriminate.
      now intros k [= <-].
    + exists "ALBUM", []. rewrite app_nil_r. repeat split; try discriminate.
      now intros k [= <-].
  - unfold Flac.SetArtist.
    destruct (flacvorbis.Get _ _ _) as [vals|e];
      [destruct (Nat.eqb _ 0)|]; simpl.
    + exists "ARTIST", artists.
      destruct (Comments_Add_loop flacvorbis.FIELD_ARTIST artists (cmts f)
                  eq_refl) as [H1 H2].
      repeat split; try discriminate; trivial. now intros k [= <-].
    + exists "ARTIST", []. rewrite app_nil_r. repeat split; try discriminate.
      now intros k [= <-].
    + exists "ARTIST", []. rewrite app_nil_r. repeat split; try discriminate.
      now intros k [= <-].
  - exists "TITLE", []. simpl. rewrite app_nil_r. repeat split; discriminate.
Qed.

(** X8.  Each FLAC setter keeps to its own part of the session.  The cover
    setters and [SetComment] leave the comment list as it is; the text
    setters leave the block chain, the audio frames and the path as they
    are, keep the vendor string and every comment that was there, in
    order, and append only entries of their own field.  So what [Get]
    returns for a field whose name the comparison tells apart from the
    setter's is the same before and after the call. *)
Theorem Flac_setter_keeps_to_its_part :
  forall (c : call) (f : FlacTagger),
    let f' := fst (Flac_call image_Decode fieldEq c f) in
    (call_key c = None -> cmts f' = cmts f)
    /\ (forall key, call_key c = Some key ->
          file f' = file f /\ path f' = path f
          /\ flacvorbis.Vendor (cmts f') = flacvorbis.Vendor (cmts f)
          /\ (exists vals,
                flacvorbis.Comments (cmts f')
                = flacvorbis.Comments (cmts f)
                  ++ map (fun v => (key ++ "=" ++ v)%string) vals)
          /\ forall key', fieldEq key key' = false ->
               flacvorbis.Get fieldEq key' (cmts f')
               = flacvorbis.Get fieldEq key' (cmts f)).
Proof.
  intros c f f'. split.
  - intros Hnone. subst f'. destruct c; try discriminate Hnone; simpl.
    + unfold Flac.SetCover.
      now destruct (flacpicture.NewFromImageData _ _ _ _ _).
    + reflexivity.
    + reflexivity.
  - intros key Hkey.
    destruct (Flac_call_comments c f)
      as (key0 & vals & Hvalid & Hk & Hcmts & Hvendor & _).
    rewrite (Hk key Hkey) in *. fold f' in Hcmts, Hvendor.
    assert (Hfile : file f' = file f /\ path f' = path f).
    { subst f'. destruct c; try discriminate Hkey; simpl;
        unfold Flac.SetTitle, Flac.SetAlbum, Flac.SetArtist;
        destruct (flacvorbis.Get _ _ _) as [vs|e];
        try destruct (Nat.eqb _ 0); simpl; auto. }
    destruct Hfile as [Hfile Hpath].
    repeat split; trivial.
    + now exists vals.
    + intros key' Hne. unfold flacvorbis.Get. rewrite Hcmts, Get_loop_app.
      destruct (flacvorbis.Get_loop fieldEq key'
                  (flacvorbis.Comments (cmts f)) []); [|reflexivity].
      now apply Get_loop_other_key.
Qed.

(** X9.  [FlacTagger.SetCover] returns an error exactly when the image is
    refused, and then leaves the session as it is; when the image is
    accepted it appends one picture block, and that block is read back as
    the front-cover picture with description "Front cover", the MIME type
    and the image bytes that were passed and the dimensions the decoder
    found, provided lengths and dimensions fit 32 bits. *)
Theorem Flac_SetCover_result :
  forall (buf : bytes) (mime : string) (f : FlacTagger),
    (forall e, image_Decode buf mime = inr e ->
               Flac.SetCover image_Decode buf mime f = (f, Some e))
    /\ (forall w h depth colors,
          image_Decode buf mime = inl (w, h, depth, colors) ->
          Flac.SetCover image_Decode buf mime f
          = (append_meta (cover_block w h depth colors buf mime) f, nil_error)
          /\ ((len mime < 2 ^ 32)%N -> (blen buf < 2 ^ 32)%N ->
              (w < 2 ^ 32)%N -> (h < 2 ^ 32)%N ->
              (depth < 2 ^ 32)%N -> (colors < 2 ^ 32)%N ->
              flacpicture.ParseFromMetaDataBlock
                (cover_block w h depth colors buf mime)
              = Some (flacpicture.mkPicture flacpicture.PictureTypeFrontCover
                        mime "Front cover" w h depth colors buf))).
Proof.
  intros buf mime f. split.
  - intros e He. unfold Flac.SetCover, flacpicture.NewFromImageData.
    now rewrite He.
  - intros w h depth colors Hdec. split.
    + unfold Flac.SetCover, flacpicture.NewFromImageData. now rewrite Hdec.
    + intros. unfold cover_block. now apply picture_roundtrip.
Qed.

End FlacSetters.

Lemma Flac_malformed_comment_stops_setters_witness :
  NewFlacTagger "a.flac" garbled_flac_world
  = (inl garbled_flac_session,
     mkWorld (files garbled_flac_world) [] [ev_flac_ParseFile "a.flac"])
  /\ Flac.SetTitle String.eqb "T" garbled_flac_session
     = (garbled_flac_session, Some ErrorMalformedComment)
  /\ Flac.SetAlbum String.eqb "A" garbled_flac_session
     = (garbled_flac_session, Some ErrorMalformedComment).
Proof.
  split; [reflexivity|].
  assert (Hin : In "garbage"
                  (flacvorbis.Comments (cmts garbled_flac_session)))
    by (right; now left).
  destruct (Flac_malformed_comment_stops_setters String.eqb
              garbled_flac_session "garbage" Hin eq_refl "T" [])
    as (H1 & _ & _).
  destruct (Flac_malformed_comment_stops_setters String.eqb
              garbled_flac_session "garbage" Hin eq_refl "A" [])
    as (_ & H2 & _).
  now split.
Defined.

Lemma Flac_setter_keeps_to_its_part_witness :
  flacvorbis.Get String.eqb flacvorbis.FIELD_TITLE
    (cmts (fst (Flac_call any_image String.eqb (CSetArtist ["A"; "B"])
                  titled_flac_session)))
  = inl ["Original"]
  /\ file (fst (Flac_call any_image String.eqb (CSetArtist ["A"; "B"])
                  titled_flac_session))
     = file titled_flac_session.
Proof.
  destruct (Flac_setter_keeps_to_its_part any_image String.eqb
              (CSetArtist ["A"; "B"]) titled_flac_session) as [_ H].
  destruct (H flacvorbis.FIELD_ARTIST eq_refl) as (Hfile & _ & _ & _ & Hget).
  split; [|exact Hfile].
  rewrite (Hget flacvorbis.FIELD_TITLE eq_refl). reflexivity.
Defined.

Lemma Flac_SetCover_result_witness :
  Flac.SetCover any_image [Byte.x89; Byte.x50] "image/png" plain_flac_session
  = (append_meta (cover_block 1 1 24 0 [Byte.x89; Byte.x50] "image/png")
       plain_flac_session, nil_error)
  /\ flacpicture.ParseFromMetaDataBlock
       (cover_block 1 1 24 0 [Byte.x89; Byte.x50] "image/png")
     = Some (flacpicture.mkPicture flacpicture.PictureTypeFrontCover
               "image/png" "Front cover" 1 1 24 0 [Byte.x89; Byte.x50]).
Proof.
  destruct (Flac_SetCover_result any_image [Byte.x89; Byte.x50] "image/png"
              plain_flac_session) as [_ H].
  destruct (H 1%N 1%N 24%N 0%N eq_refl) as [Hset Hread].
  split; [exact Hset|].
  apply Hread; reflexivity.
Defined.

(** ** [FlacTagger]: what the next session finds *)

Section FlacNextSession.

Variable image_Decode : bytes -> string -> flacpicture.image_info.
Variable fieldEq : string -> string -> bool.

Lemma Flac_calls_comments cs f :
  Forall (fun cmt => cmt <> "") (flacvorbis.Comments (cmts f)) ->
  Forall (fun cmt => cmt <> "")
    (flacvorbis.Comments (cmts (Flac_calls image_Decode fieldEq cs f))).
Proof.
  revert f. induction cs as [|c cs IH]; intros f Hf; simpl; [exact Hf|].
  apply IH.
  destruct (Flac_call_comments image_Decode fieldEq c f)
    as (key & vals & _ & _ & -> & _ & _).
  apply Forall_app. split; [exact Hf|].
  apply Forall_forall. intros x Hx.
  apply list_elem_of_In, in_map_iff in Hx as (v & <- & _).
  destruct key; discriminate.
Qed.

Lemma Flac_calls_vendor cs f :
  flacvorbis.Vendor (cmts (Flac_calls image_Decode fieldEq cs f))
  = flacvorbis.Vendor (cmts f).
Proof.
  revert f. induction cs as [|c cs IH]; intros f; [reflexivity|].
  change (Flac_calls image_Decode fieldEq (c :: cs) f)
    with (Flac_calls image_Decode fieldEq cs
            (fst (Flac_call image_Decode fieldEq c f))).
  rewrite IH.
  now destruct (Flac_call_comments image_Decode fieldEq c f)
    as (_ & _ & _ & _ & _ & -> & _).
Qed.

Lemma chain_fits_last meta b :
  flac.chain_fits (meta ++ [b]) = true -> flac.block_fits b = true.
Proof.
  intros H. apply chain_fits_forallb in H. rewrite forallb_app in H.
  apply andb_prop in H as [_ H]. cbn [forallb] in H.
  now apply andb_prop in H as [H _].
Qed.

(** X10.  On a file without comment block the comments of a session reach
    the next session.  After any setter calls and a [Save] that goes
    through, and when the chain that was written (the blocks of the file,
    the pictures the calls have added, the new comment block) is within
    the bounds of the layout, every block below 2^24 bytes,
    [NewFlacTagger] on the same path succeeds; its comment list (vendor and
    entries, in order) is the one the saved session had, and its chain is
    the saved session's chain, pictures included, with the comment block
    at the end. *)
Theorem Flac_comments_reach_next_session :
  forall p w f w1 cs f' w2,
    NewFlacTagger p w = (inl f, w1) ->
    List.find is_VorbisComment (flac.Meta (file f)) = None ->
    let saved := cmts (Flac_calls image_Decode fieldEq cs f) in
    flac.chain_fits
      (flac.Meta (file (Flac_calls image_Decode fieldEq cs f))
       ++ [flacvorbis.Marshal saved]) = true ->
    Flac.Save (Flac_calls image_Decode fieldEq cs f) w1 = (f', nil_error, w2) ->
    exists f2 w3,
      NewFlacTagger p (quiet w2) = (inl f2, w3)
      /\ cmts f2 = saved
      /\ flac.Meta (file f2)
         = flac.Meta (file (Flac_calls image_Decode fieldEq cs f))
           ++ [flacvorbis.Marshal saved].
Proof.
  intros p w f w1 cs f' w2 Hnew Hfind saved Hfits Hsave.
  destruct (NewFlacTagger_fits _ _ _ _ Hnew) as [_ Hsync].
  destruct (NewFlacTagger_inv _ _ _ _ Hnew) as (_ & _ & Hp & _ & Hparse).
  rewrite Hfind in Hparse.
  destruct (Flac_calls_chain image_Decode fieldEq cs f)
    as (Hpath & Hframes & added & Hmeta & Hadded).
  destruct (Flac_Save_spec (Flac_calls image_Decode fieldEq cs f) w1)
    as (err & Hs & _).
  rewrite Hs in Hsave. injection Hsave as _ -> <-.
  assert (Hround : flacvorbis.ParseFromMetaDataBlock (flacvorbis.Marshal saved)
                   = inl saved).
  { pose proof (chain_fits_last _ _ Hfits) as Hlast.
    unfold flac.block_fits in Hlast. apply andb_prop in Hlast as [_ Hsize].
    apply N.ltb_lt in Hsize.
    destruct (Marshal_fits_fields saved Hsize) as (Hv & Hcount & Hlens).
    apply comments_roundtrip; [exact Hv | exact Hcount |].
    assert (Hne : Forall (fun cmt => cmt <> "") (flacvorbis.Comments saved)).
    { apply Flac_calls_comments. rewrite Hparse. constructor. }
    rewrite Forall_forall in *. intros x Hx. split; auto. }
  erewrite NewFlacTagger_quiet;
    [| simpl; rewrite Hpath, Hp; apply lookup_insert_eq
     | exact Hfits
     | now rewrite Hframes].
  rewrite Hmeta, <- app_assoc, find_app_None by exact Hfind.
  rewrite find_app_None by now apply count_zero_find.
  simpl. fold saved. rewrite Hround.
  eexists _, _. split; [reflexivity|]. split; [reflexivity|].
  simpl. now rewrite <- app_assoc.
Qed.

(** X11.  On a file that has a comment block already, nothing a session
    adds to its comments reaches the next session.  [Save] puts the new
    block after the chain and [NewFlacTagger] reads the first comment block
    it meets: after any setter calls and a [Save] that goes through, the
    chain that was written being within the bounds of the layout,
    [NewFlacTagger] on the same path succeeds and its comment list is the
    one the first session started from; the comments the session has
    added are in the last block of the chain, which is not read. *)
Theorem Flac_first_comment_block_shadows :
  forall p w f w1 m cs f' w2,
    NewFlacTagger p w = (inl f, w1) ->
    List.find is_VorbisComment (flac.Meta (file f)) = Some m ->
    let saved := Flac_calls image_Decode fieldEq cs f in
    flac.chain_fits (flac.Meta (file saved) ++ [flacvorbis.Marshal (cmts saved)])
    = true ->
    Flac.Save saved w1 = (f', nil_error, w2) ->
    exists f2 w3,
      NewFlacTagger p (quiet w2) = (inl f2, w3)
      /\ cmts f2 = cmts f
      /\ List.find is_VorbisComment (flac.Meta (file f2)) = Some m
      /\ last (flac.Meta (file f2)) = Some (flacvorbis.Marshal (cmts saved)).
Proof.
  intros p w f w1 m cs f' w2 Hnew Hfind saved Hfits Hsave.
  destruct (NewFlacTagger_fits _ _ _ _ Hnew) as [_ Hsync].
  destruct (NewFlacTagger_inv _ _ _ _ Hnew) as (_ & _ & Hp & _ & Hparse).
  rewrite Hfind in Hparse.
  destruct (Flac_calls_chain image_Decode fieldEq cs f)
    as (Hpath & Hframes & added & Hmeta & _).
  destruct (Flac_Save_spec saved w1) as (err & Hs & _).
  rewrite Hs in Hsave. injection Hsave as _ -> <-.
  assert (Hfirst : List.find is_VorbisComment
                     (flac.Meta (file saved)
                      ++ [flacvorbis.Marshal (cmts saved)]) = Some m).
  { subst saved. rewrite Hmeta. now do 2 apply find_app_Some. }
  erewrite NewFlacTagger_quiet;
    [| simpl; fold saved; subst saved; rewrite Hpath, Hp;
       apply lookup_insert_eq
     | exact Hfits
     | subst saved; now rewrite Hframes].
  fold saved. rewrite Hfirst, Hparse.
  eexists _, _. split; [reflexivity|]. cbn [cmts file flac.Meta].
  split; [reflexivity|]. split; [exact Hfirst|]. apply last_snoc.
Qed.

(** X12.  [FlacTagger.Save] is not a call to repeat.  Each [Save] appends
    the marshalled comments to the session's own chain before it writes,
    and the appended block stays whether the write fails or not: after two
    calls the chain ends in two copies of the comment block, and a second
    write that goes through puts both into the file. *)
Theorem Flac_Save_twice :
  forall (f : FlacTagger) (w : World),
    let fresh := flacvorbis.Marshal (cmts f) in
    let r1 := Flac.Save f w in
    let r2 := Flac.Save (fst (fst r1)) (snd r1) in
    flac.Meta (file (fst (fst r1))) = flac.Meta (file f) ++ [fresh]
    /\ flac.Meta (file (fst (fst r2))) = flac.Meta (file f) ++ [fresh; fresh]
    /\ count_comment_blocks (flac.Meta (file (fst (fst r2))))
       = S (S (count_comment_blocks (flac.Meta (file f))))
    /\ (snd (fst r2) = nil_error ->
        files (snd r2) !! path f
        = Some (FlacFile (flac.Meta (file f) ++ [fresh; fresh])
                  (flac.Frames (file f)))).
Proof.
  intros f w fresh r1 r2.
  destruct (Flac_Save_spec f w) as (e1 & H1 & _).
  assert (Hr1 : fst (fst r1) = append_meta fresh f)
    by (subst r1; now rewrite H1).
  destruct (Flac_Save_spec (append_meta fresh f) (snd r1)) as (e2 & H2 & _).
  subst r2. rewrite Hr1, H2. simpl.
  rewrite <- !app_assoc. simpl. repeat split.
  - rewrite count_comment_blocks_app.
    change (count_comment_blocks [fresh; flacvorbis.Marshal (cmts f)])
      with 2%nat.
    lia.
  - intros ->. apply lookup_insert_eq.
Qed.

End FlacNextSession.

Lemma Flac_comments_reach_next_session_witness :
  exists f2 w3,
    NewFlacTagger "a.flac"
      (quiet (snd (Flac.Save
                     (Flac_calls any_image String.eqb
                        [CSetTitle "T"; CSetArtist ["A"; "B"]]
                        plain_flac_session) plain_flac_opened)))
    = (inl f2, w3)
    /\ flacvorbis.Comments (cmts f2) = ["TITLE=T"; "ARTIST=A"; "ARTIST=B"].
Proof.
  destruct (Flac_comments_reach_next_session any_image String.eqb
              "a.flac" plain_flac_world plain_flac_session plain_flac_opened
              [CSetTitle "T"; CSetArtist ["A"; "B"]]
              (fst (fst (Flac.Save
                           (Flac_calls any_image String.eqb
                              [CSetTitle "T"; CSetArtist ["A"; "B"]]
                              plain_flac_session) plain_flac_opened)))
              (snd (Flac.Save
                      (Flac_calls any_image String.eqb
                         [CSetTitle "T"; CSetArtist ["A"; "B"]]
                         plain_flac_session) plain_flac_opened))
              eq_refl eq_refl)
    as (f2 & w3 & Hre & Hc & _).
  - reflexivity.
  - reflexivity.
  - exists f2, w3. split; [exact Hre|]. now rewrite Hc.
Defined.

Lemma Flac_first_comment_block_shadows_witness :
  exists f2 w3,
    NewFlacTagger "a.flac"
      (quiet (snd (Flac.Save
                     (Flac_calls any_image String.eqb [CSetAlbum "Blue"]
                        titled_flac_session) titled_flac_opened)))
    = (inl f2, w3)
    /\ flacvorbis.Get String.eqb flacvorbis.FIELD_ALBUM (cmts f2) = inl [].
Proof.
  destruct (Flac_first_comment_block_shadows any_image String.eqb
              "a.flac" titled_flac_world titled_flac_session titled_flac_opened
              (flacvorbis.Marshal titled_comments) [CSetAlbum "Blue"]
              (fst (fst (Flac.Save
                           (Flac_calls any_image String.eqb [CSetAlbum "Blue"]
                              titled_flac_session) titled_flac_opened)))
              (snd (Flac.Save
                      (Flac_calls any_image String.eqb [CSetAlbum "Blue"]
                         titled_flac_session) titled_flac_opened))
              eq_refl eq_refl eq_refl eq_refl)
    as (f2 & w3 & Hre & Hc & _).
  exists f2, w3. split; [exact Hre|]. now rewrite Hc.
Defined.

(** ** Constructors and [Save]: the files they touch *)

Section Footprint.

Lemma NewMp3Tagger_reads_only p w :
  files (snd (NewMp3Tagger p w)) = files w
  /\ events (snd (NewMp3Tagger p w)) = events w ++ [ev_id3v2_Open p]
  /\ faults (snd (NewMp3Tagger p w)) = tail (faults w).
Proof.
  unfold NewMp3Tagger, id3v2_Open, sys. simpl.
  destruct (default nil_error (head (faults w))); [now repeat split|].
  destruct (files w !! p) as [d|]; [|now repeat split].
  now destruct (Tag_parse p d).
Qed.

Lemma NewFlacTagger_reads_only p w :
  files (snd (NewFlacTagger p w)) = files w
  /\ events (snd (NewFlacTagger p w)) = events w ++ [ev_flac_ParseFile p]
  /\ faults (snd (NewFlacTagger p w)) = tail (faults w).
Proof.
  unfold NewFlacTagger, flac_ParseFile, sys. simpl.
  destruct (default nil_error (head (faults w))); [now repeat split|].
  destruct (files w !! p) as [d|]; [|now repeat split].
  destruct (ParseBytes p d) as [c|e]; [|now repeat split].
  destruct (List.find is_VorbisComment (flac.Meta c)) as [m|];
    [|now repeat split].
  now destruct (flacvorbis.ParseFromMetaDataBlock m).
Qed.

(** X13.  [NewTagger] only reads: it changes no file and makes at most one
    file operation, on the input path.  Its error is nil exactly when the
    [Tagger] it returns holds a session.  And the [Tagger] it returns is
    the nil interface only for a format it does not know: when the format
    is known and the constructor fails, the caller gets a [Tagger] that is
    not nil and holds a nil pointer, next to the error. *)
Theorem NewTagger_result_shape :
  forall (mapLower : string -> string) (input format : string) (w : World),
    let r := NewTagger mapLower input format w in
    let known :=
      String.eqb (ToLower mapLower format) audioFormatMp3
      || String.eqb (ToLower mapLower format) audioFormatFlac in
    files (snd r) = files w
    /\ (events (snd r) = events w
        \/ events (snd r) = events w ++ [ev_id3v2_Open input]
        \/ events (snd r) = events w ++ [ev_flac_ParseFile input])
    /\ (snd (fst r) = nil_error <->
        (exists m, fst (fst r) = Tagger_Mp3 (Some m))
        \/ (exists f, fst (fst r) = Tagger_Flac (Some f)))
    /\ (fst (fst r) = Tagger_nil <-> known = false)
    /\ (known = true -> snd (fst r) <> nil_error ->
        fst (fst r) = Tagger_Mp3 None \/ fst (fst r) = Tagger_Flac None).
Proof.
  intros mapLower input format w r known. subst r known. unfold NewTagger.
  destruct (String.eqb (ToLower mapLower format) audioFormatMp3).
  - destruct (NewMp3Tagger_reads_only input w) as (Hf & He & _).
    destruct (NewMp3Tagger input w) as [[m|e] w']; simpl in *.
    + repeat split; auto; try discriminate.
      * intros _. left. eauto.
      * congruence.
    + repeat split; auto; try discriminate.
      intros [[m H]|[f H]]; discriminate.
  - destruct (String.eqb (ToLower mapLower format) audioFormatFlac).
    + destruct (NewFlacTagger_reads_only input w) as (Hf & He & _).
      destruct (NewFlacTagger input w) as [[f|e] w']; simpl in *.
      * repeat split; auto; try discriminate.
        -- intros _. right. eauto.
        -- congruence.
      * repeat split; auto; try discriminate.
        intros [[m H]|[f H]]; discriminate.
    + simpl. repeat split; auto; try discriminate.
      intros [[m H]|[f H]]; discriminate.
Qed.

End Footprint.

Lemma NewTagger_result_shape_witness :
  NewTagger (fun s => s) "missing.flac" "FLAC" untagged_world
  = ((Tagger_Flac None, Some (os_ErrNotExist "missing.flac")),
     mkWorld (files untagged_world) [] [ev_flac_ParseFile "missing.flac"])
  /\ fst (fst (NewTagger (fun s => s) "missing.flac" "FLAC" untagged_world))
     <> Tagger_nil.
Proof.
  split; [reflexivity|].
  destruct (NewTagger_result_shape (fun s => s) "missing.flac" "FLAC"
              untagged_world) as (_ & _ & _ & Hnil & _).
  intros H. apply Hnil in H. discriminate H.
Defined.

(** ** [Mp3Tagger]: setters of different fields, in either order *)

Section Mp3Order.

Import id3v2.

Lemma Mp3_call_session m c :
  Mp3Session m ->
  exists m', Mp3_call c m = Ret (m', nil_error) /\ Mp3Session m'.
Proof.
  intros Hm.
  destruct (Mp3_call_returns c m (Mp3Session_tag_ok m Hm)) as [m' Hcall].
  exists m'. split; [exact Hcall|]. eapply session_call; eauto.
Qed.

Lemma agree_at_AddFrame id f t1 t2 :
  agree_at id t1 t2 -> agree_at id (AddFrame id f t1) (AddFrame id f t2).
Proof.
  intros (Hf & Hs & He). unfold AddFrame.
  destruct (String.eqb id ""); [now repeat split|].
  destruct (mustFrameBeInSequence id); repeat split; simpl; trivial.
  - now rewrite !lookup_insert_eq, Hs.
  - now rewrite !lookup_insert_eq.
Qed.

Lemma agree_at_GetFrames id t1 t2 :
  agree_at id t1 t2 -> GetFrames id t1 = GetFrames id t2.
Proof. intros (Hf & Hs & _). unfold GetFrames. now rewrite Hf, Hs. Qed.

Lemma agree_at_GetTextFrame id t1 t2 :
  agree_at id t1 t2 -> GetTextFrame id t1 = GetTextFrame id t2.
Proof.
  intros H. unfold GetTextFrame, GetLastFrame.
  rewrite (agree_at_GetFrames _ _ _ H). destruct H as (-> & _). reflexivity.
Qed.

Lemma agree_at_fold_SetArtist artists t1 t2 :
  agree_at "TPE1" t1 t2 ->
  agree_at "TPE1" (fold_left (fun t a => SetArtist a t) artists t1)
    (fold_left (fun t a => SetArtist a t) artists t2).
Proof.
  revert t1 t2. induction artists as [|a l IH]; intros t1 t2 H; simpl;
    [exact H|].
  apply IH. unfold SetArtist, AddTextFrame.
  change (CommonID "Lead artist/Lead performer/Soloist/Performing group")
    with "TPE1".
  destruct H as (Hf & Hs & He). rewrite He.
  apply agree_at_AddFrame. now repeat split.
Qed.

(** What a setter leaves under its own ID depends on what it found there
    and on nothing else of the tag. *)
Lemma Mp3_call_agree c m1 m2 m1' m2' e1 e2 :
  agree_at (call_id c) (tag m1) (tag m2) ->
  Mp3_call c m1 = Ret (m1', e1) -> Mp3_call c m2 = Ret (m2', e2) ->
  agree_at (call_id c) (tag m1') (tag m2').
Proof.
  intros H. destruct c; simpl in *;
    unfold Mp3.SetCover, Mp3.SetCoverUrl, Mp3.SetTitle, Mp3.SetAlbum,
      Mp3.SetArtist, Mp3.SetComment, Title, Album, obind.
  - intros [= <- _] [= <- _]. simpl. now apply agree_at_AddFrame.
  - intros [= <- _] [= <- _]. simpl. now apply agree_at_AddFrame.
  - change (CommonID "Title/Songname/Content description") with "TIT2".
    rewrite (agree_at_GetTextFrame _ _ _ H).
    destruct (GetTextFrame "TIT2" (tag m2)) as [tf|]; [|discriminate].
    destruct (String.eqb (tf_Text tf) ""); intros [= <- _] [= <- _];
      [|exact H].
    simpl. unfold SetTitle, AddTextFrame.
    destruct H as (Hf & Hs & He). rewrite He.
    apply agree_at_AddFrame. now repeat split.
  - change (CommonID "Album/Movie/Show title") with "TALB".
    rewrite (agree_at_GetTextFrame _ _ _ H).
    destruct (GetTextFrame "TALB" (tag m2)) as [tf|]; [|discriminate].
    destruct (String.eqb (tf_Text tf) ""); intros [= <- _] [= <- _];
      [|exact H].
    simpl. unfold SetAlbum, AddTextFrame.
    destruct H as (Hf & Hs & He). rewrite He.
    apply agree_at_AddFrame. now repeat split.
  - change (CommonID "Artist") with "TPE1".
    rewrite (agree_at_GetFrames _ _ _ H).
    destruct (Nat.eqb _ 0); intros [= <- _] [= <- _]; [|exact H].
    simpl. now apply agree_at_fold_SetArtist.
  - change (CommonID "Comments") with "COMM".
    rewrite (agree_at_GetFrames _ _ _ H).
    destruct (Nat.eqb _ 0); intros [= <- _] [= <- _]; [|exact H].
    simpl. now apply agree_at_AddFrame.
Qed.

Lemma same_but_agree id id' t t' :
  same_but id t t' -> id' <> id -> agree_at id' t t'.
Proof.
  intros (H & _ & _ & He) Hne. destruct (H id' Hne) as [Hf Hs].
  now repeat split.
Qed.

Lemma Tag_ext t t' :
  (forall k, frames t !! k = frames t' !! k) ->
  (forall k, sequences t !! k = sequences t' !! k) ->
  defaultEncoding t = defaultEncoding t' -> version t = version t' ->
  reader t = reader t' -> t = t'.
Proof.
  destruct t, t'. simpl. intros Hf Hs -> -> ->.
  f_equal; now apply map_eq.
Qed.

(** X16.  Setters of different fields may be called in either order on the
    MP3 encoder.  For two setter calls that write different frame IDs (any
    two of cover, title, album, artist, comment), the session after the one
    and then the other is the session after the other and then the one. *)
Theorem Mp3_setters_commute :
  forall (m : Mp3Tagger) (c1 c2 : call),
    Mp3Session m -> call_id c1 <> call_id c2 ->
    exists m',
      Mp3_calls [c1; c2] m = Ret m' /\ Mp3_calls [c2; c1] m = Ret m'.
Proof.
  intros m c1 c2 Hm Hne.
  destruct (Mp3_call_session m c1 Hm) as (ma & Ha & Hma).
  destruct (Mp3_call_session ma c2 Hma) as (mab & Hab & _).
  destruct (Mp3_call_session m c2 Hm) as (mb & Hb & Hmb).
  destruct (Mp3_call_session mb c1 Hmb) as (mba & Hba & _).
  exists mab. simpl. rewrite Ha, Hb. simpl. rewrite Hab, Hba. simpl.
  split; [reflexivity|]. f_equal.
  pose proof (Mp3_call_same_but _ _ _ _ Ha) as Sa.
  pose proof (Mp3_call_same_but _ _ _ _ Hab) as Sab.
  pose proof (Mp3_call_same_but _ _ _ _ Hb) as Sb.
  pose proof (Mp3_call_same_but _ _ _ _ Hba) as Sba.
  assert (A1 : agree_at (call_id c1) (tag mab) (tag mba)).
  { destruct (same_but_agree _ (call_id c1) _ _ Sab Hne) as (F1 & S1 & E1).
    destruct (Mp3_call_agree c1 m mb ma mba _ _
                (same_but_agree _ (call_id c1) _ _ Sb Hne) Ha Hba)
      as (F2 & S2 & E2).
    repeat split; congruence. }
  assert (A2 : agree_at (call_id c2) (tag mab) (tag mba)).
  { assert (Hne' : call_id c2 <> call_id c1) by congruence.
    destruct (same_but_agree _ (call_id c2) _ _ Sba Hne') as (F1 & S1 & E1).
    destruct (Mp3_call_agree c2 m ma mb mab _ _
                (same_but_agree _ (call_id c2) _ _ Sa Hne') Hb Hab)
      as (F2 & S2 & E2).
    repeat split; congruence. }
  destruct Sa as (Ka & Ra & Va & Ea), Sab as (Kab & Rab & Vab & Eab),
    Sb as (Kb & Rb & Vb & Eb), Sba as (Kba & Rba & Vba & Eba).
  assert (Hboth : forall k,
             frames (tag mab) !! k = frames (tag mba) !! k
             /\ sequences (tag mab) !! k = sequences (tag mba) !! k).
  { intros k.
    destruct (String.eqb_spec k (call_id c1)) as [->|N1];
      [now destruct A1 as (? & ? & _)|].
    destruct (String.eqb_spec k (call_id c2)) as [->|N2];
      [now destruct A2 as (? & ? & _)|].
    destruct (Ka k N1), (Kab k N2), (Kb k N2), (Kba k N1).
    split; congruence. }
  destruct mab as [tab], mba as [tba]. simpl in *. f_equal.
  apply Tag_ext; try congruence; intros k; now destruct (Hboth k).
Qed.

End Mp3Order.

Lemma Mp3_setters_commute_witness :
  exists m',
    Mp3_calls [CSetCover [Byte.x89] "image/png"; CSetArtist ["A"]]
      titled_mp3_session = Ret m'
    /\ Mp3_calls [CSetArtist ["A"]; CSetCover [Byte.x89] "image/png"]
         titled_mp3_session = Ret m'.
Proof.
  assert (Hm : Mp3Session titled_mp3_session).
  { apply (session_open "a.mp3" titled_mp3_world titled_mp3_session
             (mkWorld (files titled_mp3_world) [] [ev_id3v2_Open "a.mp3"])).
    - reflexivity.
    - intros v fr music H. vm_compute in H. now injection H as <- <- <-. }
  apply (Mp3_setters_commute titled_mp3_session
           (CSetCover [Byte.x89] "image/png") (CSetArtist ["A"]) Hm).
  discriminate.
Defined.

(** ** Artists on the FLAC encoder, covers and [Save] on the MP3 encoder *)

Section LastFacts.

Import id3v2.

Variable fieldEq : string -> string -> bool.
Hypothesis fieldEq_refl : forall k, fieldEq k k = true.

(** X17.  On the FLAC encoder the artists are kept one by one.  On a
    session without ARTIST value, [SetArtist] appends one entry "ARTIST=a"
    per element of the list, in the order of the list, after the comments
    that were there; [Get] then returns the list; and, the list not being
    empty, every later [SetArtist] returns the session as it is. *)
Theorem Flac_SetArtist_in_order :
  forall (f : FlacTagger) (artists : list string),
    flacvorbis.Get fieldEq flacvorbis.FIELD_ARTIST (cmts f) = inl [] ->
    exists f1,
      Flac.SetArtist fieldEq artists f = (f1, nil_error)
      /\ flacvorbis.Comments (cmts f1)
         = flacvorbis.Comments (cmts f)
           ++ map (fun a => ("ARTIST=" ++ a)%string) artists
      /\ flacvorbis.Get fieldEq flacvorbis.FIELD_ARTIST (cmts f1) = inl artists
      /\ (artists <> [] ->
          forall others, Flac.SetArtist fieldEq others f1 = (f1, nil_error)).
Proof.
  intros f artists H.
  destruct (Add_loop fieldEq flacvorbis.FIELD_ARTIST artists (cmts f) []
              eq_refl (fieldEq_refl _) H) as (H1 & H2 & _).
  eexists. split; [unfold Flac.SetArtist; rewrite H; reflexivity|].
  simpl. split; [exact H2|]. split; [exact H1|].
  intros Hne others. unfold Flac.SetArtist. simpl. simpl in H1. rewrite H1.
  now destruct artists.
Qed.

Lemma Mp3Session_frames_invariant m :
  Mp3Session m -> NoDup (map UniqueIdentifier (pictures m)).
Proof.
  intros Hm. destruct (Mp3Session_stores_ok m Hm) as (_ & _ & Hnd).
  unfold pictures, GetFrames.
  destruct (frames (tag m) !! CommonID "Attached picture"); simpl.
  - apply NoDup_singleton.
  - destruct (sequences (tag m) !! CommonID "Attached picture") eqn:E; simpl.
    + now apply (Hnd _ _ E).
    + apply NoDup_nil_2.
Qed.

Lemma filter_uid_unique (x : Framer) (l : list Framer) :
  NoDup (map UniqueIdentifier l) -> In x l ->
  List.filter (fun y => String.eqb (UniqueIdentifier y) (UniqueIdentifier x)) l
  = [x].
Proof.
  induction l as [|y l IH]; simpl; [contradiction|].
  intros Hnd Hin. apply NoDup_cons in Hnd as [Hy Hnd].
  destruct (String.eqb_spec (UniqueIdentifier y) (UniqueIdentifier x)) as [E|N].
  - destruct Hin as [-> | Hin].
    + f_equal. clear IH. induction l as [|z l IH]; simpl; [reflexivity|].
      apply NoDup_cons in Hnd as [_ Hnd].
      destruct (String.eqb_spec (UniqueIdentifier z) (UniqueIdentifier x))
        as [Ez|_].
      * exfalso. apply Hy. rewrite <- Ez. left.
      * apply IH; [|exact Hnd]. intros H. apply Hy. now right.
    + exfalso. apply Hy. rewrite E. apply list_elem_of_In.
      now apply in_map.
  - destruct Hin as [-> | Hin]; [congruence | now apply IH].
Qed.

Lemma filter_other_sequence_AddFrame (f : Framer) (l : list Framer) :
  List.filter
    (fun y => negb (String.eqb (UniqueIdentifier y) (UniqueIdentifier f)))
    (sequence_AddFrame f l)
  = List.filter
      (fun y => negb (String.eqb (UniqueIdentifier y) (UniqueIdentifier f))) l.
Proof.
  unfold sequence_AddFrame. destruct (indexOfFrame f l) as [i|] eqn:Hi.
  - revert i Hi. induction l as [|y l IH]; intros i; simpl; [discriminate|].
    destruct (String.eqb_spec (UniqueIdentifier f) (UniqueIdentifier y)) as [E|N].
    + intros [= <-]. simpl. rewrite String.eqb_refl. simpl.
      rewrite <- E. now rewrite String.eqb_refl.
    + destruct (indexOfFrame f l) as [j|]; simpl; [|discriminate].
      intros [= <-]. simpl. now rewrite (IH j eq_refl).
  - rewrite List.filter_app. simpl. rewrite String.eqb_refl. simpl.
    now rewrite app_nil_r.
Qed.

(** X18.  On the MP3 encoder the cover set last is the one picture
    described "Front cover".  A picture frame is identified by its
    description alone: after [SetCover] or [SetCoverUrl] on a session the
    frames under APIC whose identifier is "Front cover" are exactly one,
    the frame of this call, whatever the picture type of the frame it has
    taken the place of; the frames with another identifier are those from
    before, in their order. *)
Theorem Mp3_last_cover_is_the_front_cover :
  forall (m : Mp3Tagger), Mp3Session m ->
    forall (c : call) (frame : Framer),
      (exists buf mime, c = CSetCover buf mime /\ frame = cover_frame buf mime)
      \/ (exists url, c = CSetCoverUrl url
                      /\ frame = cover_frame (bytes_of_string url) "-->") ->
      exists m',
        Mp3_call c m = Ret (m', nil_error)
        /\ List.filter
             (fun y => String.eqb (UniqueIdentifier y) "Front cover")
             (pictures m') = [frame]
        /\ List.filter
             (fun y => negb (String.eqb (UniqueIdentifier y) "Front cover"))
             (pictures m')
           = List.filter
               (fun y => negb (String.eqb (UniqueIdentifier y) "Front cover"))
               (pictures m).
Proof.
  intros m Hm c frame Hc.
  assert (Hcall : exists m',
             Mp3_call c m = Ret (m', nil_error) /\ Mp3Session m'
             /\ pictures m' = sequence_AddFrame frame (pictures m)).
  { destruct Hc as [(buf & mime & -> & ->) | (url & -> & ->)].
    - apply Mp3_SetCover_pictures; exact Hm.
    - apply Mp3_SetCoverUrl_pictures; exact Hm. }
  assert (Huid : UniqueIdentifier frame = "Front cover")
    by (destruct Hc as [(buf & mime & _ & ->) | (url & _ & ->)]; reflexivity).
  destruct Hcall as (m' & Hcall & Hm' & Hp).
  exists m'. split; [exact Hcall|]. rewrite <- Huid. split.
  - apply filter_uid_unique.
    + apply (Mp3Session_frames_invariant m' Hm').
    + rewrite Hp. apply In_sequence_AddFrame.
  - rewrite Hp. apply filter_other_sequence_AddFrame.
Qed.

(** X19.  What [Mp3Tagger.Save] returns is what [Tag.Close] returned, in
    every world: the two library calls are made in the order [Save],
    [Close], each takes its own outcome from the system, and the result of
    the first is dropped.  So a nil result does not say that the file was
    written, and an error does not say that it was not. *)
Theorem Mp3_Save_returns_Close_result :
  forall (m : Mp3Tagger) (w : World),
    fst (Mp3Tagger_Save m w) = default nil_error (head (tail (faults w)))
    /\ events (snd (Mp3Tagger_Save m w))
       = events w ++ [ev_Tag_Save (reader (tag m));
                      ev_Tag_Close (reader (tag m))]
    /\ faults (snd (Mp3Tagger_Save m w)) = tail (tail (faults w))
    /\ (forall v fr music e rest,
          files w !! reader (tag m) = Some (Id3File v fr music) ->
          faults w = None :: Some e :: rest ->
          fst (Mp3Tagger_Save m w) = Some e
          /\ exists v', files (snd (Mp3Tagger_Save m w)) !! reader (tag m)
                        = Some (Id3File v' (allFrames (tag m)) music)).
Proof.
  intros m w.
  unfold Mp3Tagger_Save, Tag_Save, Tag_Close, sys, write_file. simpl.
  split; [|split; [|split]].
  - destruct (default nil_error (head (faults w))); [reflexivity|].
    now destruct (files w !! reader (tag m)) as [[| |]|].
  - destruct (default nil_error (head (faults w)));
      [simpl; now rewrite <- app_assoc|].
    destruct (files w !! reader (tag m)) as [[| |]|]; simpl;
      now rewrite <- app_assoc.
  - destruct (default nil_error (head (faults w))); [reflexivity|].
    now destruct (files w !! reader (tag m)) as [[| |]|].
  - intros v fr music e rest Hf Hw. rewrite Hw. simpl. rewrite Hf. simpl.
    split; [reflexivity|]. rewrite lookup_insert_eq. unfold tagged.
    destruct (allFrames (tag m)); eauto.
Qed.

End LastFacts.

Lemma Flac_SetArtist_in_order_witness :
  exists f1,
    Flac.SetArtist String.eqb ["A"; "B"; "C"] titled_flac_session
    = (f1, nil_error)
    /\ flacvorbis.Comments (cmts f1)
       = ["TITLE=Original"; "ARTIST=A"; "ARTIST=B"; "ARTIST=C"]
    /\ Flac.SetArtist String.eqb ["D"] f1 = (f1, nil_error).
Proof.
  destruct (Flac_SetArtist_in_order String.eqb String.eqb_refl
              titled_flac_session ["A"; "B"; "C"] eq_refl)
    as (f1 & H1 & H2 & _ & H4).
  exists f1. split; [exact H1|]. split; [exact H2|].
  apply H4. discriminate.
Defined.

Lemma Mp3_last_cover_is_the_front_cover_witness :
  pictures back_cover_session = [back_cover; artist_picture]
  /\ exists m',
       Mp3_call (CSetCover [Byte.xff; Byte.xd8] "image/jpeg") back_cover_session
       = Ret (m', nil_error)
       /\ pictures m'
          = [cover_frame [Byte.xff; Byte.xd8] "image/jpeg"; artist_picture].
Proof.
  split; [reflexivity|].
  destruct (Mp3_last_cover_is_the_front_cover back_cover_session
              back_cover_session_ok (CSetCover [Byte.xff; Byte.xd8] "image/jpeg")
              (cover_frame [Byte.xff; Byte.xd8] "image/jpeg"))
    as (m' & Hcall & _ & _).
  - left. now exists [Byte.xff; Byte.xd8], "image/jpeg".
  - exists m'. split; [exact Hcall|].
    vm_compute in Hcall. injection Hcall as <-. reflexivity.
Defined.

Lemma Flac_Save_twice_witness :
  let r1 := Flac.Save titled_flac_session titled_flac_opened in
  let r2 := Flac.Save (fst (fst r1)) (snd r1) in
  snd (fst r2) = nil_error
  /\ exists chain,
       files (snd r2) !! "a.flac" = Some (FlacFile chain sync_audio)
       /\ count_comment_blocks chain = 3%nat.
Proof.
  intros r1 r2. split; [reflexivity|].
  destruct (Flac_Save_twice titled_flac_session titled_flac_opened)
    as (_ & _ & _ & Hfile).
  eexists. split; [exact (Hfile eq_refl) | reflexivity].
Defined.

Lemma Mp3_Save_returns_Close_result_witness :
  let w := mkWorld (files titled_mp3_world) [None; Some (sys_error 9)] [] in
  fst (Mp3Tagger_Save titled_mp3_session w) = Some (sys_error 9)
  /\ exists v',
       files (snd (Mp3Tagger_Save titled_mp3_session w)) !! "a.mp3"
       = Some (Id3File v' (allFrames (tag titled_mp3_session)) []).
Proof.
  intros w.
  destruct (Mp3_Save_returns_Close_result titled_mp3_session w)
    as (_ & _ & _ & H).
  exact (H 4%N _ [] (sys_error 9) [] eq_refl eq_refl).
Defined.
